(** * OmniVision: the image-matching pipeline of [app/main.py] and
      [app/ai_engine.py], embedded in Rocq.

    The Python code is effectful: it talks to Supabase, to the Graph API, to
    Gemini and to Pillow, and it uses exceptions for control flow.  The
    embedding is a state-and-exception monad over
      - the [users] table (the only table the pipeline writes), and
      - a chronological [trace] of every request the code issues,
    run against a [World] record that answers each outside call.  Each answer
    may depend on everything the program did before (the trace so far). *)

From Stdlib Require Import ZArith List Ascii String DecimalString.
From Stdlib Require Import Strings.Byte.
From Stdlib Require Import Floats.SpecFloat.
From stdpp Require Import base option gmap strings list.

Local Open Scope string_scope.
Local Open Scope Z_scope.

(** ** Python values that travel through JSON rows *)

Module Py.

(** A float is kept by the text [str()] prints for it. *)
Inductive value :=
| PNone
| PBool (b : bool)
| PInt (z : Z)
| PFloat (shown : string)
| PStr (s : string).

(** A JSON object row, as the Supabase client returns it. *)
Abbreviation dict := (gmap string value).

(** [bool(v)] *)
Definition truthy (v : value) : bool :=
  match v with
  | PNone => false
  | PBool b => b
  | PInt z => negb (z =? 0)
  | PFloat shown => negb (String.eqb shown "0.0" || String.eqb shown "-0.0")
  | PStr s => negb (String.eqb s "")
  end.

Definition str_of_Z (z : Z) : string := NilZero.string_of_int (Z.to_int z).

(** [str(v)], which is also [format(v, "")]. *)
Definition str (v : value) : string :=
  match v with
  | PNone => "None"
  | PBool true => "True"
  | PBool false => "False"
  | PInt z => str_of_Z z
  | PFloat shown => shown
  | PStr s => s
  end.

(** [d.get(k)] and [d.get(k, default)] *)
Definition get (d : dict) (k : string) : value := default PNone (d !! k).
Definition get_default (d : dict) (k : string) (dflt : value) : value :=
  default dflt (d !! k).

Inductive exn :=
| KeyError
| IndexError
| ValueError
| TypeError
| AttributeError
| InvalidToken          (* cryptography.fernet *)
| UnidentifiedImage     (* PIL *)
| ApiError              (* Gemini / Supabase client errors *)
| HTTPStatusError       (* httpx: raise_for_status on 4xx / 5xx *)
| TransportError.       (* httpx: connect / read failures, timeouts *)

Inductive outcome (A : Type) :=
| Ok (a : A)
| Raise (e : exn).
Arguments Ok {A} a.
Arguments Raise {A} e.

(** ** Text helpers of [str], [re] and [int]

    A Python [str] is a sequence of Unicode code points.  Where the code
    inspects the characters of a text (strips it, searches it for digits,
    converts it to an integer) the text is a list of code points.  A
    [string] holds a text in UTF-8; [code_points] are its characters. *)

Definition text := list Z.

Definition byte_value (c : ascii) : Z := Z.of_nat (nat_of_ascii c).

(** A byte that goes on a multi-byte character. *)
Definition continuation (c : ascii) : bool :=
  (128 <=? byte_value c) && (byte_value c <? 192).

Definition low6 (c : ascii) : Z := byte_value c - 128.

(** UTF-8 decoding.  A byte outside any well-formed sequence (there is none
    in the encoding of a text) counts as a character of its own that is
    neither a digit nor whitespace. *)
Fixpoint code_points (s : string) : text :=
  match s with
  | EmptyString => []
  | String b0 r0 =>
      let n0 := byte_value b0 in
      let stray := (-1) :: code_points r0 in
      if n0 <? 128 then n0 :: code_points r0
      else
        match r0 with
        | String b1 r1 =>
            if negb (continuation b1) then stray
            else if (194 <=? n0) && (n0 <? 224) then
              ((n0 - 192) * 64 + low6 b1) :: code_points r1
            else
              match r1 with
              | String b2 r2 =>
                  if negb (continuation b2) then stray
                  else if (224 <=? n0) && (n0 <? 240) then
                    (((n0 - 224) * 64 + low6 b1) * 64 + low6 b2) :: code_points r2
                  else
                    match r2 with
                    | String b3 r3 =>
                        if continuation b3 && (240 <=? n0) && (n0 <? 245) then
                          ((((n0 - 240) * 64 + low6 b1) * 64 + low6 b2) * 64 + low6 b3)
                            :: code_points r3
                        else stray
                    | EmptyString => stray
                    end
              | EmptyString => stray
              end
        | EmptyString => stray
        end
  end.

(** The characters for which [str.isspace()] holds; [str.strip()] removes
    them. *)
Definition whitespace : list Z :=
  [ 9; 10; 11; 12; 13; 28; 29; 30; 31; 32; 133; 160; 5760; 8192; 8193; 8194;
    8195; 8196; 8197; 8198; 8199; 8200; 8201; 8202; 8232; 8233; 8239; 8287;
    12288 ].

Definition isspace (c : Z) : bool := existsb (Z.eqb c) whitespace.

(** The decimal digits (general category Nd, Unicode 14.0 as in CPython
    3.11) come in runs of ten, from the digit zero up; these are the zeros:
    ASCII, Arabic-Indic, ..., the segmented digits. *)
Definition decimal_zeros : list Z :=
  [ 48; 1632; 1776; 1984; 2406; 2534; 2662; 2790; 2918; 3046; 3174; 3302;
    3430; 3558; 3664; 3792; 3872; 4160; 4240; 6112; 6160; 6470; 6608; 6784;
    6800; 6992; 7088; 7232; 7248; 42528; 43216; 43264; 43472; 43504; 43600;
    44016; 65296; 66720; 68912; 69734; 69872; 69942; 70096; 70384; 70736;
    70864; 71248; 71360; 71472; 71904; 72016; 72784; 73040; 73120; 92768;
    92864; 93008; 120782; 120792; 120802; 120812; 120822; 123200; 123632;
    125264; 130032 ].

(** The value of a decimal digit, [None] for any other character: what
    [\d] of [re] matches and what [int()] reads as a digit. *)
Definition decimal (c : Z) : option Z :=
  match find (fun zero => (zero <=? c) && (c <=? zero + 9)) decimal_zeros with
  | Some zero => Some (c - zero)
  | None => None
  end.

Definition isdecimal (c : Z) : bool :=
  match decimal c with
  | Some _ => true
  | None => false
  end.

Fixpoint lstrip_by (space : Z -> bool) (s : text) : text :=
  match s with
  | [] => []
  | c :: r => if space c then lstrip_by space r else s
  end.

Fixpoint rstrip_by (space : Z -> bool) (s : text) : text :=
  match s with
  | [] => []
  | c :: r =>
      match rstrip_by space r with
      | [] => if space c then [] else [c]
      | r' => c :: r'
      end
  end.

(** [s.strip()] *)
Definition lstrip : text -> text := lstrip_by isspace.
Definition rstrip : text -> text := rstrip_by isspace.
Definition strip (s : text) : text := rstrip (lstrip s).

(** The longest prefix of decimal digits. *)
Fixpoint span_digits (s : text) : text :=
  match s with
  | [] => []
  | c :: r => if isdecimal c then c :: span_digits r else []
  end.

(** [re.search(r'\d+', s)]: the leftmost, longest run of digits;
    [None] when [s] holds no digit.  The result is [match.group()]. *)
Fixpoint re_search_digits (s : text) : option text :=
  match s with
  | [] => None
  | c :: r => if isdecimal c then Some (c :: span_digits r) else re_search_digits r
  end.

(** The number a run of decimal digits denotes. *)
Definition decimal_value (digits : text) : Z :=
  fold_left (fun acc c => 10 * acc + default 0 (decimal c)) digits 0.

(** [sys.get_int_max_str_digits()], at its default: [int()] refuses a
    decimal string with more digits. *)
Definition int_max_str_digits : nat := 4300.

(** The whitespace [int()] skips around the number: TAB..CR and space among
    the ASCII characters (not FS..US), every whitespace character beyond. *)
Definition int_space (c : Z) : bool :=
  if c <? 127 then ((9 <=? c) && (c <=? 13)) || (c =? 32) else isspace c.

(** The body of an integer literal: digits, with single underscores allowed
    between two digits. *)
Fixpoint int_body (after_digit : bool) (s : text) : bool :=
  match s with
  | [] => after_digit
  | c :: r =>
      if isdecimal c then int_body true r
      else if c =? 95 then after_digit && int_body false r
      else false
  end.

(** [int(s)] on a text: surrounding whitespace and one sign are accepted;
    the digits are counted without the underscores. *)
Definition int (s : text) : outcome Z :=
  let unsigned (b : text) (sign : Z) :=
    let digits := List.filter (fun c => negb (c =? 95)) b in
    if int_body false b && (length digits <=? int_max_str_digits)%nat
    then Ok (sign * decimal_value digits)
    else Raise ValueError in
  match rstrip_by int_space (lstrip_by int_space s) with
  | c :: r =>
      if c =? 45 then unsigned r (-1)
      else if c =? 43 then unsigned r 1
      else unsigned (c :: r) 1
  | [] => Raise ValueError
  end.

(** [int(s)] on a [string] *)
Definition int_of_str (s : string) : outcome Z := int (code_points s).

(** ** [str.format] with keyword arguments only

    The template is read the way CPython's markup iterator reads it: left to
    right, and a field is rendered as soon as its closing brace is read, so
    whichever fault comes first (a stray brace, an unknown name) is the one
    raised.  Every character the formatter looks for is an ASCII one, so the
    template is read byte by byte; the conversion after [!] is the one place
    where a whole character, whatever it is, is taken. *)

Inductive chunk :=
| Lit (c : ascii)
| Field (field_name : string) (conversion : option string) (format_spec : string).

Inductive mode :=
| MText                                  (* literal text *)
| MOpen                                  (* a left brace was just read *)
| MClose                                 (* a right brace was just read *)
| MName (name : string)                  (* inside a field name *)
| MBracket (name : string)               (* inside [...] of a field name *)
| MConv (name : string)                  (* after '!' *)
| MConvEnd (name : string) (conv : string)
| MSpec (name : string) (conv : option string) (spec : string) (depth : nat).

Inductive step_result :=
| Emit (out : list chunk) (next : mode)
| Fail (e : exn).

Definition snoc (s : string) (c : ascii) : string := s +:+ String c EmptyString.

Definition name_step (name : string) (c : ascii) : step_result :=
  if Ascii.eqb c "{" then Fail ValueError
  else if Ascii.eqb c "[" then Emit [] (MBracket (snoc name c))
  else if Ascii.eqb c "}" then Emit [Field name None ""] MText
  else if Ascii.eqb c ":" then Emit [] (MSpec name None "" 1)
  else if Ascii.eqb c "!" then Emit [] (MConv name)
  else Emit [] (MName (snoc name c)).

Definition step (m : mode) (c : ascii) : step_result :=
  match m with
  | MText =>
      if Ascii.eqb c "{" then Emit [] MOpen
      else if Ascii.eqb c "}" then Emit [] MClose
      else Emit [Lit c] MText
  | MOpen => if Ascii.eqb c "{" then Emit [Lit "{"] MText else name_step "" c
  | MClose => if Ascii.eqb c "}" then Emit [Lit "}"] MText else Fail ValueError
  | MName name => name_step name c
  | MBracket name =>
      if Ascii.eqb c "]" then Emit [] (MName (snoc name c))
      else Emit [] (MBracket (snoc name c))
  | MConv name => Emit [] (MConvEnd name (String c EmptyString))
  | MConvEnd name conv =>
      if Ascii.eqb c "}" then Emit [Field name (Some conv) ""] MText
      else if Ascii.eqb c ":" then Emit [] (MSpec name (Some conv) "" 1)
      else if continuation c then Emit [] (MConvEnd name (snoc conv c))
      else Fail ValueError
  | MSpec name conv spec depth =>
      if Ascii.eqb c "{" then Emit [] (MSpec name conv (snoc spec c) (S depth))
      else if Ascii.eqb c "}" then
        match depth with
        | 1%nat => Emit [Field name conv spec] MText
        | _ => Emit [] (MSpec name conv (snoc spec c) (Nat.pred depth))
        end
      else Emit [] (MSpec name conv (snoc spec c) depth)
  end.

(** Running out of input is fine in literal text only. *)
Definition at_end (m : mode) : option exn :=
  match m with
  | MText => None
  | _ => Some ValueError
  end.

(** The chunks read before the first syntax fault, and that fault. *)
Fixpoint markup (m : mode) (s : string) : list chunk * option exn :=
  match s with
  | EmptyString => ([], at_end m)
  | String c r =>
      match step m c with
      | Emit out m' => let (cs, e) := markup m' r in ((out ++ cs)%list, e)
      | Fail e => ([], Some e)
      end
  end.

(** The argument a field names: the part before the first [.] or [[];
    the lookups to follow from it: the rest. *)
Fixpoint arg_name (field_name : string) : string :=
  match field_name with
  | EmptyString => EmptyString
  | String c r =>
      if Ascii.eqb c "." || Ascii.eqb c "[" then EmptyString
      else String c (arg_name r)
  end.

Fixpoint arg_rest (field_name : string) : string :=
  match field_name with
  | EmptyString => EmptyString
  | String c r =>
      if Ascii.eqb c "." || Ascii.eqb c "[" then field_name else arg_rest r
  end.

(** An argument name that reads as an index (the empty name does). *)
Definition all_digits (s : string) : bool := forallb isdecimal (code_points s).

Fixpoint has_lbrace (s : string) : bool :=
  match s with
  | EmptyString => false
  | String c r => Ascii.eqb c "{" || has_lbrace r
  end.

(** The largest index a field may name. *)
Definition PY_SSIZE_T_MAX : Z := 9223372036854775807.

(** What [!s], [!r] and [!a] ask for. *)
Inductive conversion :=
| AsIs
| ToStr
| ToRepr
| ToAscii.

(** The character after [!]; a NUL stands for no conversion at all. *)
Definition do_conversion (conv : option string) : outcome conversion :=
  match conv with
  | None => Ok AsIs
  | Some c =>
      if String.eqb c (String Ascii.zero EmptyString) then Ok AsIs
      else if String.eqb c "s" then Ok ToStr
      else if String.eqb c "r" then Ok ToRepr
      else if String.eqb c "a" then Ok ToAscii
      else Raise ValueError
  end.

Section Format.

(** Two things are the formatted object's own business and are given from
    outside: whether the attribute and index lookups of a field name raise
    on the argument ([lookup_fault], never asked about an empty path), and
    the text of the object so reached, converted and formatted with a
    specification ([rich]).  The text of an argument itself, taken as it is
    or through [str()], with an empty specification, is [str] of it; so is
    its [repr()] or [ascii()] unless it is a string. *)
Variable lookup_fault : value -> string -> option exn.
Variable rich : value -> string -> conversion -> string -> outcome string.

Definition field_text (v : value) (path : string) (c : conversion)
    (spec : string) : outcome string :=
  match path, spec with
  | EmptyString, EmptyString =>
      match c, v with
      | (AsIs | ToStr), _ => Ok (str v)
      | _, PStr _ => rich v path c spec
      | _, _ => Ok (str v)
      end
  | _, _ => rich v path c spec
  end.

(** One replacement field: find the argument, follow the lookups, convert,
    expand the fields nested in the specification, format. *)
Definition render_field (expand : string -> outcome string) (kw : dict)
    (field_name : string) (conv : option string) (spec : string) : outcome string :=
  let arg := arg_name field_name in
  let path := arg_rest field_name in
  if all_digits arg then                       (* positional: args is empty *)
    if decimal_value (code_points arg) <=? PY_SSIZE_T_MAX then Raise IndexError
    else Raise ValueError
  else
    match kw !! arg with
    | None => Raise KeyError
    | Some v =>
        match (if String.eqb path "" then None else lookup_fault v path) with
        | Some e => Raise e
        | None =>
            match do_conversion conv with
            | Raise e => Raise e
            | Ok c =>
                match (if has_lbrace spec then expand spec else Ok spec) with
                | Raise e => Raise e
                | Ok actual_spec => field_text v path c actual_spec
                end
            end
        end
    end.

Fixpoint render (expand : string -> outcome string) (kw : dict) (cs : list chunk)
    : outcome string :=
  match cs with
  | [] => Ok EmptyString
  | Lit c :: cs' =>
      match render expand kw cs' with
      | Ok s => Ok (String c s)
      | Raise e => Raise e
      end
  | Field n conv spec :: cs' =>
      match render_field expand kw n conv spec with
      | Raise e => Raise e
      | Ok f =>
          match render expand kw cs' with
          | Ok s => Ok (f +:+ s)
          | Raise e => Raise e
          end
      end
  end.

(** The formatter proper; [recursion_depth] bounds the nesting of fields. *)
Fixpoint build_string (recursion_depth : nat) (kw : dict) (tmpl : string)
    : outcome string :=
  match recursion_depth with
  | O => Raise ValueError
  | S depth =>
      let (cs, fault) := markup MText tmpl in
      match render (build_string depth kw) kw cs, fault with
      | Raise e, _ => Raise e
      | Ok _, Some e => Raise e
      | Ok s, None => Ok s
      end
  end.

(** [tmpl.format] applied to the keyword arguments [kw] *)
Definition format (tmpl : string) (kw : dict) : outcome string :=
  build_string 2 kw tmpl.

End Format.

End Py.

Import Py.

(** ** The outside world *)

Abbreviation bytes := (list byte).
Abbreviation float := spec_float.

(** [0.0] *)
Definition zero : float := S754_zero false.
(** [0.70], the binary64 nearest to it *)
Definition threshold_70 : float := S754_finite false 6305039478318694 (-53).

Record Response := { status_code : Z; content : bytes }.

(** The [message] member of a Graph API send request. *)
Inductive Payload :=
| Text (text : value)
| ImageAttachment (url : value).

(** What [client.post] followed by [raise_for_status] does. *)
Inductive Posted :=
| Accepted
| Refused          (* 4xx / 5xx: httpx.HTTPStatusError *)
| Unreachable.     (* no response: an httpx transport error *)

(** The arguments of the [match_products] stored procedure. *)
Record MatchParams := {
  query_siglip : list float;
  query_dino : list float;
  match_threshold : float;
  filter_page_id : Z
}.

(** Every request the pipeline issues, in the order it issues them. *)
Inductive Event :=
| SelectShop (page_id : string)
| SelectCredits (owner : string)
| UpdateCredits (owner : string) (credits : Z)
| RpcMatch (params : MatchParams)
| HttpGet (url : string)
| Describe (image : bytes)
| Embed (text : string)
| Compare (image1 image2 : bytes)
| Send (recipient : string) (message : Payload) (token : string) (result : Posted).

Record World := {
  (* Supabase *)
  shops_select : list Event -> string -> outcome (list dict);
  users_select_fault : list Event -> string -> option exn;
  users_update_fault : list Event -> string -> Z -> option exn;
  match_products : list Event -> MatchParams -> outcome (list dict);
  (* cryptography.fernet, under the configured key *)
  fernet_decrypt : string -> option string;
  (* httpx *)
  client_get : list Event -> string -> outcome Response;
  graph_post : list Event -> string -> Payload -> string -> Posted;
  (* PIL: can [Image.open] identify these bytes? *)
  image_open : bytes -> bool;
  (* Gemini: [generate_content(...)] and its [.text], [embed_content(...)]
     and its ['embedding'] *)
  generate_description : list Event -> bytes -> outcome string;
  embed_content : list Event -> string -> outcome (list float);
  generate_comparison : list Event -> bytes -> bytes -> outcome text;
  (* the formatted object's own methods, see [Py.render_field] *)
  format_lookup_fault : value -> string -> option exn;
  format_rich : value -> string -> conversion -> string -> outcome string
}.

(** ** The monad *)

Record State := { users : gmap string Z; trace : list Event }.

Definition M (A : Type) : Type := State -> outcome A * State.

Definition ret {A} (a : A) : M A := fun st => (Ok a, st).
Definition raise {A} (e : exn) : M A := fun st => (Raise e, st).
Definition bind {A B} (m : M A) (k : A -> M B) : M B :=
  fun st =>
    match m st with
    | (Ok a, st') => k a st'
    | (Raise e, st') => (Raise e, st')
    end.
(** [try: m  except ...: h e] *)
Definition try_except {A} (m : M A) (h : exn -> M A) : M A :=
  fun st =>
    match m st with
    | (Ok a, st') => (Ok a, st')
    | (Raise e, st') => h e st'
    end.
Definition lift {A} (o : outcome A) : M A := fun st => (o, st).
(** [d[k]] *)
Definition item {A} (o : option A) : M A :=
  match o with
  | Some a => ret a
  | None => raise KeyError
  end.

Definition record (e : Event) (st : State) : State :=
  {| users := users st; trace := (trace st ++ [e])%list |}.

(** A request whose answer may depend on the history. *)
Definition request {A} (e : Event) (answer : list Event -> outcome A) : M A :=
  fun st => (answer (trace st), record e st).

Declare Scope py_scope.
Delimit Scope py_scope with py.
Notation "x <- m ;; k" := (bind m (fun x => k))
  (at level 100, m at next level, right associativity) : py_scope.
Local Open Scope py_scope.

(** ** [app/ai_engine.py] *)

Record AiResult := {
  siglip_embedding : list float;
  dino_embedding : list float;
  description : option string
}.

(** [Image.open(BytesIO(b))] *)
Definition Image_open (w : World) (b : bytes) : M bytes :=
  if image_open w b then ret b else raise UnidentifiedImage.

Definition process_image (w : World) (image_bytes : bytes) : M AiResult :=
  try_except
    (image <- Image_open w image_bytes ;;
     description <- request (Describe image) (fun h => generate_description w h image) ;;
     embedding <- request (Embed description) (fun h => embed_content w h description) ;;
     ret {| siglip_embedding := embedding;
            dino_embedding := embedding;
            description := Some description |})
    (fun _ =>
       ret {| siglip_embedding := repeat zero 768;
              dino_embedding := repeat zero 768;
              description := None |}).

Definition verify_visual_match (w : World) (image1_bytes image2_bytes : bytes) : M Z :=
  try_except
    (img1 <- Image_open w image1_bytes ;;
     img2 <- Image_open w image2_bytes ;;
     response_text <- request (Compare img1 img2)
                        (fun h => generate_comparison w h img1 img2) ;;
     let text := strip response_text in
     match re_search_digits text with
     | Some group =>
         score <- lift (int group) ;;
         ret score
     | None => ret 0
     end)
    (fun _ => ret 0).

(** ** [app/security.py] *)

Definition decrypt_token (w : World) (token : value) : outcome string :=
  if negb (truthy token) then Ok ""
  else
    match token with
    | PStr t =>
        match fernet_decrypt w t with
        | Some plain => Ok plain
        | None => Raise InvalidToken
        end
    | _ => Raise AttributeError          (* no [.encode()] *)
    end.

(** ** [app/main.py] *)

Record Attachment := { att_type : option string; att_url : option string }.

(** One entry of a webhook's [messaging] list; an absent key is [None]. *)
Record MessagingEvent := {
  sender_id : option string;
  recipient_id : option string;
  attachments : option (list Attachment)
}.

(** [client.post(url, json=payload)] then [response.raise_for_status()] *)
Definition post (w : World) (recipient : string) (message : Payload)
    (token : string) : M unit :=
  fun st =>
    let result := graph_post w (trace st) recipient message token in
    (match result with
     | Accepted => Ok tt
     | Refused => Raise HTTPStatusError
     | Unreachable => Raise TransportError
     end,
     record (Send recipient message token result) st).

(** [except httpx.HTTPStatusError]: log and go on; anything else propagates. *)
Definition except_HTTPStatusError (e : exn) : M unit :=
  match e with
  | HTTPStatusError => ret tt
  | _ => raise e
  end.

Definition send_facebook_message (w : World) (recipient_id : string)
    (message_text : value) (page_access_token : string) : M unit :=
  try_except (post w recipient_id (Text message_text) page_access_token)
             except_HTTPStatusError.

Definition send_facebook_image (w : World) (recipient_id : string)
    (image_url : value) (page_access_token : string) : M unit :=
  try_except (post w recipient_id (ImageAttachment image_url) page_access_token)
             except_HTTPStatusError.

Definition get_shop_config (w : World) (page_id : string) : M (option dict) :=
  try_except
    (data <- request (SelectShop page_id) (fun h => shops_select w h page_id) ;;
     match data with
     | row :: _ => ret (Some row)
     | [] => ret None
     end)
    (fun _ => ret None).

(** [client.get(url)] *)
Definition http_get (w : World) (url : string) : M Response :=
  request (HttpGet url) (fun h => client_get w h url).

(** [client.get] on a value taken from a row: httpx rejects a non-string
    before it sends anything. *)
Definition http_get_value (w : World) (url : value) : M Response :=
  match url with
  | PStr u => http_get w u
  | _ => raise TypeError
  end.

(** [supabase.table("users").select("credits").eq("facebook_user_id", owner)]:
    [Some credits] stands for [data[0]["credits"]], [None] for empty [data]. *)
Definition select_credits (w : World) (owner : string) : M (option Z) :=
  fun st =>
    (match users_select_fault w (trace st) owner with
     | Some e => Raise e
     | None => Ok (users st !! owner)
     end,
     record (SelectCredits owner) st).

(** [supabase.table("users").update({"credits": n}).eq("facebook_user_id", owner)]:
    rewrites the owner's row when there is one. *)
Definition update_credits (w : World) (owner : string) (n : Z) : M unit :=
  fun st =>
    match users_update_fault w (trace st) owner n with
    | Some e => (Raise e, record (UpdateCredits owner n) st)
    | None =>
        (Ok tt,
         {| users := match users st !! owner with
                     | Some _ => <[owner := n]> (users st)
                     | None => users st
                     end;
            trace := (trace st ++ [UpdateCredits owner n])%list |})
    end.

Definition caveat : string :=
  "We couldn't find an exact match, but this is the closest we found:".
Definition default_msg_found : string :=
  "Found {name} for {price}. Confidence: {confidence}%".
Definition error_reply : string :=
  "An error occurred while processing your image.".

(** Lines 226-228: the keyword arguments handed to [format]. *)
Definition found_kwargs (name price : value) (confidence : Z) : dict :=
  {[ "name" := name; "price" := price; "confidence" := PInt confidence ]}.

(** Lines 225-229: the [try] body of the template formatting. *)
Definition format_found (w : World) (msg_template : value) (top_match : dict)
    (confidence_pct : Z) : outcome string :=
  match msg_template with
  | PStr tmpl =>
      format (format_lookup_fault w) (format_rich w) tmpl
        (found_kwargs (get_default top_match "name" (PStr "Unknown"))
                      (get_default top_match "price" (PStr "N/A"))
                      confidence_pct)
  | _ => Raise AttributeError            (* no [.format] *)
  end.

(** Lines 217-232: [reply_text], with the [except Exception] fallback. *)
Definition reply_text (w : World) (shop_config top_match : dict)
    (verification_score : Z) : string :=
  let msg_template := get_default shop_config "msg_found" (PStr default_msg_found) in
  let confidence_pct := verification_score in
  match format_found w msg_template top_match confidence_pct with
  | Ok text => text
  | Raise _ => "Found " +:+ str (Py.get top_match "name") +:+ "."
  end.

(** Lines 206-238: what is sent once the verification score is known. *)
Definition reply_to_score (w : World) (user_id : string) (shop_config : dict)
    (token : string) (top_match : dict) (image_url : value)
    (verification_score : Z) : M unit :=
  if verification_score <? 65 then
    send_facebook_message w user_id
      (get_default shop_config "msg_not_found"
         (PStr "Sorry, we could not find a match for that item.")) token
  else
    _ <- (if (65 <=? verification_score) && (verification_score <? 85)
          then send_facebook_message w user_id (PStr caveat) token
          else ret tt) ;;
    _ <- send_facebook_message w user_id
           (PStr (reply_text w shop_config top_match verification_score)) token ;;
    if truthy (get_default shop_config "send_image" (PBool false))
    then send_facebook_image w user_id image_url token
    else ret tt.

(** Lines 190-204: download the candidate and score it; any failure, and any
    status other than 200, leaves the score at 0. *)
Definition verification (w : World) (image_bytes : bytes) (candidate_url : value)
    : M Z :=
  try_except
    (c_resp <- http_get_value w candidate_url ;;
     if status_code c_resp =? 200
     then verify_visual_match w image_bytes (content c_resp)
     else ret 0)
    (fun _ => ret 0).

(** Lines 150-241: the [try] body of [handle_image_search]. *)
Definition search_and_reply (w : World) (user_id image_url page_id : string)
    (shop_config : dict) (token : string) : M unit :=
  resp <- http_get w image_url ;;
  if negb (status_code resp =? 200) then
    send_facebook_message w user_id (PStr "Failed to download image.") token
  else
    let image_bytes := content resp in
    ai_result <- process_image w image_bytes ;;
    page <- lift (int_of_str page_id) ;;
    let params := {| query_siglip := siglip_embedding ai_result;
                     query_dino := dino_embedding ai_result;
                     match_threshold := threshold_70;
                     filter_page_id := page |} in
    matches <- request (RpcMatch params) (fun h => match_products w h params) ;;
    match matches with
    | top_match :: _ =>
        candidate_url <- item (top_match !! "image_url") ;;
        verification_score <- verification w image_bytes candidate_url ;;
        reply_to_score w user_id shop_config token top_match candidate_url
          verification_score
    | [] =>
        send_facebook_message w user_id
          (get_default shop_config "msg_not_found" (PStr "No match found.")) token
    end.

Definition handle_image_search (w : World) (user_id image_url page_id : string)
    (shop_config : dict) (token : string) : M unit :=
  try_except (search_and_reply w user_id image_url page_id shop_config token)
    (fun _ => send_facebook_message w user_id (PStr error_reply) token).

(** Lines 100-118: [None] is the early [return], [Some credits] goes on. *)
Definition check_credits (w : World) (owner_id : value) : M (option Z) :=
  if truthy owner_id then
    try_except
      (data <- select_credits w (str owner_id) ;;
       match data with
       | Some credits => if credits <=? 0 then ret None else ret (Some credits)
       | None => ret None
       end)
      (fun _ => ret None)
  else ret (Some 0).

(** Lines 133-139 *)
Definition deduct_credit (w : World) (owner_id : value) (credits : Z) : M unit :=
  if truthy owner_id then
    try_except (update_credits w (str owner_id) (credits - 1)) (fun _ => ret tt)
  else ret tt.

(** Lines 128-142: the loop over [message["attachments"]]. *)
Fixpoint each_attachment (w : World) (sender recipient : string)
    (shop_config : dict) (owner_id : value) (credits : Z) (token : string)
    (todo : list Attachment) : M unit :=
  match todo with
  | [] => ret tt
  | attachment :: rest =>
      type <- item (att_type attachment) ;;
      if String.eqb type "image" then
        image_url <- item (att_url attachment) ;;
        _ <- deduct_credit w owner_id credits ;;
        handle_image_search w sender image_url recipient shop_config token
      else each_attachment w sender recipient shop_config owner_id credits token rest
  end.

(** Lines 120-126: [None] is the early [return]. *)
Definition page_token (w : World) (shop_config : dict) : M (option string) :=
  try_except
    (encrypted <- item (shop_config !! "encrypted_access_token") ;;
     page_access_token <- lift (decrypt_token w encrypted) ;;
     ret (Some page_access_token))
    (fun _ => ret None).

Definition process_incoming_message (w : World) (event : MessagingEvent) : M unit :=
  match sender_id event, recipient_id event with
  | Some sender, Some recipient =>
      if String.eqb sender "" || String.eqb recipient "" then ret tt
      else
        found <- get_shop_config w recipient ;;
        match found with
        | None => ret tt
        | Some shop_config =>
            let owner_id := Py.get shop_config "owner_id" in
            gate <- check_credits w owner_id ;;
            match gate with
            | None => ret tt
            | Some credits =>
                decrypted <- page_token w shop_config ;;
                match decrypted with
                | None => ret tt
                | Some page_access_token =>
                    match attachments event with
                    | Some todo =>
                        each_attachment w sender recipient shop_config owner_id
                          credits page_access_token todo
                    | None => ret tt
                    end
                end
            end
        end
  | _, _ => ret tt
  end.

(** ** Vocabulary of the statements *)

Fixpoint no_digit (s : text) : bool :=
  match s with
  | [] => true
  | c :: r => negb (isdecimal c) && no_digit r
  end.

(** A run of digits, and nothing else. *)
Definition digits_only (s : text) : bool := forallb isdecimal s.

(** [post] does not go on with a digit. *)
Definition token_ends (post : text) : Prop :=
  match post with
  | [] => True
  | c :: _ => isdecimal c = false
  end.

(** Lines 87-96 of [verify_visual_match] on a response text, with the
    [except] of line 97 for what [int()] raises. *)
Definition score_of (response_text : text) : Z :=
  match re_search_digits (strip response_text) with
  | Some group =>
      match int group with
      | Ok score => score
      | Raise _ => 0
      end
  | None => 0
  end.

(** ** Running the monad *)

Ltac run :=
  unfold try_except, bind, request, lift, item, ret, raise; simpl.

(** What [process_image] returns when extraction fails. *)
Definition degraded : AiResult :=
  {| siglip_embedding := repeat zero 768;
     dino_embedding := repeat zero 768;
     description := None |}.

(** Extraction fails at [image_bytes] after history [h]: the bytes are no
    image, the description call fails, or the embedding call fails. *)
Definition extraction_fails (w : World) (h : list Event) (image_bytes : bytes) : Prop :=
  image_open w image_bytes = false \/
  (exists e, generate_description w h image_bytes = Raise e) \/
  (exists d e, generate_description w h image_bytes = Ok d /\
               embed_content w (h ++ [Describe image_bytes])%list d = Raise e).


(** ** Concrete worlds for the examples *)

Module Scenario.

Definition shop : dict :=
  {[ "owner_id" := PStr "owner-1";
     "encrypted_access_token" := PStr "gAAAAB";
     "send_image" := PBool true ]}.

Definition product : dict :=
  {[ "name" := PStr "Diver 200";
     "price" := PFloat "149.5";
     "image_url" := PStr "https://cdn.example/diver.jpg" ]}.

Definition picture : bytes := [x89; x50; x4e; x47].

(** Every collaborator answers; the arguments choose what some of them say. *)
Definition world (shops : list dict) (decrypted : option string)
    (update_fault : option exn) (matches : outcome (list dict))
    (described compared : outcome string) (posted : Payload -> Posted) : World :=
  {| shops_select := fun _ _ => Ok shops;
     users_select_fault := fun _ _ => None;
     users_update_fault := fun _ _ _ => update_fault;
     match_products := fun _ _ => matches;
     fernet_decrypt := fun _ => decrypted;
     client_get := fun _ _ => Ok {| status_code := 200; content := picture |};
     graph_post := fun _ _ message _ => posted message;
     image_open := fun _ => true;
     generate_description := fun _ _ => described;
     embed_content := fun _ _ => Ok [zero];
     generate_comparison := fun _ _ _ =>
       match compared with
       | Ok answer => Ok (code_points answer)
       | Raise e => Raise e
       end;
     format_lookup_fault := fun _ _ => Some AttributeError;
     format_rich := fun _ _ _ _ => Raise ValueError |}.

(** The comparison service answers [compared]; all else is nominal. *)
Definition answering (compared : string) : World :=
  world [shop] (Some "page-token") None (Ok [product]) (Ok "a steel diver watch")
    (Ok compared) (fun _ => Accepted).

(** The description service is down. *)
Definition describe_down : World :=
  world [shop] (Some "page-token") None (Ok [product]) (Raise ApiError)
    (Ok "90") (fun _ => Accepted).

(** The stored token does not decrypt under the configured key. *)
Definition undecryptable : World :=
  world [shop] None None (Ok [product]) (Ok "a steel diver watch")
    (Ok "90") (fun _ => Accepted).

(** Retrieval finds no candidate above the floor. *)
Definition no_candidates : World :=
  world [shop] (Some "page-token") None (Ok []) (Ok "a steel diver watch")
    (Ok "90") (fun _ => Accepted).

(** The Graph API takes text messages; the image send gets no answer. *)
Definition image_post_times_out : World :=
  world [shop] (Some "page-token") None (Ok [product]) (Ok "a steel diver watch")
    (Ok "90")
    (fun message =>
       match message with
       | Text _ => Accepted
       | ImageAttachment _ => Unreachable
       end).

(** The shop row carries no owner. *)
Definition ownerless_shop : dict := delete "owner_id" shop.

Definition start (credits : Z) : State :=
  {| users := {[ "owner-1" := credits ]}; trace := [] |}.

Definition photo : Attachment :=
  {| att_type := Some "image";
     att_url := Some "https://scontent.example/photo.jpg" |}.

(** A customer sends one photo to page 1001. *)
Definition image_event : MessagingEvent :=
  {| sender_id := Some "customer-7";
     recipient_id := Some "1001";
     attachments := Some [photo] |}.


End Scenario.

(** ** Templates, piece by piece *)

Inductive piece :=
| Plain (s : string)     (* text without braces *)
| LBrace                 (* written as two left braces *)
| RBrace                 (* written as two right braces *)
| Fld (field_name : string) (conv : option string) (spec : option string).

(** The three placeholders of the default template. *)
Definition Name : piece := Fld "name" None None.
Definition Price : piece := Fld "price" None None.
Definition Confidence : piece := Fld "confidence" None None.

Fixpoint brace_free (s : string) : bool :=
  match s with
  | EmptyString => true
  | String c r => negb (Ascii.eqb c "{") && negb (Ascii.eqb c "}") && brace_free r
  end.

(** Reading a field name from inside ([true]) or outside ([false]) square
    brackets: where one is after it, unless one of the characters that end a
    field name, or an opening brace, is met outside brackets. *)
Fixpoint name_scan (in_bracket : bool) (s : string) : option bool :=
  match s with
  | EmptyString => Some in_bracket
  | String c r =>
      if in_bracket then name_scan (negb (Ascii.eqb c "]")) r
      else if Ascii.eqb c "{" || Ascii.eqb c "}" || Ascii.eqb c ":" || Ascii.eqb c "!"
      then None
      else name_scan (Ascii.eqb c "[") r
  end.

(** Reading a format specification at nesting [depth]: the nesting one is at
    after it, unless the brace that closes the field is met on the way. *)
Fixpoint spec_scan (depth : nat) (s : string) : option nat :=
  match s with
  | EmptyString => Some depth
  | String c r =>
      if Ascii.eqb c "{" then spec_scan (S depth) r
      else if Ascii.eqb c "}" then
        match depth with
        | O | 1%nat => None
        | S d => spec_scan d r
        end
      else spec_scan depth r
  end.

(** The conversion of a field is one character: one byte and the bytes
    that go on it. *)
Definition one_character (conv : string) : bool :=
  match conv with
  | EmptyString => false
  | String _ more => forallb continuation (list_ascii_of_string more)
  end.

(** A piece is written so that it reads back as itself: plain text has no
    brace, a field name ends outside brackets, a conversion is one
    character, the braces of a specification match. *)
Definition well_formed (p : piece) : bool :=
  match p with
  | Plain s => brace_free s
  | Fld n conv spec =>
      bool_decide (name_scan false n = Some false) &&
      match conv with
      | Some c => one_character c
      | None => true
      end &&
      match spec with
      | Some sp => bool_decide (spec_scan 1 sp = Some 1%nat)
      | None => true
      end
  | _ => true
  end.

(** How a piece is written in the template. *)
Definition piece_source (p : piece) : string :=
  match p with
  | Plain s => s
  | LBrace => "{{"
  | RBrace => "}}"
  | Fld n conv spec =>
      "{" +:+ n +:+
      match conv with
      | Some c => String "!" c
      | None => EmptyString
      end +:+
      match spec with
      | Some sp => ":" +:+ sp
      | None => EmptyString
      end +:+ "}"
  end.

Fixpoint template_of (ps : list piece) : string :=
  match ps with
  | [] => EmptyString
  | p :: r => piece_source p +:+ template_of r
  end.

(** What a piece stands for in the reply: text for text, a brace for a
    doubled brace, and for a field what the formatter makes of it (fields
    nested in its specification are expanded one level down). *)
Definition piece_text (w : World) (kw : dict) (p : piece) : outcome string :=
  match p with
  | Plain s => Ok s
  | LBrace => Ok "{"
  | RBrace => Ok "}"
  | Fld n conv spec =>
      render_field (format_lookup_fault w) (format_rich w)
        (build_string (format_lookup_fault w) (format_rich w) 1 kw) kw
        n conv (default EmptyString spec)
  end.

(** The pieces' texts one after the other; the first piece that does not
    format decides. *)
Fixpoint fill (w : World) (kw : dict) (ps : list piece) : outcome string :=
  match ps with
  | [] => Ok EmptyString
  | p :: r =>
      match piece_text w kw p with
      | Raise e => Raise e
      | Ok first =>
          match fill w kw r with
          | Raise e => Raise e
          | Ok more => Ok (first +:+ more)
          end
      end
  end.

(** The chunks the formatter reads a piece as. *)
Definition piece_chunks (p : piece) : list chunk :=
  match p with
  | Plain s => map Lit (list_ascii_of_string s)
  | LBrace => [Lit "{"]
  | RBrace => [Lit "}"]
  | Fld n conv spec => [Field n conv (default EmptyString spec)]
  end.

(** The argument names of the fields among some chunks. *)
Fixpoint field_args (cs : list chunk) : list string :=
  match cs with
  | [] => []
  | Lit _ :: r => field_args r
  | Field n _ _ :: r => arg_name n :: field_args r
  end.

(** The template has a replacement field for argument [p]: among the fields
    read before any syntax fault, or nested in the specification of one. *)
Inductive references : string -> string -> Prop :=
| references_field tmpl p :
    In p (field_args (fst (markup MText tmpl))) -> references tmpl p
| references_nested tmpl n conv spec p :
    In (Field n conv spec) (fst (markup MText tmpl)) ->
    references spec p -> references tmpl p.

(** The mode while a field name is read. *)
Definition name_mode (in_bracket : bool) (name : string) : mode :=
  if in_bracket then MBracket name else MName name.

(** The text after a field name: conversion, specification, closing brace. *)
Definition spec_tail (spec : option string) (rest : string) : string :=
  match spec with
  | Some sp => String ":" (sp +:+ String "}" rest)
  | None => String "}" rest
  end.

Definition field_tail (conv : option string) (spec : option string) (rest : string)
    : string :=
  match conv with
  | Some c => String "!" (c +:+ spec_tail spec rest)
  | None => spec_tail spec rest
  end.

(** What is being read when the formatter is in a given mode: the text of
    the piece under way. *)
Definition conv_source (conv : option string) : string :=
  match conv with
  | Some c => String "!" c
  | None => EmptyString
  end.

Definition pending (m : mode) : string :=
  match m with
  | MText => EmptyString
  | MOpen => "{"
  | MClose => "}"
  | MName n | MBracket n => "{" +:+ n
  | MConv n => "{" +:+ n +:+ "!"
  | MConvEnd n c => "{" +:+ n +:+ String "!" c
  | MSpec n conv spec _ => "{" +:+ n +:+ conv_source conv +:+ ":" +:+ spec
  end.

(** The modes the formatter can be in, given what it has read. *)
Definition mode_ok (m : mode) : Prop :=
  match m with
  | MText | MOpen | MClose => True
  | MName n => name_scan false n = Some false
  | MBracket n => name_scan false n = Some true
  | MConv n => name_scan false n = Some false
  | MConvEnd n c => name_scan false n = Some false /\ one_character c = true
  | MSpec n conv spec depth =>
      name_scan false n = Some false /\
      match conv with
      | Some c => one_character c = true
      | None => True
      end /\
      spec_scan 1 spec = Some depth /\ (1 <= depth)%nat
  end.

(** The minimal reply of line 232. *)
Definition minimal_reply (top_match : dict) : string :=
  "Found " +:+ str (Py.get top_match "name") +:+ ".".

Module Templates.

(** The default found-message, piece by piece. *)
Definition default_pieces : list piece :=
  [Plain "Found "; Name; Plain " for "; Price; Plain ". Confidence: "; Confidence;
   Plain "%"].

(** A shop whose template asks for a field the pipeline does not provide. *)
Definition shop_with_title : dict :=
  <[ "msg_found" := PStr "{title}: {name}" ]> Scenario.shop.

End Templates.

(** ** Reading a trace *)

Definition is_send (e : Event) : bool :=
  match e with Send _ _ _ _ => true | _ => false end.

Definition is_extraction (e : Event) : bool :=
  match e with Describe _ | Embed _ => true | _ => false end.

Definition is_compare (e : Event) : bool :=
  match e with Compare _ _ => true | _ => false end.

Definition is_download (e : Event) : bool :=
  match e with HttpGet _ => true | _ => false end.

Definition is_credit_event (e : Event) : bool :=
  match e with SelectCredits _ | UpdateCredits _ _ => true | _ => false end.

Definition is_credit_write (e : Event) : bool :=
  match e with UpdateCredits _ _ => true | _ => false end.

(** Reads of the two configuration tables: nothing paid, nothing visible. *)
Definition is_lookup (e : Event) : bool :=
  match e with SelectShop _ | SelectCredits _ => true | _ => false end.

(** The send requests issued, in order: recipient and message. *)
Fixpoint sent (h : list Event) : list (string * Payload) :=
  match h with
  | [] => []
  | Send recipient message _ _ :: r => (recipient, message) :: sent r
  | _ :: r => sent r
  end.

(** The messages the Graph API accepted, in order. *)
Fixpoint delivered (h : list Event) : list (string * Payload) :=
  match h with
  | [] => []
  | Send recipient message _ Accepted :: r => (recipient, message) :: delivered r
  | _ :: r => delivered r
  end.

(** The verification calls issued, in order: the two images compared. *)
Fixpoint compared (h : list Event) : list (bytes * bytes) :=
  match h with
  | [] => []
  | Compare image1 image2 :: r => (image1, image2) :: compared r
  | _ :: r => compared r
  end.

(** The credit writes issued, in order. *)
Fixpoint credit_writes (h : list Event) : list (string * Z) :=
  match h with
  | [] => []
  | UpdateCredits owner n :: r => (owner, n) :: credit_writes r
  | _ :: r => credit_writes r
  end.

(** A computation that leaves the [users] table alone and only adds events
    satisfying [P] to the trace, whatever its result. *)
Definition appends {A} (P : Event -> bool) (m : M A) : Prop :=
  forall st,
    users (snd (m st)) = users st /\
    exists new, trace (snd (m st)) = (trace st ++ new)%list /\ forallb P new = true.

(** The Graph API is reachable for this recipient: a send may be refused but
    it gets an answer. *)
Definition reachable (w : World) (recipient token : string) : Prop :=
  forall h message, graph_post w h recipient message token <> Unreachable.

(** Events of the search stage: anything but an access to the two tables. *)
Definition is_search_event (e : Event) : bool :=
  negb (is_lookup e) && negb (is_credit_event e).

(** What the attachment loop settles on, without its effects: the URL of the
    first attachment of type image, [KeyError] when an attachment met on the
    way lacks its [type] (or the image lacks its URL), nothing when no
    attachment is an image. *)
Fixpoint first_image (todo : list Attachment) : outcome (option string) :=
  match todo with
  | [] => Ok None
  | attachment :: rest =>
      match att_type attachment with
      | None => Raise KeyError
      | Some type =>
          if String.eqb type "image" then
            match att_url attachment with
            | Some url => Ok (Some url)
            | None => Raise KeyError
            end
          else first_image rest
      end
  end.

(** The row [get_shop_config] hands back after history [h]. *)
Definition shop_of (w : World) (h : list Event) (page_id : string) : option dict :=
  match shops_select w h page_id with
  | Ok (row :: _) => Some row
  | _ => None
  end.

(** The page token of a shop row, when it decrypts. *)
Definition token_of (w : World) (shop_config : dict) : option string :=
  match shop_config !! "encrypted_access_token" with
  | Some encrypted =>
      match decrypt_token w encrypted with
      | Ok plain => Some plain
      | Raise _ => None
      end
  | None => None
  end.

(** Decrypting the stored token raises. *)
Definition decryption_raises (w : World) (shop_config : dict) : Prop :=
  exists encrypted e,
    shop_config !! "encrypted_access_token" = Some encrypted /\
    decrypt_token w encrypted = Raise e.

(** The state right after the credit deduction of lines 133-139 for a truthy
    owner: the write is issued; it takes effect unless the store faults. *)
Definition after_deduction (w : World) (owner : string) (credits : Z) (st : State)
    : State :=
  {| users :=
       match users_update_fault w (trace st) owner (credits - 1), users st !! owner with
       | None, Some _ => <[owner := credits - 1]> (users st)
       | _, _ => users st
       end;
     trace := (trace st ++ [UpdateCredits owner (credits - 1)])%list |}.


(** C5 read to the letter: whatever the first run of digits in the response
    text, the number it denotes is the score. *)
Definition scores_first_token (w : World) (image1 image2 : bytes) (st : State)
    : Prop :=
  forall text pre tok post,
    image_open w image1 = true -> image_open w image2 = true ->
    generate_comparison w (trace st) image1 image2 = Ok text ->
    text = (pre ++ tok ++ post)%list ->
    no_digit pre = true -> digits_only tok = true -> tok <> [] ->
    token_ends post ->
    fst (verify_visual_match w image1 image2 st) = Ok (decimal_value tok).

(** A run from [st] that either ended normally having sent at least one
    message, or raised having sent none. *)
Definition replied_or_raised (st : State) (res : outcome unit * State) : Prop :=
  match res with
  | (Ok _, st') =>
      exists first more, sent (trace st') = (sent (trace st) ++ first :: more)%list
  | (Raise _, st') => sent (trace st') = sent (trace st)
  end.

(** ** More concrete worlds *)

Module Cases.

(** A world that differs from [w] in one collaborator. *)
Definition with_shops_select (f : list Event -> string -> outcome (list dict))
    (w : World) : World :=
  {| shops_select := f;
     users_select_fault := users_select_fault w;
     users_update_fault := users_update_fault w;
     match_products := match_products w;
     fernet_decrypt := fernet_decrypt w;
     client_get := client_get w;
     graph_post := graph_post w;
     image_open := image_open w;
     generate_description := generate_description w;
     embed_content := embed_content w;
     generate_comparison := generate_comparison w;
     format_lookup_fault := format_lookup_fault w;
     format_rich := format_rich w |}.

Definition with_users_select_fault (f : list Event -> string -> option exn)
    (w : World) : World :=
  {| shops_select := shops_select w;
     users_select_fault := f;
     users_update_fault := users_update_fault w;
     match_products := match_products w;
     fernet_decrypt := fernet_decrypt w;
     client_get := client_get w;
     graph_post := graph_post w;
     image_open := image_open w;
     generate_description := generate_description w;
     embed_content := embed_content w;
     generate_comparison := generate_comparison w;
     format_lookup_fault := format_lookup_fault w;
     format_rich := format_rich w |}.

Definition with_users_update_fault (f : list Event -> string -> Z -> option exn)
    (w : World) : World :=
  {| shops_select := shops_select w;
     users_select_fault := users_select_fault w;
     users_update_fault := f;
     match_products := match_products w;
     fernet_decrypt := fernet_decrypt w;
     client_get := client_get w;
     graph_post := graph_post w;
     image_open := image_open w;
     generate_description := generate_description w;
     embed_content := embed_content w;
     generate_comparison := generate_comparison w;
     format_lookup_fault := format_lookup_fault w;
     format_rich := format_rich w |}.

Definition with_match_products (f : list Event -> MatchParams -> outcome (list dict))
    (w : World) : World :=
  {| shops_select := shops_select w;
     users_select_fault := users_select_fault w;
     users_update_fault := users_update_fault w;
     match_products := f;
     fernet_decrypt := fernet_decrypt w;
     client_get := client_get w;
     graph_post := graph_post w;
     image_open := image_open w;
     generate_description := generate_description w;
     embed_content := embed_content w;
     generate_comparison := generate_comparison w;
     format_lookup_fault := format_lookup_fault w;
     format_rich := format_rich w |}.

Definition with_client_get (f : list Event -> string -> outcome Response)
    (w : World) : World :=
  {| shops_select := shops_select w;
     users_select_fault := users_select_fault w;
     users_update_fault := users_update_fault w;
     match_products := match_products w;
     fernet_decrypt := fernet_decrypt w;
     client_get := f;
     graph_post := graph_post w;
     image_open := image_open w;
     generate_description := generate_description w;
     embed_content := embed_content w;
     generate_comparison := generate_comparison w;
     format_lookup_fault := format_lookup_fault w;
     format_rich := format_rich w |}.

Definition with_embed_content (f : list Event -> string -> outcome (list float))
    (w : World) : World :=
  {| shops_select := shops_select w;
     users_select_fault := users_select_fault w;
     users_update_fault := users_update_fault w;
     match_products := match_products w;
     fernet_decrypt := fernet_decrypt w;
     client_get := client_get w;
     graph_post := graph_post w;
     image_open := image_open w;
     generate_description := generate_description w;
     embed_content := f;
     generate_comparison := generate_comparison w;
     format_lookup_fault := format_lookup_fault w;
     format_rich := format_rich w |}.

(** Everything answers; the comparison service says 90. *)
Definition with_generate_comparison
    (f : list Event -> bytes -> bytes -> outcome text) (w : World) : World :=
  {| shops_select := shops_select w;
     users_select_fault := users_select_fault w;
     users_update_fault := users_update_fault w;
     match_products := match_products w;
     fernet_decrypt := fernet_decrypt w;
     client_get := client_get w;
     graph_post := graph_post w;
     image_open := image_open w;
     generate_description := generate_description w;
     embed_content := embed_content w;
     generate_comparison := f;
     format_lookup_fault := format_lookup_fault w;
     format_rich := format_rich w |}.

Definition nominal : World := Scenario.answering "90".

(** The comparison service answers with these code points. *)
Definition answering_text (answer : text) : World :=
  with_generate_comparison (fun _ _ _ => Ok answer) nominal.

Definition sticker : Attachment :=
  {| att_type := Some "file"; att_url := Some "https://scontent.example/a.pdf" |}.

Definition second_photo : Attachment :=
  {| att_type := Some "image"; att_url := Some "https://scontent.example/two.jpg" |}.

(** An attachment that lacks its [type]. *)
Definition untyped : Attachment :=
  {| att_type := None; att_url := Some "https://scontent.example/x" |}.

Definition query_url : string := "https://scontent.example/photo.jpg".
Definition candidate_url : string := "https://cdn.example/diver.jpg".

Definition ok_response : Response := {| status_code := 200; content := Scenario.picture |}.
Definition gone_response : Response := {| status_code := 404; content := [] |}.

(** Every download answers 404. *)
Definition downloads_404 : World :=
  with_client_get (fun _ _ => Ok gone_response) nominal.

(** The customer's photo downloads; the catalog image of the candidate is gone. *)
Definition candidate_gone : World :=
  with_client_get
    (fun _ url => if String.eqb url query_url then Ok ok_response else Ok gone_response)
    nominal.

(** The credit store refuses writes. *)
Definition store_read_only : World :=
  with_users_update_fault (fun _ _ _ => Some ApiError) nominal.

(** The credit store cannot be read. *)
Definition store_down : World :=
  with_users_select_fault (fun _ _ => Some ApiError) nominal.

(** The credit store refuses writes, and retrieval finds no candidate. *)
Definition read_only_no_candidates : World :=
  with_users_update_fault (fun _ _ _ => Some ApiError) Scenario.no_candidates.

(** The shop row carries no owner and its stored token does not decrypt. *)
Definition ownerless_undecryptable : World :=
  Scenario.world [Scenario.ownerless_shop] None None (Ok [Scenario.product])
    (Ok "a steel diver watch") (Ok "90") (fun _ => Accepted).

(** The shops table has no row for the page. *)
Definition no_shop : World := with_shops_select (fun _ _ => Ok []) nominal.

(** Retrieval raises. *)
Definition retrieval_down : World :=
  with_match_products (fun _ _ => Raise ApiError) nominal.

(** The embedding service answers with a short vector. *)
Definition short_embedding : World :=
  with_embed_content (fun _ _ => Ok [zero; zero; zero]) nominal.

End Cases.

(** The retrieval requests issued, in order. *)
Fixpoint retrievals (h : list Event) : list MatchParams :=
  match h with
  | [] => []
  | RpcMatch params :: r => params :: retrievals r
  | _ :: r => retrievals r
  end.

(** An image event: the attachment loop reaches an image attachment, [url]
    being its URL. *)
Definition image_event_with (event : MessagingEvent) (url : string) : Prop :=
  exists todo, attachments event = Some todo /\ first_image todo = Ok (Some url).

(** C6 read to the letter: whenever a retrieval was issued for the event
    and retrieval returns the empty list, the owner's balance ends one below
    the balance it started with. *)
Definition empty_retrieval_is_charged (w : World) (event : MessagingEvent)
    (st : State) : Prop :=
  forall recipient shop credits,
    recipient_id event = Some recipient ->
    shop_of w (trace st) recipient = Some shop ->
    truthy (Py.get shop "owner_id") = true ->
    users st !! str (Py.get shop "owner_id") = Some credits ->
    (forall h params, match_products w h params = Ok []) ->
    retrievals (trace (snd (process_incoming_message w event st)))
      <> retrievals (trace st) ->
    users (snd (process_incoming_message w event st)) !! str (Py.get shop "owner_id")
      = Some (credits - 1).

(** C9 read to the letter: for an image event of a shop without an owner,
    the image is processed; its download is the first step of that. *)
Definition ownerless_image_is_processed (w : World) (event : MessagingEvent)
    (st : State) : Prop :=
  forall sender recipient shop url,
    sender_id event = Some sender -> sender <> "" ->
    recipient_id event = Some recipient -> recipient <> "" ->
    shop_of w (trace st) recipient = Some shop ->
    truthy (Py.get shop "owner_id") = false ->
    image_event_with event url ->
    In (HttpGet url) (trace (snd (process_incoming_message w event st))).

(** The catalog image behind [url] cannot be had: the value is no string,
    or the download raises, or it answers with a status other than 200. *)
Definition candidate_unavailable (w : World) (url : value) : Prop :=
  match url with
  | PStr u =>
      forall h,
        (exists e, client_get w h u = Raise e) \/
        (exists r, client_get w h u = Ok r /\ status_code r <> 200)
  | _ => True
  end.

(** Ways for the search to break before it has anything to say. *)
Inductive breaks (w : World) (image_url page_id : string) : Prop :=
| download_raises e :
    (forall h, client_get w h image_url = Raise e) -> breaks w image_url page_id
| page_id_not_integer resp e :
    (forall h, client_get w h image_url = Ok resp) -> status_code resp = 200 ->
    int_of_str page_id = Raise e -> breaks w image_url page_id
| retrieval_raises resp page e :
    (forall h, client_get w h image_url = Ok resp) -> status_code resp = 200 ->
    int_of_str page_id = Ok page ->
    (forall h params, match_products w h params = Raise e) ->
    breaks w image_url page_id
| candidate_without_image resp page top rest :
    (forall h, client_get w h image_url = Ok resp) -> status_code resp = 200 ->
    int_of_str page_id = Ok page ->
    (forall h params, match_products w h params = Ok (top :: rest)) ->
    top !! "image_url" = None ->
    breaks w image_url page_id.

(** A send addressed to [user] under [token]; any other event passes. *)
Definition addressed (user token : string) (e : Event) : bool :=
  match e with
  | Send recipient _ t _ => String.eqb recipient user && String.eqb t token
  | _ => true
  end.

(** The sends in a trace, with the token each was made under. *)
Fixpoint send_targets (h : list Event) : list (string * string) :=
  match h with
  | [] => []
  | Send recipient _ token _ :: r => (recipient, token) :: send_targets r
  | _ :: r => send_targets r
  end.

(** A tail that starts with a brace which is neither doubled nor the start of
    a field: a lone closing brace, or an opening brace at the very end. *)
Definition stray_brace (tail : string) : Prop :=
  tail = "{" \/
  exists more,
    tail = String "}" more /\
    match more with
    | EmptyString => True
    | String c _ => c <> "}"%char
    end.

(** A shop whose found-message ends in a lone opening brace. *)
Definition shop_with_stray_brace : dict :=
  <[ "msg_found" := PStr "{name} at {price} {" ]> Scenario.shop.

(** A shop whose found-message column holds null. *)
Definition shop_with_null_template : dict :=
  <[ "msg_found" := PNone ]> Scenario.shop.

(** ** [app/security.py]: [encrypt_token]

    [cipher_suite.encrypt] draws a fresh IV and timestamp on each call;
    [fernet_encrypt] is what it computes on this call.  It always yields a
    token. *)
Definition encrypt_token (fernet_encrypt : string -> string) (token : value)
    : outcome string :=
  if negb (truthy token) then Ok ""
  else
    match token with
    | PStr t => Ok (fernet_encrypt t)
    | _ => Raise AttributeError          (* no [.encode()] *)
    end.

Module Cases2.

(** A toy cipher: a version letter in front of the plaintext. *)
Definition toy_encrypt (t : string) : string := String "g" t.
Definition toy_decrypt (c : string) : option string :=
  match c with
  | String "g" t => Some t
  | _ => None
  end.

Definition toy_cipher : World :=
  {| shops_select := shops_select Cases.nominal;
     users_select_fault := users_select_fault Cases.nominal;
     users_update_fault := users_update_fault Cases.nominal;
     match_products := match_products Cases.nominal;
     fernet_decrypt := toy_decrypt;
     client_get := client_get Cases.nominal;
     graph_post := graph_post Cases.nominal;
     image_open := image_open Cases.nominal;
     generate_description := generate_description Cases.nominal;
     embed_content := embed_content Cases.nominal;
     generate_comparison := generate_comparison Cases.nominal;
     format_lookup_fault := format_lookup_fault Cases.nominal;
     format_rich := format_rich Cases.nominal |}.

End Cases2.

(** ** [app/main.py]: the routes *)

(** How a route handler ends: with a value, or by raising [HTTPException]. *)
Inductive handled (A : Type) :=
| Returns (a : A)
| RaisesHTTP (status : Z) (detail : string).
Arguments Returns {A} a.
Arguments RaisesHTTP {A} status detail.

(** What is raised inside a handler: a library exception or [HTTPException],
    which is an [Exception] too. *)
Inductive raised :=
| Error (e : exn)
| HTTPException (status : Z) (detail : string).

Inductive attempt (A : Type) :=
| Done (a : A)
| Raised (r : raised).
Arguments Done {A} a.
Arguments Raised {A} r.

Definition of_outcome {A} (o : outcome A) : attempt A :=
  match o with
  | Ok a => Done a
  | Raise e => Raised (Error e)
  end.

(** *** GET /webhook *)

(** The query parameters the handler reads; an absent one is [None]. *)
Record QueryParams := {
  hub_mode : option string;
  hub_verify_token : option string;
  hub_challenge : option string
}.

Inductive WebhookValue :=
| PlainTextResponse (body : option string) (status : Z)
| ExceptionObject (status : Z) (detail : string).   (* an HTTPException, returned *)

Definition nonempty (o : option string) : bool :=
  match o with
  | Some s => negb (String.eqb s "")
  | None => false
  end.

Definition verify_webhook (FACEBOOK_VERIFY_TOKEN : string) (params : QueryParams)
    : handled WebhookValue :=
  let mode := hub_mode params in
  let token := hub_verify_token params in
  let challenge := hub_challenge params in
  if nonempty mode && nonempty token then
    if bool_decide (mode = Some "subscribe")
       && bool_decide (token = Some FACEBOOK_VERIFY_TOKEN)
    then Returns (PlainTextResponse challenge 200)
    else RaisesHTTP 403 "Verification failed"
  else Returns (ExceptionObject 400 "Missing parameters").

(** *** POST /webhook *)

(** A parsed JSON document.  An object is kept as its members in order, with
    distinct keys, as the Python dict holds them. *)
#[local] Unset Elimination Schemes.
Inductive json :=
| JNull
| JBool (b : bool)
| JNumber (shown : string)
| JString (s : string)
| JArray (items : list json)
| JObject (members : list (string * json)).
#[local] Set Elimination Schemes.

Fixpoint member (k : string) (members : list (string * json)) : option json :=
  match members with
  | [] => None
  | (k', v) :: rest => if String.eqb k' k then Some v else member k rest
  end.

(** [j.get(k, dflt)]: only a dict has [get]. *)
Definition json_get (j : json) (k : string) (dflt : json) : outcome json :=
  match j with
  | JObject members => Ok (default dflt (member k members))
  | _ => Raise AttributeError
  end.

(** [for x in j]: the items of a list, the keys of a dict, the characters of
    a string; nothing else can be iterated. *)
Definition json_iter (j : json) : outcome (list json) :=
  match j with
  | JArray items => Ok items
  | JObject members => Ok (map (fun kv => JString (fst kv)) members)
  | JString s =>
      Ok (map (fun c => JString (String c EmptyString)) (list_ascii_of_string s))
  | _ => Raise TypeError
  end.

(** Lines 278-281: the two loops; [tasks] are the events handed to
    [background_tasks.add_task] so far. *)
Fixpoint each_entry (entries : list json) (tasks : list json)
    : attempt unit * list json :=
  match entries with
  | [] => (Done tt, tasks)
  | entry :: rest =>
      match json_get entry "messaging" (JArray []) with
      | Raise e => (Raised (Error e), tasks)
      | Ok messaging =>
          match json_iter messaging with
          | Raise e => (Raised (Error e), tasks)
          | Ok events => each_entry rest (tasks ++ events)
          end
      end
  end.

(** [j == s] for a string [s] *)
Definition is_string (j : json) (s : string) : bool :=
  match j with
  | JString t => String.eqb t s
  | _ => false
  end.

(** Lines 276-284: the [try] body. *)
Definition receive (request_json : outcome json) : attempt (string * Z) * list json :=
  match request_json with
  | Raise e => (Raised (Error e), [])
  | Ok body =>
      match json_get body "object" JNull with
      | Raise e => (Raised (Error e), [])
      | Ok object =>
          if is_string object "page" then
            match json_get body "entry" (JArray []) with
            | Raise e => (Raised (Error e), [])
            | Ok entry =>
                match json_iter entry with
                | Raise e => (Raised (Error e), [])
                | Ok entries =>
                    match each_entry entries [] with
                    | (Done _, tasks) => (Done ("EVENT_RECEIVED", 200), tasks)
                    | (Raised r, tasks) => (Raised r, tasks)
                    end
                end
            end
          else (Raised (HTTPException 404 "Not a page event"), [])
      end
  end.

(** The response (body and status) and the events scheduled for
    [process_incoming_message]. *)
Definition webhook_handler (request_json : outcome json) : (string * Z) * list json :=
  match receive request_json with
  | (Done response, tasks) => (response, tasks)
  | (Raised _, tasks) => (("EVENT_RECEIVED", 200), tasks)   (* except Exception *)
  end.

(** *** GET /users/{user_id} and GET /shops/{page_id} *)

Section Lookups.

(** [str(e)] of what was raised. *)
Variable describe : raised -> string.

(** The shape both handlers share: the first row, 404 when there is none,
    and every exception turned into a 500. *)
Definition first_row_or_404 (not_found : string) (select : outcome (list dict))
    : handled dict :=
  let attempted :=
    match of_outcome select with
    | Raised r => Raised r
    | Done [] => Raised (HTTPException 404 not_found)
    | Done (row :: _) => Done row
    end in
  match attempted with
  | Done row => Returns row
  | Raised r => RaisesHTTP 500 (describe r)        (* except Exception as e *)
  end.

Definition get_user (select : outcome (list dict)) : handled dict :=
  first_row_or_404 "User not found" select.

Definition get_shop_details (select : outcome (list dict)) : handled dict :=
  first_row_or_404 "Shop not found" select.

End Lookups.

Module Hooks.

Definition text_from (sender : string) : json :=
  JObject [("sender", JObject [("id", JString sender)]);
           ("recipient", JObject [("id", JString "1001")]);
           ("message", JObject [("text", JString "hello")])].

(** A page notification with two entries, of two events and one event. *)
Definition notification : json :=
  JObject [("object", JString "page");
           ("entry",
            JArray [JObject [("id", JString "1001");
                             ("messaging", JArray [text_from "a"; text_from "b"])];
                    JObject [("id", JString "1001");
                             ("messaging", JArray [text_from "c"])]])].

End Hooks.

(** *** Shop and product management *)

Module Admin.

(** The row [add_product] inserts into [products]. *)
Record ProductRow := {
  shop_id : Z;
  name : string;
  price : value;
  image_url : string;
  siglip : list float;
  dino : list float
}.

(** The requests the management routes issue, in the order they issue them. *)
Inductive Call :=
| UpsertShop (row : dict)
| Subscribe (page_id : Z) (access_token : string)
| Unsubscribe (page_id : Z) (access_token : string)
| DeleteShopRow (page_id : Z)
| Upload (path : string) (file : bytes)
| GetPublicUrl (path : string)
| InsertProduct (row : ProductRow).

(** What Supabase, its storage and the Graph API answer to them. *)
Record Backend := {
  upsert : list Call -> dict -> outcome (list dict);
  subscribe : list Call -> Z -> string -> outcome Z;       (* the answer's status *)
  delete_row : list Call -> Z -> outcome unit;
  upload : list Call -> string -> bytes -> outcome unit;
  get_public_url : list Call -> string -> outcome string;
  insert_product : list Call -> ProductRow -> outcome (list dict);
  (* [str(e)] *)
  describe : raised -> string
}.

Record ShopOnboard := {
  page_id : Z;
  access_token : string;
  shop_name : string;                 (* the request's [name] *)
  owner_id : option string
}.

(** Lines 304-311: the row to store. *)
Definition onboard_row (shop : ShopOnboard) (encrypted_token : string) : dict :=
  let data : dict :=
    {[ "page_id" := PInt (page_id shop);
       "encrypted_access_token" := PStr encrypted_token ]} in
  if nonempty (owner_id shop)
  then <[ "owner_id" := PStr (default "" (owner_id shop)) ]> data
  else data.

(** [onboard_shop]: the result (the [data] of the upsert's response on
    success) and the calls made. *)
Definition onboard_shop (b : Backend) (fernet_encrypt : string -> string)
    (shop : ShopOnboard) (calls : list Call) : attempt (list dict) * list Call :=
  match encrypt_token fernet_encrypt (PStr (access_token shop)) with
  | Raise e => (Raised (Error e), calls)
  | Ok encrypted_token =>
      let data := onboard_row shop encrypted_token in
      let calls1 := (calls ++ [UpsertShop data])%list in
      match upsert b calls data with
      | Raise e => (Raised (HTTPException 400 (describe b (Error e))), calls1)
      | Ok response_data =>
          let calls2 := (calls1 ++ [Subscribe (page_id shop) (access_token shop)])%list in
          match subscribe b calls1 (page_id shop) (access_token shop) with
          | Raise e => (Raised (HTTPException 400 (describe b (Error e))), calls2)
          | Ok _ => (Done response_data, calls2)      (* a status other than 200 is logged *)
          end
      end
  end.

(** Lines 485-497 of [delete_shop]: unsubscribing.  Every failure is logged
    and dropped, and the answer is not looked at, so only the request
    itself is recorded. *)
Definition try_unsubscribe (w : World) (b : Backend) (id : Z) (shop_config : dict)
    (calls : list Call) : list Call :=
  match shop_config !! "encrypted_access_token" with
  | None => calls                                             (* KeyError *)
  | Some encrypted =>
      match decrypt_token w encrypted with
      | Raise _ => calls
      | Ok page_access_token => (calls ++ [Unsubscribe id page_access_token])%list
      end
  end.

(** [delete_shop]; a shop row, selected by its page id, is never the empty
    dict. *)
Definition delete_shop (w : World) (b : Backend) (id : Z) (st : State)
    (calls : list Call) : attempt unit * State * list Call :=
  match get_shop_config w (str_of_Z id) st with
  | (Raise e, st') => (Raised (HTTPException 500 (describe b (Error e))), st', calls)
  | (Ok found, st') =>
      let calls1 :=
        match found with
        | Some shop_config => try_unsubscribe w b id shop_config calls
        | None => calls
        end in
      (match delete_row b calls1 id with
       | Raise e => Raised (HTTPException 500 (describe b (Error e)))
       | Ok _ => Done tt
       end,
       st', (calls1 ++ [DeleteShopRow id])%list)
  end.

(** [add_product]; [uuid] is this call's [uuid.uuid4()], as text. *)
Definition add_product (w : World) (b : Backend) (id : Z) (product_name : string)
    (product_price : value) (image_bytes : bytes) (uuid : string)
    (st : State) (calls : list Call) : attempt (list dict) * State * list Call :=
  let filename := str_of_Z id +:+ "/" +:+ uuid +:+ ".jpg" in
  let calls1 := (calls ++ [Upload filename image_bytes])%list in
  match upload b calls filename image_bytes with
  | Raise _ => (Raised (HTTPException 500 "Failed to upload image"), st, calls1)
  | Ok _ =>
      let calls2 := (calls1 ++ [GetPublicUrl filename])%list in
      match get_public_url b calls1 filename with
      | Raise _ => (Raised (HTTPException 500 "Failed to upload image"), st, calls2)
      | Ok url =>
          match process_image w image_bytes st with
          | (Raise e, st') => (Raised (Error e), st', calls2)
          | (Ok ai_result, st') =>
              let data := {| shop_id := id;
                             name := product_name;
                             price := product_price;
                             image_url := url;
                             siglip := siglip_embedding ai_result;
                             dino := dino_embedding ai_result |} in
              (match insert_product b calls2 data with
               | Raise e => Raised (HTTPException 500 (describe b (Error e)))
               | Ok response_data => Done response_data
               end,
               st', (calls2 ++ [InsertProduct data])%list)
          end
      end
  end.

(** The product rows inserted, in order. *)
Fixpoint inserted (calls : list Call) : list ProductRow :=
  match calls with
  | [] => []
  | InsertProduct row :: r => row :: inserted r
  | _ :: r => inserted r
  end.

(** A backend in which everything answers. *)
Definition answering_backend : Backend :=
  {| upsert := fun _ row => Ok [row];
     subscribe := fun _ _ _ => Ok 200;
     delete_row := fun _ _ => Ok tt;
     upload := fun _ _ _ => Ok tt;
     get_public_url := fun _ path => Ok ("https://cdn.example/" +:+ path);
     insert_product := fun _ _ => Ok [];
     describe := fun _ => "error" |}.

(** The Graph API cannot be reached for the subscription. *)
Definition subscription_unreachable : Backend :=
  {| upsert := fun _ row => Ok [row];
     subscribe := fun _ _ _ => Raise TransportError;
     delete_row := fun _ _ => Ok tt;
     upload := fun _ _ _ => Ok tt;
     get_public_url := fun _ path => Ok ("https://cdn.example/" +:+ path);
     insert_product := fun _ _ => Ok [];
     describe := fun _ => "error" |}.

(** The storage bucket refuses uploads. *)
Definition storage_down : Backend :=
  {| upsert := fun _ row => Ok [row];
     subscribe := fun _ _ _ => Ok 200;
     delete_row := fun _ _ => Ok tt;
     upload := fun _ _ _ => Raise ApiError;
     get_public_url := fun _ path => Ok ("https://cdn.example/" +:+ path);
     insert_product := fun _ _ => Ok [];
     describe := fun _ => "error" |}.

(** The subscription is refused. *)
Definition subscription_refused : Backend :=
  {| upsert := fun _ row => Ok [row];
     subscribe := fun _ _ _ => Ok 400;
     delete_row := fun _ _ => Ok tt;
     upload := fun _ _ _ => Ok tt;
     get_public_url := fun _ path => Ok ("https://cdn.example/" +:+ path);
     insert_product := fun _ _ => Ok [];
     describe := fun _ => "error" |}.

Definition new_shop : ShopOnboard :=
  {| page_id := 1001; access_token := "EAAG-page-token";
     shop_name := "Watches"; owner_id := Some "owner-1" |}.

End Admin.

(** A computation that, whatever its result, adds to the trace at most [cmp]
    comparison requests, [rpc] retrieval requests and [wr] credit writes. *)
Definition spends (cmp rpc wr : nat) {A} (m : M A) : Prop :=
  forall st,
    exists new,
      trace (snd (m st)) = (trace st ++ new)%list /\
      (length (compared new) <= cmp)%nat /\
      (length (retrievals new) <= rpc)%nat /\
      (length (credit_writes new) <= wr)%nat.

(** Events that are none of the three. *)
Definition is_free (e : Event) : bool :=
  match e with
  | Compare _ _ | RpcMatch _ | UpdateCredits _ _ => false
  | _ => true
  end.
(** * Properties *)

(** ** Text lemmas *)

Lemma decimal_range c d : decimal c = Some d -> 0 <= d <= 9.
Proof.
  unfold decimal.
  destruct (find _ decimal_zeros) as [zero|] eqn:Hfind; [|discriminate].
  apply find_some in Hfind as [_ [Hlo Hhi]%andb_prop].
  apply Z.leb_le in Hlo, Hhi. intros [= <-]. lia.
Qed.

Lemma space_not_digit c : isspace c = true -> isdecimal c = false.
Proof.
  unfold isspace. intros (x & Hin & Hx)%existsb_exists.
  apply Z.eqb_eq in Hx. subst x. unfold whitespace in Hin. simpl in Hin.
  repeat (destruct Hin as [<-|Hin]; [reflexivity|]). destruct Hin.
Qed.

Lemma int_space_isspace c : int_space c = true -> isspace c = true.
Proof.
  unfold int_space. destruct (c <? 127) eqn:Hc; [|auto].
  intros [[Hlo Hhi]%andb_prop|H32%Z.eqb_eq]%orb_prop.
  - apply Z.leb_le in Hlo, Hhi.
    assert (H : c = 9 \/ c = 10 \/ c = 11 \/ c = 12 \/ c = 13) by lia.
    destruct H as [->|[->|[->|[->| ->]]]]; reflexivity.
  - now subst c.
Qed.

Lemma int_space_not_digit c : int_space c = true -> isdecimal c = false.
Proof. intros Hs. now apply space_not_digit, int_space_isspace. Qed.

Section Stripping.

Variable space : Z -> bool.
Hypothesis space_apart : forall c, space c = true -> isdecimal c = false.

Lemma re_search_lstrip_by s :
  re_search_digits (lstrip_by space s) = re_search_digits s.
Proof.
  induction s as [|c r IH]; simpl; [reflexivity|].
  destruct (space c) eqn:Hc; [|reflexivity].
  now rewrite (space_apart _ Hc).
Qed.

Lemma span_rstrip_by s : span_digits (rstrip_by space s) = span_digits s.
Proof.
  induction s as [|c r IH]; simpl; [reflexivity|].
  destruct (rstrip_by space r) as [|c' r'] eqn:Hr.
  - simpl in IH. destruct (space c) eqn:Hc; simpl.
    + now rewrite (space_apart _ Hc).
    + now rewrite <- IH.
  - rewrite <- IH. reflexivity.
Qed.

Lemma re_search_rstrip_by s :
  re_search_digits (rstrip_by space s) = re_search_digits s.
Proof.
  induction s as [|c r IH]; simpl; [reflexivity|].
  pose proof (span_rstrip_by r) as Hs.
  destruct (rstrip_by space r) as [|c' r'] eqn:Hr.
  - simpl in IH, Hs. destruct (space c) eqn:Hc; simpl.
    + now rewrite (space_apart _ Hc).
    + now rewrite <- IH, <- Hs.
  - rewrite <- IH, <- Hs. reflexivity.
Qed.

(** Text free of the stripped characters is left as it is. *)
Lemma lstrip_by_digits s :
  digits_only s = true -> lstrip_by space s = s.
Proof.
  destruct s as [|c r]; [reflexivity|]. simpl.
  intros [Hc _]%andb_prop. destruct (space c) eqn:Hs; [|reflexivity].
  apply space_apart in Hs. congruence.
Qed.

Lemma rstrip_by_digits s :
  digits_only s = true -> rstrip_by space s = s.
Proof.
  induction s as [|c r IH]; [reflexivity|]. simpl.
  intros [Hc Hr]%andb_prop. rewrite (IH Hr).
  destruct r; [|reflexivity].
  destruct (space c) eqn:Hs; [|reflexivity].
  apply space_apart in Hs. congruence.
Qed.

End Stripping.

(** [strip] does not change what [re.search] finds. *)
Lemma re_search_strip s : re_search_digits (strip s) = re_search_digits s.
Proof.
  unfold strip, rstrip, lstrip.
  now rewrite (re_search_rstrip_by _ space_not_digit),
              (re_search_lstrip_by _ space_not_digit).
Qed.

Lemma span_token tok post :
  digits_only tok = true -> token_ends post -> span_digits (tok ++ post)%list = tok.
Proof.
  intros Ht Hp. induction tok as [|c r IH]; simpl in *.
  - destruct post as [|c r]; simpl in *; [reflexivity|now rewrite Hp].
  - apply andb_prop in Ht as [Hc Hr]. rewrite Hc. f_equal. now apply IH.
Qed.

Lemma re_search_none s : no_digit s = true -> re_search_digits s = None.
Proof.
  induction s as [|c r IH]; simpl; [reflexivity|].
  intros [Hc Hr]%andb_prop. apply negb_true_iff in Hc. rewrite Hc. now apply IH.
Qed.

Lemma re_search_token pre tok post :
  no_digit pre = true -> digits_only tok = true -> tok <> [] ->
  token_ends post ->
  re_search_digits (pre ++ tok ++ post)%list = Some tok.
Proof.
  intros Hpre Ht Hne Hp. induction pre as [|c r IH]; simpl in *.
  - destruct tok as [|c r]; [congruence|]. simpl in *.
    apply andb_prop in Ht as [Hc Hr]. rewrite Hc. f_equal. f_equal.
    now apply span_token.
  - apply andb_prop in Hpre as [Hc Hr]. apply negb_true_iff in Hc.
    rewrite Hc. now apply IH.
Qed.

Lemma span_digits_only s : digits_only (span_digits s) = true.
Proof.
  induction s as [|c r IH]; simpl; [reflexivity|].
  destruct (isdecimal c) eqn:Hc; simpl; [now rewrite Hc|reflexivity].
Qed.

(** What [re.search] finds is a run of digits, and not an empty one. *)
Lemma re_search_digits_only s tok :
  re_search_digits s = Some tok -> digits_only tok = true /\ tok <> [].
Proof.
  induction s as [|c r IH]; simpl; [discriminate|].
  destruct (isdecimal c) eqn:Hc; [|exact IH].
  intros [= <-]. simpl. now rewrite Hc, span_digits_only.
Qed.

Lemma decimal_value_from acc l :
  0 <= acc -> 0 <= fold_left (fun a c => 10 * a + default 0 (decimal c)) l acc.
Proof.
  revert acc. induction l as [|c l IH]; intros acc Hacc; simpl; [exact Hacc|].
  apply IH. destruct (decimal c) as [d|] eqn:Hd; simpl; [|lia].
  apply decimal_range in Hd. lia.
Qed.

Lemma decimal_value_nonneg tok : 0 <= decimal_value tok.
Proof. apply decimal_value_from. lia. Qed.

Lemma int_body_digits after tok :
  digits_only tok = true -> int_body after tok = after || negb (Nat.eqb (length tok) 0).
Proof.
  revert after. induction tok as [|c r IH]; intros after; simpl.
  - intros _. now rewrite orb_false_r.
  - intros [Hc Hr]%andb_prop. rewrite Hc, (IH _ Hr). now rewrite orb_true_r.
Qed.

Lemma filter_digits tok :
  digits_only tok = true -> List.filter (fun c => negb (c =? 95)) tok = tok.
Proof.
  induction tok as [|c r IH]; [reflexivity|]. simpl.
  intros [Hc Hr]%andb_prop. rewrite (IH Hr).
  destruct (c =? 95) eqn:H95; [|reflexivity].
  apply Z.eqb_eq in H95. subst c. discriminate Hc.
Qed.

(** [int()] on what [re.search] found: the number the digits denote, unless
    there are more digits than the interpreter converts. *)
Lemma int_digits tok :
  digits_only tok = true -> tok <> [] ->
  int tok =
    if (length tok <=? int_max_str_digits)%nat then Ok (decimal_value tok)
    else Raise ValueError.
Proof.
  intros Ht Hne. unfold int.
  rewrite (lstrip_by_digits _ int_space_not_digit _ Ht),
          (rstrip_by_digits _ int_space_not_digit _ Ht).
  destruct tok as [|c r]; [congruence|].
  pose proof Ht as Ht'. simpl in Ht'. apply andb_prop in Ht' as [Hc Hr].
  assert (H45 : (c =? 45) = false).
  { destruct (c =? 45) eqn:H; [|reflexivity].
    apply Z.eqb_eq in H. subst c. discriminate Hc. }
  assert (H43 : (c =? 43) = false).
  { destruct (c =? 43) eqn:H; [|reflexivity].
    apply Z.eqb_eq in H. subst c. discriminate Hc. }
  rewrite H45, H43, (int_body_digits _ _ Ht), (filter_digits _ Ht).
  cbn [length Nat.eqb negb orb andb].
  destruct (S (length r) <=? int_max_str_digits)%nat; [|reflexivity].
  f_equal. lia.
Qed.

(** Every text either holds no digit or splits around its first token. *)
Lemma first_token_exists s :
  no_digit s = true \/
  exists pre tok post,
    s = (pre ++ tok ++ post)%list /\ no_digit pre = true /\ digits_only tok = true /\
    tok <> [] /\ token_ends post.
Proof.
  induction s as [|c r IH]; [now left|].
  destruct (isdecimal c) eqn:Hc.
  - right. destruct IH as [Hr|(pre & tok & post & -> & Hpre & Htok & Hne & Hpost)].
    + exists [], [c], r. simpl. rewrite Hc.
      repeat split; try congruence.
      destruct r as [|c' r']; simpl in *; [exact I|].
      apply andb_prop in Hr as [Hc' _]. now apply negb_true_iff.
    + destruct pre as [|p pre'].
      * exists [], (c :: tok), post. simpl. simpl in Htok. rewrite Hc, Htok.
        repeat split; congruence.
      * exists [], [c], ((p :: pre') ++ tok ++ post)%list.
        simpl in *. rewrite Hc. apply andb_prop in Hpre as [Hp _].
        repeat split; try congruence. now apply negb_true_iff.
  - destruct IH as [Hr|(pre & tok & post & -> & Hpre & Htok & Hne & Hpost)].
    + left. simpl. now rewrite Hc, Hr.
    + right. exists (c :: pre), tok, post. simpl. rewrite Hc, Hpre.
      repeat split; assumption.
Qed.

(** The score of a response text, read off its first run of digits. *)
Lemma score_of_token pre tok post :
  no_digit pre = true -> digits_only tok = true -> tok <> [] -> token_ends post ->
  score_of (pre ++ tok ++ post)%list =
    if (length tok <=? int_max_str_digits)%nat then decimal_value tok else 0.
Proof.
  intros Hpre Htok Hne Hpost. unfold score_of.
  rewrite re_search_strip, (re_search_token _ _ _ Hpre Htok Hne Hpost),
          (int_digits _ Htok Hne).
  now destruct (length tok <=? int_max_str_digits)%nat.
Qed.

Lemma score_of_none text : no_digit text = true -> score_of text = 0.
Proof.
  intros Hnone. unfold score_of. now rewrite re_search_strip, (re_search_none _ Hnone).
Qed.

Lemma score_of_nonneg text : 0 <= score_of text.
Proof.
  destruct (first_token_exists text)
    as [Hnone|(pre & tok & post & -> & Hpre & Htok & Hne & Hpost)].
  - rewrite (score_of_none _ Hnone). lia.
  - rewrite (score_of_token _ _ _ Hpre Htok Hne Hpost).
    destruct (length tok <=? int_max_str_digits)%nat; [apply decimal_value_nonneg|lia].
Qed.

Lemma process_image_total w image_bytes st :
  exists r st', process_image w image_bytes st = (Ok r, st') /\ users st' = users st.
Proof.
  unfold process_image, Image_open. run.
  destruct (image_open w image_bytes); run; [|eauto].
  destruct (generate_description w (trace st) image_bytes); run; [|eauto].
  destruct (embed_content w _ a); run; eauto.
Qed.

(** C3. Whenever a step of descriptor extraction fails (undecodable bytes, the
    description call, the embedding call), [process_image] returns normally,
    and what it returns is the degraded descriptor: both embedding fields are
    lists of exactly 768 entries, each of them 0.0, and there is no
    description.  The embedding fields are lists, so they cannot be null. *)
Theorem process_image_degraded_on_failure w image_bytes st :
  extraction_fails w (trace st) image_bytes ->
  exists r st',
    process_image w image_bytes st = (Ok r, st') /\
    r = degraded /\
    length (siglip_embedding r) = 768%nat /\
    length (dino_embedding r) = 768%nat /\
    Forall (fun x => x = zero) (siglip_embedding r) /\
    Forall (fun x => x = zero) (dino_embedding r) /\
    description r = None.
Proof.
  intros Hfail.
  assert (Hlen : length (repeat zero 768) = 768%nat) by apply repeat_length.
  assert (Hall : Forall (fun x => x = zero) (repeat zero 768)).
  { apply Forall_forall. intros x Hx. apply list_elem_of_In in Hx.
    now apply repeat_spec in Hx. }
  assert (Hdone : forall st' : State,
    exists r st'', (Ok degraded, st') = (Ok r, st'') /\ r = degraded /\
      length (siglip_embedding r) = 768%nat /\
      length (dino_embedding r) = 768%nat /\
      Forall (fun x => x = zero) (siglip_embedding r) /\
      Forall (fun x => x = zero) (dino_embedding r) /\
      description r = None).
  { intros st'. exists degraded, st'. unfold degraded at 2 3 4 5 6 7.
    cbn [siglip_embedding dino_embedding description]. auto 10. }
  unfold process_image, Image_open. run.
  destruct Hfail as [Hopen|[[e He]|(d & e & Hd & He)]].
  - rewrite Hopen. run. apply Hdone.
  - destruct (image_open w image_bytes); run; [|apply Hdone].
    rewrite He. apply Hdone.
  - destruct (image_open w image_bytes); run; [|apply Hdone].
    rewrite Hd. run. rewrite He. apply Hdone.
Qed.

Lemma process_image_degraded_witness :
  exists r st',
    process_image Scenario.describe_down Scenario.picture (Scenario.start 5)
      = (Ok r, st') /\
    r = degraded /\
    length (siglip_embedding r) = 768%nat /\
    length (dino_embedding r) = 768%nat /\
    Forall (fun x => x = zero) (siglip_embedding r) /\
    Forall (fun x => x = zero) (dino_embedding r) /\
    description r = None.
Proof.
  apply (process_image_degraded_on_failure Scenario.describe_down).
  right; left. exists ApiError. reflexivity.
Defined.

(** ** The visual verifier *)

(** What [verify_visual_match] does once both images are open. *)
Lemma verify_visual_match_run w image1 image2 st :
  image_open w image1 = true -> image_open w image2 = true ->
  verify_visual_match w image1 image2 st =
    (Ok (match generate_comparison w (trace st) image1 image2 with
         | Ok text => score_of text
         | Raise _ => 0
         end),
     record (Compare image1 image2) st).
Proof.
  intros H1 H2. unfold verify_visual_match, Image_open. run.
  rewrite H1. run. rewrite H2. run.
  destruct (generate_comparison w (trace st) image1 image2) as [text|e]; run;
    [|reflexivity].
  unfold score_of. destruct (re_search_digits (strip text)) as [group|]; run;
    [|reflexivity].
  now destruct (int group).
Qed.

Lemma verify_visual_match_total w image1 image2 st :
  exists score st',
    verify_visual_match w image1 image2 st = (Ok score, st') /\
    0 <= score /\ users st' = users st.
Proof.
  destruct (image_open w image1) eqn:H1;
    [destruct (image_open w image2) eqn:H2|].
  - rewrite (verify_visual_match_run _ _ _ _ H1 H2).
    eexists _, _. split; [reflexivity|]. split; [|reflexivity].
    destruct (generate_comparison w (trace st) image1 image2);
      [apply score_of_nonneg|lia].
  - unfold verify_visual_match, Image_open. run. rewrite H1. run. rewrite H2. run.
    eauto with lia.
  - unfold verify_visual_match, Image_open. run. rewrite H1. run.
    eauto with lia.
Qed.

Lemma verify_visual_match_on_text w image1 image2 st text :
  image_open w image1 = true -> image_open w image2 = true ->
  generate_comparison w (trace st) image1 image2 = Ok text ->
  fst (verify_visual_match w image1 image2 st) = Ok (score_of text).
Proof.
  intros H1 H2 Ht. now rewrite (verify_visual_match_run _ _ _ _ H1 H2), Ht.
Qed.



(** C5 as stated fails on a very long token: on an answer of 4301 nines the
    first token denotes a number above zero, yet the score is 0. *)
Theorem overlong_token_scores_zero :
  ~ scores_first_token (Cases.answering_text (repeat 57 4301))
      Scenario.picture Scenario.picture (Scenario.start 5).
Proof.
  intros H.
  specialize (H (repeat 57 4301) [] (repeat 57 4301) []
                eq_refl eq_refl eq_refl).
  assert (Hscore : fst (verify_visual_match (Cases.answering_text (repeat 57 4301))
                          Scenario.picture Scenario.picture (Scenario.start 5))
                   = Ok 0) by (vm_compute; reflexivity).
  rewrite Hscore in H.
  remember (decimal_value (repeat 57 4301)) as n eqn:Hn.
  assert (Hvalue : 0 < n) by (rewrite Hn; vm_compute; reflexivity).
  clear Hn.
  assert (Heq : Ok 0 = Ok n).
  { apply H; [now rewrite app_nil_r | reflexivity | vm_compute; reflexivity
             | discriminate | exact I]. }
  injection Heq as Heq. lia.
Qed.

(** C4. The score is whatever integer the response text starts its first
    digit run with: on the answer "150" [verify_visual_match] returns 150,
    which lies outside [0, 100]. *)
Theorem verify_visual_match_exceeds_100 :
  exists score,
    fst (verify_visual_match (Scenario.answering "150")
           Scenario.picture Scenario.picture (Scenario.start 5)) = Ok score /\
    ~ (0 <= score <= 100).
Proof. exists 150. split; [reflexivity|lia]. Qed.

(** ** Template formatting *)

Lemma append_cons c s t : String c s +:+ t = String c (s +:+ t).
Proof. reflexivity. Qed.

Lemma append_assoc s t u : (s +:+ t) +:+ u = s +:+ (t +:+ u).
Proof.
  induction s as [|c s IH]; [reflexivity|].
  rewrite !append_cons. now rewrite IH.
Qed.

Lemma append_nil_r s : s +:+ EmptyString = s.
Proof.
  induction s as [|c s IH]; [reflexivity|]. now rewrite append_cons, IH.
Qed.

Lemma append_snoc s c t : snoc s c +:+ t = s +:+ String c t.
Proof. unfold snoc. now rewrite append_assoc. Qed.

Lemma pair_eta {A B} (p : A * B) : (let (a, b) := p in (a, b)) = p.
Proof. now destruct p. Qed.

(** *** Reading a template that is written piece by piece *)

Lemma markup_name n : forall in_bracket after acc tail,
  name_scan in_bracket n = Some after ->
  markup (name_mode in_bracket acc) (n +:+ tail) =
    markup (name_mode after (acc +:+ n)) tail.
Proof.
  induction n as [|c r IH]; intros b after acc tail.
  - intros [= <-]. now rewrite append_nil_r.
  - rewrite append_cons. cbn [name_scan markup]. destruct b; cbn [name_mode step].
    + intros Hscan. rewrite <- (append_snoc acc c r).
      rewrite <- (IH _ _ (snoc acc c) tail Hscan).
      destruct (Ascii.eqb c "]"); cbn [negb name_mode]; apply pair_eta.
    + unfold name_step.
      destruct (Ascii.eqb c "{"); [discriminate|].
      destruct (Ascii.eqb c "}"); [discriminate|].
      destruct (Ascii.eqb c ":"); [discriminate|].
      destruct (Ascii.eqb c "!"); [discriminate|].
      cbn [orb]. intros Hscan. rewrite <- (append_snoc acc c r).
      rewrite <- (IH _ _ (snoc acc c) tail Hscan).
      destruct (Ascii.eqb c "["); cbn [name_mode]; apply pair_eta.
Qed.

Lemma markup_spec n conv s : forall depth after acc tail,
  (1 <= depth)%nat -> spec_scan depth s = Some after ->
  markup (MSpec n conv acc depth) (s +:+ tail) =
    markup (MSpec n conv (acc +:+ s) after) tail.
Proof.
  induction s as [|c r IH]; intros depth after acc tail Hdepth.
  - intros [= <-]. now rewrite append_nil_r.
  - rewrite append_cons. cbn [spec_scan markup step].
    destruct (Ascii.eqb c "{").
    + intros Hscan. rewrite <- (append_snoc acc c r).
      assert (Hup : (1 <= S depth)%nat) by lia.
      rewrite <- (IH _ _ (snoc acc c) tail Hup Hscan). apply pair_eta.
    + destruct (Ascii.eqb c "}").
      * destruct depth as [|[|d]]; [discriminate|discriminate|].
        intros Hscan. rewrite <- (append_snoc acc c r).
        assert (Hdown : (1 <= S d)%nat) by lia.
        rewrite <- (IH _ _ (snoc acc c) tail Hdown Hscan). apply pair_eta.
      * intros Hscan. rewrite <- (append_snoc acc c r).
        rewrite <- (IH _ _ (snoc acc c) tail Hdepth Hscan). apply pair_eta.
Qed.

Lemma spec_scan_depth s : forall depth after,
  (1 <= depth)%nat -> spec_scan depth s = Some after -> (1 <= after)%nat.
Proof.
  induction s as [|c r IH]; intros depth after Hdepth; cbn [spec_scan].
  - intros [= <-]. exact Hdepth.
  - destruct (Ascii.eqb c "{"); [apply IH; lia|].
    destruct (Ascii.eqb c "}"); [|now apply IH].
    destruct depth as [|[|d]]; [discriminate|discriminate|]. apply IH. lia.
Qed.

(** A field name that is read through does not start with a brace. *)
Lemma markup_open n tail :
  name_scan false n = Some false ->
  (tail = EmptyString \/ exists c r, tail = String c r /\ Ascii.eqb c "{" = false) ->
  markup MOpen (n +:+ tail) = markup (MName n) tail.
Proof.
  intros Hscan Htail. destruct n as [|c r].
  - change ("" +:+ tail) with tail.
    destruct Htail as [->|(c & r & -> & Hc)]; [reflexivity|].
    cbn [markup step]. now rewrite Hc.
  - rewrite append_cons. cbn [markup step].
    assert (Hc : Ascii.eqb c "{" = false).
    { cbn [name_scan] in Hscan. now destruct (Ascii.eqb c "{"). }
    rewrite Hc.
    change (name_step "" c) with (step (MName "") c).
    change (match step (MName "") c with
            | Emit out m' => let (cs, e) := markup m' (r +:+ tail) in ((out ++ cs)%list, e)
            | Fail e => ([], Some e)
            end) with (markup (MName "") (String c (r +:+ tail))).
    rewrite <- append_cons.
    exact (markup_name (String c r) false false "" tail Hscan).
Qed.

Lemma markup_plain s rest :
  brace_free s = true ->
  markup MText (s +:+ rest) =
    let (cs, e) := markup MText rest in
    ((map Lit (list_ascii_of_string s) ++ cs)%list, e).
Proof.
  induction s as [|c s IH]; intros Hs.
  - change ("" +:+ rest) with rest. cbn. now destruct (markup MText rest).
  - simpl in Hs. apply andb_prop in Hs as [[Hl Hr]%andb_prop Hs].
    apply negb_true_iff in Hl, Hr.
    rewrite append_cons. cbn [markup step]. rewrite Hl, Hr, (IH Hs).
    now destruct (markup MText rest).
Qed.

Lemma continuation_plain c :
  continuation c = true -> Ascii.eqb c "}" = false /\ Ascii.eqb c ":" = false.
Proof.
  intros Hc. split.
  - destruct (Ascii.eqb_spec c "}") as [->|]; [discriminate Hc|reflexivity].
  - destruct (Ascii.eqb_spec c ":") as [->|]; [discriminate Hc|reflexivity].
Qed.

Lemma markup_conv n more : forall acc tail,
  forallb continuation (list_ascii_of_string more) = true ->
  markup (MConvEnd n acc) (more +:+ tail) = markup (MConvEnd n (acc +:+ more)) tail.
Proof.
  induction more as [|c r IH]; intros acc tail.
  - intros _. now rewrite append_nil_r.
  - cbn [list_ascii_of_string forallb]. intros [Hc Hr]%andb_prop.
    destruct (continuation_plain c Hc) as [Hrb Hco].
    rewrite append_cons. cbn [markup step]. rewrite Hrb, Hco, Hc.
    rewrite <- (append_snoc acc c r), <- (IH (snoc acc c) tail Hr). apply pair_eta.
Qed.

Lemma field_source n conv spec rest :
  piece_source (Fld n conv spec) +:+ rest = String "{" (n +:+ field_tail conv spec rest).
Proof.
  cbn [piece_source]. rewrite !append_assoc.
  change ("{" +:+ ?x) with (String "{" x). f_equal. f_equal.
  destruct conv as [c|], spec as [sp|]; cbn [field_tail spec_tail];
    rewrite ?append_cons, ?append_assoc; reflexivity.
Qed.

Lemma markup_spec_tail n conv spec rest :
  match spec with
  | Some sp => spec_scan 1 sp = Some 1%nat
  | None => True
  end ->
  (spec = None ->
   markup (name_mode false n) (spec_tail spec rest) =
     let (cs, e) := markup MText rest in (Field n None "" :: cs, e)) /\
  (forall sp, spec = Some sp ->
   markup (MSpec n conv "" 1) (sp +:+ String "}" rest) =
     let (cs, e) := markup MText rest in (Field n conv sp :: cs, e)).
Proof.
  intros Hs. split.
  - intros ->. cbn. now destruct (markup MText rest).
  - intros sp ->. rewrite (markup_spec n conv sp 1 1 "" (String "}" rest) (le_n 1) Hs).
    cbn. now destruct (markup MText rest).
Qed.

Lemma markup_field_tail n conv spec rest :
  match conv with
  | Some c => one_character c = true
  | None => True
  end ->
  match spec with
  | Some sp => spec_scan 1 sp = Some 1%nat
  | None => True
  end ->
  markup (MName n) (field_tail conv spec rest) =
    let (cs, e) := markup MText rest in (Field n conv (default "" spec) :: cs, e).
Proof.
  intros Hc Hs.
  destruct (markup_spec_tail n conv spec rest Hs) as [Hnone Hsome].
  destruct conv as [[|c more]|]; [discriminate Hc| |]; cbn [field_tail].
  - cbn [one_character] in Hc. rewrite append_cons.
    cbn [markup step name_step Ascii.eqb Bool.eqb]. cbv iota. cbn [app].
    rewrite (markup_conv n more (String c "") _ Hc).
    change (String c "" +:+ more) with (String c more).
    destruct spec as [sp|]; cbn [spec_tail default].
    + cbn [markup step Ascii.eqb Bool.eqb]. cbv iota. cbn [app].
      rewrite (Hsome sp eq_refl). now destruct (markup MText rest).
    + cbn [markup step Ascii.eqb Bool.eqb]. cbv iota. cbn [app].
      now destruct (markup MText rest).
  - destruct spec as [sp|]; cbn [spec_tail default].
    + cbn [markup step name_step Ascii.eqb Bool.eqb]. cbv iota. cbn [app].
      rewrite (Hsome sp eq_refl). now destruct (markup MText rest).
    + exact (Hnone eq_refl).
Qed.

Lemma markup_piece p rest :
  well_formed p = true ->
  markup MText (piece_source p +:+ rest) =
    let (cs, e) := markup MText rest in ((piece_chunks p ++ cs)%list, e).
Proof.
  destruct p as [s| | |n conv spec]; cbn [well_formed].
  - apply markup_plain.
  - intros _. change (piece_source LBrace +:+ rest) with (String "{" (String "{" rest)).
    cbn. now destruct (markup MText rest).
  - intros _. change (piece_source RBrace +:+ rest) with (String "}" (String "}" rest)).
    cbn. now destruct (markup MText rest).
  - intros [[Hn Hc]%andb_prop Hs]%andb_prop. apply bool_decide_eq_true in Hn.
    assert (Hc' : match conv with
                  | Some c => one_character c = true
                  | None => True
                  end).
    { destruct conv; [exact Hc|exact I]. }
    assert (Hs' : match spec with
                  | Some sp => spec_scan 1 sp = Some 1%nat
                  | None => True
                  end).
    { destruct spec; [now apply bool_decide_eq_true in Hs|exact I]. }
    rewrite field_source. cbn [markup step Ascii.eqb Bool.eqb]. cbv iota. cbn [app].
    rewrite markup_open; [|exact Hn|].
    + rewrite (markup_field_tail n conv spec rest Hc' Hs'). cbn [piece_chunks app].
      now destruct (markup MText rest).
    + right. destruct conv as [c|]; [|destruct spec as [sp|]];
        cbn [field_tail spec_tail]; eexists _, _; (split; reflexivity).
Qed.

Lemma markup_template ps rest :
  forallb well_formed ps = true ->
  markup MText (template_of ps +:+ rest) =
    let (cs, e) := markup MText rest in
    ((concat (map piece_chunks ps) ++ cs)%list, e).
Proof.
  induction ps as [|p ps IH]; cbn [forallb template_of map concat].
  - intros _. change ("" +:+ rest) with rest. now destruct (markup MText rest).
  - intros [Hp Hps]%andb_prop. rewrite append_assoc, (markup_piece _ _ Hp), (IH Hps).
    destruct (markup MText rest). now rewrite <- app_assoc.
Qed.

(** *** What the pieces come out as *)

Section Rendering.

Variable w : World.
Variable kw : dict.

Local Abbreviation lookup_fault := (format_lookup_fault w).
Local Abbreviation rich := (format_rich w).
Local Abbreviation expand := (build_string lookup_fault rich 1 kw).

Lemma render_lits s cs :
  render lookup_fault rich expand kw (map Lit (list_ascii_of_string s) ++ cs)%list =
    match render lookup_fault rich expand kw cs with
    | Ok t => Ok (s +:+ t)
    | Raise e => Raise e
    end.
Proof.
  induction s as [|c s IH]; cbn [list_ascii_of_string map app render].
  - now destruct (render lookup_fault rich expand kw cs).
  - rewrite IH. now destruct (render lookup_fault rich expand kw cs).
Qed.

Lemma render_piece p cs :
  render lookup_fault rich expand kw (piece_chunks p ++ cs)%list =
    match piece_text w kw p with
    | Raise e => Raise e
    | Ok first =>
        match render lookup_fault rich expand kw cs with
        | Ok more => Ok (first +:+ more)
        | Raise e => Raise e
        end
    end.
Proof.
  destruct p as [s| | |n conv spec]; cbn [piece_chunks piece_text].
  - apply render_lits.
  - cbn [app render]. now destruct (render lookup_fault rich expand kw cs).
  - cbn [app render]. now destruct (render lookup_fault rich expand kw cs).
  - reflexivity.
Qed.

Lemma render_pieces ps :
  render lookup_fault rich expand kw (concat (map piece_chunks ps)) = fill w kw ps.
Proof.
  induction ps as [|p ps IH]; [reflexivity|].
  cbn [map concat fill]. now rewrite render_piece, IH.
Qed.

(** A template written piece by piece formats to the pieces' texts. *)
Lemma format_template ps :
  forallb well_formed ps = true ->
  format lookup_fault rich (template_of ps) kw = fill w kw ps.
Proof.
  intros Hps. unfold format. cbn [build_string].
  pose proof (markup_template ps "" Hps) as Hread.
  rewrite append_nil_r in Hread. cbn [markup at_end] in Hread.
  rewrite app_nil_r in Hread. rewrite Hread, render_pieces.
  now destruct (fill w kw ps).
Qed.

End Rendering.

(** *** Every template that reads without fault is written piece by piece *)

Lemma name_scan_snoc s : forall in_bracket c,
  name_scan in_bracket (snoc s c) =
    match name_scan in_bracket s with
    | Some after => name_scan after (String c EmptyString)
    | None => None
    end.
Proof.
  induction s as [|a s IH]; intros b c; [reflexivity|].
  change (snoc (String a s) c) with (String a (snoc s c)).
  cbn [name_scan]. destruct b; [apply IH|].
  destruct (Ascii.eqb a "{" || Ascii.eqb a "}" || Ascii.eqb a ":" || Ascii.eqb a "!");
    [reflexivity|apply IH].
Qed.

Lemma spec_scan_snoc s : forall depth c,
  spec_scan depth (snoc s c) =
    match spec_scan depth s with
    | Some after => spec_scan after (String c EmptyString)
    | None => None
    end.
Proof.
  induction s as [|a s IH]; intros depth c; [reflexivity|].
  change (snoc (String a s) c) with (String a (snoc s c)).
  cbn [spec_scan]. destruct (Ascii.eqb a "{"); [apply IH|].
  destruct (Ascii.eqb a "}"); [|apply IH].
  destruct depth as [|[|d]]; [reflexivity|reflexivity|apply IH].
Qed.

Lemma one_character_snoc conv c :
  one_character conv = true -> continuation c = true ->
  one_character (snoc conv c) = true.
Proof.
  destruct conv as [|c0 more]; [discriminate|]. cbn [one_character].
  change (snoc (String c0 more) c) with (String c0 (snoc more c)).
  cbn [one_character]. intros Hmore Hc.
  induction more as [|a more IH].
  - change (snoc "" c) with (String c ""). cbn [list_ascii_of_string forallb].
    now rewrite Hc.
  - cbn [list_ascii_of_string forallb] in Hmore.
    apply andb_prop in Hmore as [Ha Hmore].
    change (snoc (String a more) c) with (String a (snoc more c)).
    cbn [list_ascii_of_string forallb]. rewrite Ha. now apply IH.
Qed.

Ltac same_text :=
  unfold snoc, conv_source;
  repeat (rewrite ?append_assoc, ?append_nil_r, ?append_cons;
          change (EmptyString +:+ ?x) with x);
  reflexivity.

(** One character on: the piece under way goes on, or a piece is complete. *)
Lemma step_reads m c :
  mode_ok m ->
  match step m c with
  | Fail _ => True
  | Emit _ m' =>
      mode_ok m' /\
      (pending m' = pending m +:+ String c EmptyString \/
       exists p, well_formed p = true /\ m' = MText /\
                 pending m +:+ String c EmptyString = piece_source p)
  end.
Proof.
  assert (Hname : forall n, name_scan false n = Some false ->
            match name_step n c with
            | Fail _ => True
            | Emit _ m' =>
                mode_ok m' /\
                (pending m' = ("{" +:+ n) +:+ String c EmptyString \/
                 exists p, well_formed p = true /\ m' = MText /\
                           ("{" +:+ n) +:+ String c EmptyString = piece_source p)
            end).
  { intros n Hn. unfold name_step.
    destruct (Ascii.eqb c "{") eqn:Hlb; [exact I|].
    destruct (Ascii.eqb c "[") eqn:Hbr.
    { apply Ascii.eqb_eq in Hbr. subst c. split; [|left; cbn [pending]; same_text].
      cbn [mode_ok]. now rewrite name_scan_snoc, Hn. }
    destruct (Ascii.eqb c "}") eqn:Hrb.
    { apply Ascii.eqb_eq in Hrb. subst c. split; [exact I|right].
      exists (Fld n None None). cbn [well_formed piece_source].
      split; [|split; [reflexivity|same_text]].
      rewrite !andb_true_r. now apply bool_decide_eq_true. }
    destruct (Ascii.eqb c ":") eqn:Hco.
    { apply Ascii.eqb_eq in Hco. subst c. split; [|left; cbn [pending]; same_text].
      cbn [mode_ok]. auto. }
    destruct (Ascii.eqb c "!") eqn:Hex.
    { apply Ascii.eqb_eq in Hex. subst c. split; [exact Hn|left; cbn [pending]; same_text]. }
    split; [|left; cbn [pending]; same_text].
    cbn [mode_ok]. rewrite name_scan_snoc, Hn. cbn [name_scan].
    now rewrite Hlb, Hrb, Hco, Hex, Hbr. }
  destruct m as [| | |n|n|n|n conv|n conv spec depth]; cbn [mode_ok step].
  - intros _. destruct (Ascii.eqb c "{") eqn:Hlb.
    { apply Ascii.eqb_eq in Hlb. subst c. split; [exact I|now left]. }
    destruct (Ascii.eqb c "}") eqn:Hrb.
    { apply Ascii.eqb_eq in Hrb. subst c. split; [exact I|now left]. }
    split; [exact I|right]. exists (Plain (String c EmptyString)).
    cbn [well_formed brace_free piece_source pending]. now rewrite Hlb, Hrb.
  - intros _. destruct (Ascii.eqb c "{") eqn:Hlb.
    { apply Ascii.eqb_eq in Hlb. subst c. split; [exact I|right].
      now exists LBrace. }
    specialize (Hname EmptyString eq_refl).
    destruct (name_step "" c); [|exact I]. exact Hname.
  - intros _. destruct (Ascii.eqb c "}") eqn:Hrb; [|exact I].
    apply Ascii.eqb_eq in Hrb. subst c. split; [exact I|right]. now exists RBrace.
  - intros Hn. exact (Hname n Hn).
  - intros Hn. destruct (Ascii.eqb c "]") eqn:Hbr.
    + apply Ascii.eqb_eq in Hbr. subst c. split; [|left; cbn [pending]; same_text].
      cbn [mode_ok]. now rewrite name_scan_snoc, Hn.
    + split; [|left; cbn [pending]; same_text].
      cbn [mode_ok]. rewrite name_scan_snoc, Hn. cbn [name_scan]. now rewrite Hbr.
  - intros Hn. split; [now split|left; cbn [pending]; same_text].
  - intros [Hn Hconv]. destruct (Ascii.eqb c "}") eqn:Hrb.
    { apply Ascii.eqb_eq in Hrb. subst c. split; [exact I|right].
      exists (Fld n (Some conv) None). cbn [well_formed piece_source pending].
      split; [|split; [reflexivity|same_text]].
      rewrite Hconv, !andb_true_r. now apply bool_decide_eq_true. }
    destruct (Ascii.eqb c ":") eqn:Hco.
    { apply Ascii.eqb_eq in Hco. subst c. split; [|left; cbn [pending]; same_text].
      cbn [mode_ok]. auto. }
    destruct (continuation c) eqn:Hcont; [|exact I].
    split; [|left; cbn [pending]; same_text].
    cbn [mode_ok]. split; [exact Hn|]. now apply one_character_snoc.
  - intros (Hn & Hconv & Hs & Hdepth). destruct (Ascii.eqb c "{") eqn:Hlb.
    { apply Ascii.eqb_eq in Hlb. subst c. split; [|left; cbn [pending]; same_text].
      cbn [mode_ok]. rewrite spec_scan_snoc, Hs. cbn. repeat split; [exact Hn|exact Hconv|lia]. }
    destruct (Ascii.eqb c "}") eqn:Hrb.
    { apply Ascii.eqb_eq in Hrb. subst c.
      destruct depth as [|[|d]]; [lia| |].
      - split; [exact I|right]. exists (Fld n conv (Some spec)).
        cbn [well_formed piece_source pending].
        split; [|split; [reflexivity|same_text]].
        apply andb_true_intro. split; [apply andb_true_intro; split|].
        + now apply bool_decide_eq_true.
        + now destruct conv.
        + now apply bool_decide_eq_true.
      - split; [|left; cbn [pending]; same_text].
        cbn [mode_ok]. rewrite spec_scan_snoc, Hs. cbn.
        repeat split; [exact Hn|exact Hconv|lia]. }
    split; [|left; cbn [pending]; same_text].
    cbn [mode_ok]. rewrite spec_scan_snoc, Hs. cbn [spec_scan]. now rewrite Hlb, Hrb.
Qed.

Lemma markup_reads s : forall m cs,
  mode_ok m -> markup m s = (cs, None) ->
  exists ps, forallb well_formed ps = true /\ pending m +:+ s = template_of ps.
Proof.
  induction s as [|c r IH]; intros m cs Hm; cbn [markup].
  - intros [= _ Hend]. destruct m; try discriminate Hend. now exists [].
  - pose proof (step_reads m c Hm) as Hstep.
    destruct (step m c) as [out m'|e]; [|discriminate].
    destruct Hstep as [Hm' Hcase].
    destruct (markup m' r) as [cs' fault] eqn:Hrest. intros [= _ ->].
    destruct (IH m' cs' Hm' Hrest) as (ps & Hps & Hsrc).
    destruct Hcase as [Hgo|(p & Hp & -> & Hp_src)].
    + exists ps. split; [exact Hps|]. rewrite <- Hsrc, Hgo. same_text.
    + exists (p :: ps). cbn [forallb template_of]. rewrite Hp, Hps.
      split; [reflexivity|]. rewrite <- Hp_src, <- Hsrc. cbn [pending]. same_text.
Qed.

(** Every template either is written piece by piece or does not read. *)
Lemma template_read_or_fault tmpl :
  (exists ps, forallb well_formed ps = true /\ tmpl = template_of ps) \/
  snd (markup MText tmpl) <> None.
Proof.
  destruct (markup MText tmpl) as [cs [e|]] eqn:Hread; [now right|left].
  destruct (markup_reads tmpl MText cs I Hread) as (ps & Hps & Hsrc).
  now exists ps.
Qed.

(** *** Fields that cannot be rendered *)

Section Formatting.

Variable lookup_fault : value -> string -> option exn.
Variable rich : value -> string -> conversion -> string -> outcome string.
Variable kw : dict.

(** A field whose argument is not among the keywords does not render. *)
Lemma render_field_unknown expand n conv spec :
  kw !! arg_name n = None ->
  exists e, render_field lookup_fault rich expand kw n conv spec = Raise e.
Proof.
  intros Hp. unfold render_field. rewrite Hp.
  destruct (all_digits (arg_name n)); [|eauto].
  destruct (decimal_value (code_points (arg_name n)) <=? PY_SSIZE_T_MAX); eauto.
Qed.

(** Neither does a field whose specification does not expand. *)
Lemma render_field_unexpanded expand n conv spec :
  has_lbrace spec = true -> (exists e, expand spec = Raise e) ->
  exists e, render_field lookup_fault rich expand kw n conv spec = Raise e.
Proof.
  intros Hbrace [e He]. unfold render_field. rewrite Hbrace, He.
  destruct (all_digits (arg_name n)).
  { destruct (decimal_value (code_points (arg_name n)) <=? PY_SSIZE_T_MAX); eauto. }
  destruct (kw !! arg_name n) as [v|]; [|eauto].
  destruct (if String.eqb (arg_rest n) "" then None else lookup_fault v (arg_rest n));
    [eauto|].
  destruct (do_conversion conv); eauto.
Qed.

Lemma render_raises expand cs n conv spec :
  In (Field n conv spec) cs ->
  (exists e, render_field lookup_fault rich expand kw n conv spec = Raise e) ->
  exists e, render lookup_fault rich expand kw cs = Raise e.
Proof.
  intros Hin [e He]. induction cs as [|[c|n' conv' spec'] cs IH]; cbn [render].
  - destruct Hin.
  - destruct Hin as [Hin|Hin]; [discriminate|].
    destruct (IH Hin) as [e' ->]. eauto.
  - destruct Hin as [[= -> -> ->]|Hin]; [rewrite He; eauto|].
    destruct (render_field lookup_fault rich expand kw n' conv' spec'); [|eauto].
    destruct (IH Hin) as [e' ->]. eauto.
Qed.

Lemma build_string_raises depth tmpl :
  (forall cs, cs = fst (markup MText tmpl) ->
     exists e, render lookup_fault rich
                 (build_string lookup_fault rich (Nat.pred depth) kw) kw cs = Raise e) ->
  exists e, build_string lookup_fault rich depth kw tmpl = Raise e.
Proof.
  intros Hrender. destruct depth as [|depth]; [cbn; eauto|].
  cbn [build_string]. destruct (markup MText tmpl) as [cs fault].
  destruct (Hrender cs eq_refl) as [e He]. cbn [Nat.pred] in He. rewrite He. eauto.
Qed.

End Formatting.

Lemma field_args_In p cs :
  In p (field_args cs) -> exists n conv spec, In (Field n conv spec) cs /\ arg_name n = p.
Proof.
  induction cs as [|[c|n conv spec] cs IH]; cbn [field_args].
  - intros [].
  - intros Hin. destruct (IH Hin) as (n & conv & spec & Hn & Hp).
    exists n, conv, spec. split; [now right|exact Hp].
  - intros [<-|Hin].
    + exists n, conv, spec. split; [now left|reflexivity].
    + destruct (IH Hin) as (n' & conv' & spec' & Hn & Hp).
      exists n', conv', spec'. split; [now right|exact Hp].
Qed.

(** No field is read in a text without an opening brace. *)
Lemma no_lbrace_no_field s : forall m n conv spec,
  has_lbrace s = false -> m = MText \/ m = MClose ->
  ~ In (Field n conv spec) (fst (markup m s)).
Proof.
  induction s as [|c r IH]; intros m n conv spec; cbn [has_lbrace markup].
  - intros _ _ [].
  - intros [Hc Hr]%orb_false_iff [->| ->]; cbn [step]; rewrite ?Hc.
    + destruct (Ascii.eqb c "}").
      * specialize (IH MClose n conv spec Hr (or_intror eq_refl)).
        now destruct (markup MClose r).
      * specialize (IH MText n conv spec Hr (or_introl eq_refl)).
        destruct (markup MText r). cbn [fst app] in *. intros [Hin|Hin]; [discriminate|auto].
    + destruct (Ascii.eqb c "}"); [|intros []].
      specialize (IH MText n conv spec Hr (or_introl eq_refl)).
      destruct (markup MText r). cbn [fst app] in *. intros [Hin|Hin]; [discriminate|auto].
Qed.

Lemma references_has_lbrace tmpl p : references tmpl p -> has_lbrace tmpl = true.
Proof.
  intros Href. destruct (has_lbrace tmpl) eqn:Hbrace; [reflexivity|].
  destruct Href as [tmpl p Hin|tmpl n conv spec p Hin _].
  - apply field_args_In in Hin as (n & conv & spec & Hin & _).
    now apply (no_lbrace_no_field tmpl MText n conv spec Hbrace) in Hin; [|left].
  - now apply (no_lbrace_no_field tmpl MText n conv spec Hbrace) in Hin; [|left].
Qed.

(** A template with a field, nested or not, for an argument that is not
    among the keywords does not format, however deep the formatter may go. *)
Lemma build_string_unknown lookup_fault rich kw tmpl p :
  references tmpl p -> kw !! p = None ->
  forall depth, exists e, build_string lookup_fault rich depth kw tmpl = Raise e.
Proof.
  intros Href Hp. induction Href as [tmpl p Hin|tmpl n conv spec p Hin Href IH];
    intros depth; apply build_string_raises; intros cs ->.
  - apply field_args_In in Hin as (n & conv & spec & Hin & Hn).
    apply (render_raises _ _ _ _ _ n conv spec Hin).
    apply render_field_unknown. now rewrite Hn.
  - apply (render_raises _ _ _ _ _ n conv spec Hin).
    apply render_field_unexpanded; [now apply (references_has_lbrace spec p)|].
    now apply IH.
Qed.

Lemma format_unknown lookup_fault rich kw tmpl p :
  references tmpl p -> kw !! p = None ->
  exists e, format lookup_fault rich tmpl kw = Raise e.
Proof. intros Href Hp. now apply (build_string_unknown _ _ _ _ p). Qed.

(** The text of a field for one of the arguments, bare or with a plain
    specification. *)
Lemma piece_text_bare w kw arg v :
  kw !! arg = Some v -> all_digits arg = false -> arg_name arg = arg ->
  arg_rest arg = EmptyString ->
  piece_text w kw (Fld arg None None) = Ok (str v) /\
  forall spec,
    has_lbrace spec = false -> spec <> EmptyString ->
    piece_text w kw (Fld arg None (Some spec)) = format_rich w v EmptyString AsIs spec.
Proof.
  intros Hv Hdigits Hname Hrest. cbn [piece_text default]. unfold render_field.
  rewrite Hname, Hrest, Hdigits, Hv. cbn.
  split; [reflexivity|]. intros spec Hbrace Hspec. rewrite Hbrace.
  destruct spec; [congruence|reflexivity].
Qed.

(** C7.  Formatting the found-message never raises: [reply_text] is a string
    in every case, because whatever the formatting raises is caught.
    Every template is covered: it is either written as a sequence of pieces
    (text without braces, doubled braces, replacement fields), and then the
    reply is the pieces' texts one after the other, or the minimal reply when
    one of the fields does not format; or it is no such sequence (a brace out
    of place), and the reply is the minimal reply.  The fields {name},
    {price} and {confidence} stand for the candidate's name, its price and
    the verification score; with a plain format specification such a field
    stands for what the value's own formatting makes of the specification.
    A template with a replacement field for any other argument, nested
    fields included, and more generally any template on which the formatting
    raises, gives the minimal reply "Found <name>." built from the
    candidate's name. *)
Theorem reply_text_substitutes_or_falls_back w (shop_config top_match : dict) v :
  let msg_template := get_default shop_config "msg_found" (PStr default_msg_found) in
  let name := get_default top_match "name" (PStr "Unknown") in
  let price := get_default top_match "price" (PStr "N/A") in
  let kw := found_kwargs name price v in
  (forall ps,
     msg_template = PStr (template_of ps) -> forallb well_formed ps = true ->
     reply_text w shop_config top_match v =
       match fill w kw ps with
       | Ok text => text
       | Raise _ => minimal_reply top_match
       end) /\
  (forall tmpl,
     msg_template = PStr tmpl ->
     (exists ps, forallb well_formed ps = true /\ tmpl = template_of ps) \/
     reply_text w shop_config top_match v = minimal_reply top_match) /\
  (piece_text w kw Name = Ok (str name) /\
   piece_text w kw Price = Ok (str price) /\
   piece_text w kw Confidence = Ok (str_of_Z v)) /\
  (forall spec,
     has_lbrace spec = false -> spec <> EmptyString ->
     piece_text w kw (Fld "name" None (Some spec)) =
       format_rich w name EmptyString AsIs spec /\
     piece_text w kw (Fld "price" None (Some spec)) =
       format_rich w price EmptyString AsIs spec /\
     piece_text w kw (Fld "confidence" None (Some spec)) =
       format_rich w (PInt v) EmptyString AsIs spec) /\
  (forall tmpl p,
     msg_template = PStr tmpl -> references tmpl p ->
     p <> "name" -> p <> "price" -> p <> "confidence" ->
     reply_text w shop_config top_match v = minimal_reply top_match) /\
  (forall e,
     format_found w msg_template top_match v = Raise e ->
     reply_text w shop_config top_match v = minimal_reply top_match) /\
  (forall n,
     top_match !! "name" = Some n ->
     minimal_reply top_match = "Found " +:+ str n +:+ ".").
Proof.
  intros msg_template name price kw.
  assert (Hname : kw !! "name" = Some name) by (subst kw; unfold found_kwargs; by simplify_map_eq).
  assert (Hprice : kw !! "price" = Some price) by (subst kw; unfold found_kwargs; by simplify_map_eq).
  assert (Hconf : kw !! "confidence" = Some (PInt v)) by (subst kw; unfold found_kwargs; by simplify_map_eq).
  destruct (piece_text_bare w kw "name" name Hname eq_refl eq_refl eq_refl) as [Hn Hns].
  destruct (piece_text_bare w kw "price" price Hprice eq_refl eq_refl eq_refl) as [Hp Hps].
  destruct (piece_text_bare w kw "confidence" (PInt v) Hconf eq_refl eq_refl eq_refl)
    as [Hc Hcs].
  assert (Hfault : forall tmpl,
            msg_template = PStr tmpl ->
            (exists e, format (format_lookup_fault w) (format_rich w) tmpl kw = Raise e) ->
            reply_text w shop_config top_match v = minimal_reply top_match).
  { intros tmpl Ht [e He]. unfold reply_text. fold msg_template. rewrite Ht.
    unfold format_found. fold name price kw. now rewrite He. }
  split; [|split; [|split; [|split; [|split; [|split]]]]].
  - intros ps Ht Hps'. unfold reply_text. fold msg_template. rewrite Ht.
    unfold format_found. fold name price kw.
    now rewrite (format_template w kw ps Hps').
  - intros tmpl Ht. destruct (template_read_or_fault tmpl) as [Hread|Hbad];
      [now left|right].
    apply (Hfault tmpl Ht). unfold format. cbn [build_string].
    destruct (markup MText tmpl) as [cs [e|]]; [|now destruct Hbad].
    destruct (render _ _ _ kw cs); eauto.
  - auto.
  - intros spec Hbrace Hspec. auto.
  - intros tmpl p Ht Href Hpn Hpp Hpc. apply (Hfault tmpl Ht).
    apply (format_unknown _ _ _ _ p Href).
    subst kw. unfold found_kwargs.
    rewrite !lookup_insert_ne by congruence. apply lookup_singleton_ne. congruence.
  - intros e He. unfold reply_text. fold msg_template. now rewrite He.
  - intros n Hn'. unfold minimal_reply, Py.get. now rewrite Hn'.
Qed.

Lemma reply_text_witness :
  reply_text (Scenario.answering "90") Scenario.shop Scenario.product 90
    = "Found Diver 200 for 149.5. Confidence: 90%" /\
  reply_text (Scenario.answering "90") Templates.shop_with_title Scenario.product 90
    = "Found Diver 200.".
Proof.
  split.
  - apply (proj1 (reply_text_substitutes_or_falls_back
                    (Scenario.answering "90") Scenario.shop Scenario.product 90)
             Templates.default_pieces); reflexivity.
  - apply (proj1 (proj2 (proj2 (proj2 (proj2 (reply_text_substitutes_or_falls_back
                    (Scenario.answering "90") Templates.shop_with_title
                    Scenario.product 90)))))
             "{title}: {name}" "title");
      [reflexivity | apply references_field; left; reflexivity
      | discriminate | discriminate | discriminate].
Defined.

(** ** Footprints: what a computation may add to the trace *)

Section Footprint.

Context {A B : Type}.
Variable P : Event -> bool.

Lemma appends_ret (a : A) : appends P (ret a).
Proof. intros st. split; [reflexivity|]. exists []. now rewrite app_nil_r. Qed.

Lemma appends_raise e : appends P (@raise A e).
Proof. intros st. split; [reflexivity|]. exists []. now rewrite app_nil_r. Qed.

Lemma appends_lift (o : outcome A) : appends P (lift o).
Proof. intros st. split; [reflexivity|]. exists []. now rewrite app_nil_r. Qed.

Lemma appends_item (o : option A) : appends P (item o).
Proof. destruct o; [apply appends_ret|apply appends_raise]. Qed.

Lemma appends_request e (answer : list Event -> outcome A) :
  P e = true -> appends P (request e answer).
Proof.
  intros He st. split; [reflexivity|]. exists [e]. simpl. now rewrite He.
Qed.

Lemma appends_bind (m : M A) (k : A -> M B) :
  appends P m -> (forall a, appends P (k a)) -> appends P (bind m k).
Proof.
  intros Hm Hk st. unfold bind. specialize (Hm st).
  destruct (m st) as [[a|e] st1]; simpl in *; [|exact Hm].
  destruct Hm as (Hu & new & Ht & Hn).
  destruct (Hk a st1) as (Hu' & new' & Ht' & Hn').
  split; [congruence|]. exists (new ++ new')%list.
  rewrite Ht', Ht, app_assoc, forallb_app, Hn, Hn'. auto.
Qed.

Lemma appends_try_except (m : M A) (h : exn -> M A) :
  appends P m -> (forall e, appends P (h e)) -> appends P (try_except m h).
Proof.
  intros Hm Hh st. unfold try_except. specialize (Hm st).
  destruct (m st) as [[a|e] st1]; simpl in *; [exact Hm|].
  destruct Hm as (Hu & new & Ht & Hn).
  destruct (Hh e st1) as (Hu' & new' & Ht' & Hn').
  split; [congruence|]. exists (new ++ new')%list.
  rewrite Ht', Ht, app_assoc, forallb_app, Hn, Hn'. auto.
Qed.

End Footprint.

Lemma appends_weaken {A} (P Q : Event -> bool) (m : M A) :
  (forall e, P e = true -> Q e = true) -> appends P m -> appends Q m.
Proof.
  intros HPQ Hm st. destruct (Hm st) as (Hu & new & Ht & Hn).
  split; [exact Hu|]. exists new. split; [exact Ht|].
  apply forallb_forall. intros e He.
  apply HPQ. revert e He. now apply forallb_forall.
Qed.

Create HintDb footprint.

(** Structural steps; the footprints of whole functions are looked up in the
    hint database first, so that they are not unfolded again. *)
Ltac footprint :=
  repeat first
    [ solve [auto 1 with footprint nocore]
    | apply appends_bind; [|intros ?]
    | apply appends_try_except; [|intros ?]
    | apply appends_ret | apply appends_raise | apply appends_lift
    | apply appends_item
    | apply appends_request; reflexivity
    | match goal with
      | |- appends _ (if ?c then _ else _) => destruct c
      | |- appends _ (match ?x with _ => _ end) => destruct x
      end ].

Lemma appends_post P w recipient message token :
  P (Send recipient message token Accepted) = true ->
  P (Send recipient message token Refused) = true ->
  P (Send recipient message token Unreachable) = true ->
  appends P (post w recipient message token).
Proof.
  intros Ha Hr Hu st. split; [reflexivity|]. unfold post. simpl.
  exists [Send recipient message token (graph_post w (trace st) recipient message token)].
  split; [reflexivity|]. simpl.
  destruct (graph_post w (trace st) recipient message token); now rewrite ?Ha, ?Hr, ?Hu.
Qed.

Lemma appends_send_facebook_message w recipient text token :
  appends is_send (send_facebook_message w recipient text token).
Proof.
  unfold send_facebook_message, except_HTTPStatusError.
  apply appends_try_except; [now apply appends_post|]. intros e. footprint.
Qed.
#[local] Hint Resolve appends_send_facebook_message : footprint.

Lemma appends_send_facebook_image w recipient url token :
  appends is_send (send_facebook_image w recipient url token).
Proof.
  unfold send_facebook_image, except_HTTPStatusError.
  apply appends_try_except; [now apply appends_post|]. intros e. footprint.
Qed.

#[local] Hint Resolve appends_send_facebook_image : footprint.

Lemma appends_process_image w image_bytes :
  appends is_extraction (process_image w image_bytes).
Proof. unfold process_image, Image_open. footprint. Qed.

Lemma appends_verify_visual_match w image1 image2 :
  appends is_compare (verify_visual_match w image1 image2).
Proof. unfold verify_visual_match, Image_open. footprint. Qed.

Lemma appends_reply_to_score w user shop token top url v :
  appends is_send (reply_to_score w user shop token top url v).
Proof.
  unfold reply_to_score. footprint.
Qed.

Lemma appends_verification w image_bytes url :
  appends (fun e => is_download e || is_compare e) (verification w image_bytes url).
Proof.
  unfold verification, http_get_value, http_get.
  apply appends_try_except; [|intros e; footprint].
  apply appends_bind; [destruct url; footprint|]. intros resp.
  destruct (status_code resp =? 200); [|footprint].
  eapply appends_weaken; [|apply appends_verify_visual_match].
  intros e ->. apply orb_true_r.
Qed.

Lemma appends_search_and_reply w user image_url page_id shop token :
  appends is_search_event (search_and_reply w user image_url page_id shop token).
Proof.
  assert (Hsend : forall text,
    appends is_search_event (send_facebook_message w user text token)).
  { intros text. eapply appends_weaken; [|apply appends_send_facebook_message].
    now intros []. }
  unfold search_and_reply, http_get.
  apply appends_bind; [footprint|]. intros resp.
  destruct (negb (status_code resp =? 200)); [apply Hsend|].
  apply appends_bind.
  { eapply appends_weaken; [|apply appends_process_image]. now intros []. }
  intros ai. apply appends_bind; [footprint|]. intros page.
  apply appends_bind; [footprint|]. intros [|top rest]; [apply Hsend|].
  apply appends_bind; [footprint|]. intros url.
  apply appends_bind.
  { eapply appends_weaken; [|apply appends_verification]. now intros []. }
  intros v. eapply appends_weaken; [|apply appends_reply_to_score]. now intros [].
Qed.

Lemma appends_handle_image_search w user image_url page_id shop token :
  appends is_search_event (handle_image_search w user image_url page_id shop token).
Proof.
  unfold handle_image_search.
  apply appends_try_except; [apply appends_search_and_reply|]. intros e.
  eapply appends_weaken; [|apply appends_send_facebook_message]. now intros [].
Qed.

(** ** Reading a trace: algebra *)

Lemma sent_app h1 h2 : sent (h1 ++ h2)%list = (sent h1 ++ sent h2)%list.
Proof.
  induction h1 as [|[] h1 IH]; simpl; rewrite ?IH; reflexivity.
Qed.

Lemma credit_writes_app h1 h2 :
  credit_writes (h1 ++ h2)%list = (credit_writes h1 ++ credit_writes h2)%list.
Proof.
  induction h1 as [|[] h1 IH]; simpl; rewrite ?IH; reflexivity.
Qed.

Lemma sent_none new : forallb (fun e => negb (is_send e)) new = true -> sent new = [].
Proof.
  induction new as [|[] new IH]; simpl; intros H;
    [reflexivity | try (now apply IH); discriminate H ..].
Qed.

Lemma credit_writes_none new :
  forallb (fun e => negb (is_credit_write e)) new = true -> credit_writes new = [].
Proof.
  induction new as [|[] new IH]; simpl; intros H;
    [reflexivity | try (now apply IH); discriminate H ..].
Qed.

Lemma forallb_impl (P Q : Event -> bool) l :
  (forall e, P e = true -> Q e = true) -> forallb P l = true -> forallb Q l = true.
Proof.
  intros HPQ H. apply forallb_forall. intros e He. apply HPQ.
  revert e He. now apply forallb_forall.
Qed.

(** ** The stages of [process_incoming_message] *)

Lemma get_shop_config_run w page_id st :
  get_shop_config w page_id st =
    (Ok (shop_of w (trace st) page_id), record (SelectShop page_id) st).
Proof.
  unfold get_shop_config, shop_of. run.
  now destruct (shops_select w (trace st) page_id) as [[|row rest]|e].
Qed.

Lemma check_credits_run w owner_id st :
  truthy owner_id = true ->
  check_credits w owner_id st =
    (Ok (match users_select_fault w (trace st) (str owner_id) with
         | Some _ => None
         | None =>
             match users st !! str owner_id with
             | Some credits => if credits <=? 0 then None else Some credits
             | None => None
             end
         end),
     record (SelectCredits (str owner_id)) st).
Proof.
  intros Ho. unfold check_credits, select_credits. rewrite Ho. run.
  destruct (users_select_fault w (trace st) (str owner_id)); [reflexivity|].
  destruct (users st !! str owner_id) as [c|]; [|reflexivity].
  now destruct (c <=? 0).
Qed.

Lemma check_credits_skip w owner_id st :
  truthy owner_id = false -> check_credits w owner_id st = (Ok (Some 0), st).
Proof. intros Ho. unfold check_credits. now rewrite Ho. Qed.

Lemma page_token_run w shop_config st :
  page_token w shop_config st = (Ok (token_of w shop_config), st).
Proof.
  unfold page_token, token_of. run.
  destruct (shop_config !! "encrypted_access_token") as [enc|]; run; [|reflexivity].
  now destruct (decrypt_token w enc).
Qed.

Lemma token_of_raises w shop_config :
  decryption_raises w shop_config -> token_of w shop_config = None.
Proof. intros (enc & e & He & Hd). unfold token_of. now rewrite He, Hd. Qed.

Lemma each_attachment_run w sender recipient shop owner credits token todo st :
  each_attachment w sender recipient shop owner credits token todo st =
    match first_image todo with
    | Ok (Some url) =>
        bind (deduct_credit w owner credits)
          (fun _ => handle_image_search w sender url recipient shop token) st
    | Ok None => (Ok tt, st)
    | Raise e => (Raise e, st)
    end.
Proof.
  induction todo as [|a rest IH]; [reflexivity|]. cbn [each_attachment first_image].
  unfold bind at 1, item. destruct (att_type a) as [ty|]; [|reflexivity].
  cbn [ret]. destruct (String.eqb ty "image"); [|exact IH].
  unfold bind at 1. destruct (att_url a); reflexivity.
Qed.

Lemma process_incoming_message_run w event st sender recipient shop :
  sender_id event = Some sender -> sender <> "" ->
  recipient_id event = Some recipient -> recipient <> "" ->
  shop_of w (trace st) recipient = Some shop ->
  process_incoming_message w event st =
    match check_credits w (Py.get shop "owner_id") (record (SelectShop recipient) st) with
    | (Ok (Some credits), st1) =>
        match token_of w shop, attachments event with
        | Some token, Some todo =>
            each_attachment w sender recipient shop (Py.get shop "owner_id")
              credits token todo st1
        | _, _ => (Ok tt, st1)
        end
    | (Ok None, st1) => (Ok tt, st1)
    | (Raise e, st1) => (Raise e, st1)
    end.
Proof.
  intros Hs Hsne Hr Hrne Hshop. unfold process_incoming_message.
  rewrite Hs, Hr.
  apply String.eqb_neq in Hsne, Hrne. rewrite Hsne, Hrne. cbn [orb].
  unfold bind at 1. rewrite get_shop_config_run, Hshop.
  unfold bind at 1.
  destruct (check_credits w (Py.get shop "owner_id") (record (SelectShop recipient) st))
    as [[[credits|]|e] st1]; try reflexivity.
  unfold bind at 1. rewrite page_token_run.
  destruct (token_of w shop); [|reflexivity].
  now destruct (attachments event).
Qed.

(** C10. If decrypting the stored access token of the event's shop raises,
    [process_incoming_message] returns normally, sends nothing, issues no
    credit write and leaves the [users] table as it was: all it has done is
    look the shop and the owner's credits up. *)
Theorem decryption_failure_is_silent w event st :
  (forall recipient shop,
     recipient_id event = Some recipient ->
     shop_of w (trace st) recipient = Some shop ->
     decryption_raises w shop) ->
  exists st',
    process_incoming_message w event st = (Ok tt, st') /\
    users st' = users st /\
    sent (trace st') = sent (trace st) /\
    credit_writes (trace st') = credit_writes (trace st) /\
    exists new, trace st' = (trace st ++ new)%list /\ forallb is_lookup new = true.
Proof.
  intros Hraises.
  assert (Hquiet : forall st1 new,
    users st1 = users st -> trace st1 = (trace st ++ new)%list ->
    forallb is_lookup new = true ->
    exists st',
      (Ok tt, st1) = (Ok tt, st') /\
      users st' = users st /\
      sent (trace st') = sent (trace st) /\
      credit_writes (trace st') = credit_writes (trace st) /\
      exists new', trace st' = (trace st ++ new')%list /\ forallb is_lookup new' = true).
  { intros st1 new Hu Ht Hnew. exists st1. split; [reflexivity|].
    split; [exact Hu|]. rewrite Ht, sent_app, credit_writes_app.
    assert (Hs : sent new = []).
    { apply sent_none. revert Hnew. apply forallb_impl. now intros []. }
    assert (Hc : credit_writes new = []).
    { apply credit_writes_none. revert Hnew. apply forallb_impl. now intros []. }
    rewrite Hs, Hc, !app_nil_r. repeat split. now exists new. }
  unfold process_incoming_message.
  destruct (sender_id event) as [sender|];
    [|destruct (recipient_id event); apply (Hquiet st []); now rewrite ?app_nil_r].
  destruct (recipient_id event) as [recipient|] eqn:Hr;
    [|apply (Hquiet st []); now rewrite ?app_nil_r].
  destruct (String.eqb sender "" || String.eqb recipient "");
    [apply (Hquiet st []); now rewrite ?app_nil_r|].
  unfold bind at 1. rewrite get_shop_config_run.
  destruct (shop_of w (trace st) recipient) as [shop|] eqn:Hshop;
    [|now apply (Hquiet _ [SelectShop recipient])].
  specialize (Hraises recipient shop eq_refl Hshop).
  unfold bind at 1.
  destruct (truthy (Py.get shop "owner_id")) eqn:Ho.
  - rewrite check_credits_run by exact Ho. cbn [record trace users].
    set (gate := match users_select_fault w _ _ with Some _ => None | None => _ end).
    destruct gate as [credits|].
    + unfold bind at 1. rewrite page_token_run, token_of_raises by exact Hraises.
      apply (Hquiet _ [SelectShop recipient; SelectCredits (str (Py.get shop "owner_id"))]);
        [reflexivity | simpl; now rewrite <- app_assoc | reflexivity].
    + apply (Hquiet _ [SelectShop recipient; SelectCredits (str (Py.get shop "owner_id"))]);
        [reflexivity | simpl; now rewrite <- app_assoc | reflexivity].
  - rewrite check_credits_skip by exact Ho.
    unfold bind at 1. rewrite page_token_run, token_of_raises by exact Hraises.
    now apply (Hquiet _ [SelectShop recipient]).
Qed.

Lemma decryption_failure_is_silent_witness :
  exists st',
    process_incoming_message Scenario.undecryptable Scenario.image_event
      (Scenario.start 5) = (Ok tt, st') /\
    users st' = users (Scenario.start 5) /\
    sent (trace st') = sent (trace (Scenario.start 5)) /\
    credit_writes (trace st') = credit_writes (trace (Scenario.start 5)) /\
    exists new, trace st' = (trace (Scenario.start 5) ++ new)%list /\
                forallb is_lookup new = true.
Proof.
  apply (decryption_failure_is_silent Scenario.undecryptable Scenario.image_event).
  intros recipient shop _ [= <-]. exists (PStr "gAAAAB"), InvalidToken.
  split; reflexivity.
Defined.

Lemma deduct_credit_run w owner_id credits st :
  truthy owner_id = true ->
  deduct_credit w owner_id credits st =
    (Ok tt, after_deduction w (str owner_id) credits st).
Proof.
  intros Ho. unfold deduct_credit, update_credits, after_deduction. rewrite Ho. run.
  destruct (users_update_fault w (trace st) (str owner_id) (credits - 1));
    [reflexivity|].
  now destruct (users st !! str owner_id).
Qed.

Lemma deduct_credit_skip w owner_id credits st :
  truthy owner_id = false -> deduct_credit w owner_id credits st = (Ok tt, st).
Proof. intros Ho. unfold deduct_credit. now rewrite Ho. Qed.

(** The image handler leaves the credits alone. *)
Lemma handle_image_search_keeps_credits w user url page shop token st :
  let st' := snd (handle_image_search w user url page shop token st) in
  users st' = users st /\
  credit_writes (trace st') = credit_writes (trace st) /\
  exists new, trace st' = (trace st ++ new)%list /\
              forallb is_search_event new = true.
Proof.
  destruct (appends_handle_image_search w user url page shop token st)
    as (Hu & new & Ht & Hnew).
  cbn zeta. split; [exact Hu|]. split; [|now exists new].
  assert (Hc : credit_writes new = []).
  { apply credit_writes_none. revert Hnew. apply forallb_impl. now intros []. }
  now rewrite Ht, credit_writes_app, Hc, app_nil_r.
Qed.

Lemma first_image_raises_KeyError todo e : first_image todo = Raise e -> e = KeyError.
Proof.
  induction todo as [|a rest IH]; simpl; [discriminate|].
  destruct (att_type a) as [ty|]; [|now intros [= <-]].
  destruct (String.eqb ty "image"); [|exact IH].
  destruct (att_url a); [discriminate|now intros [= <-]].
Qed.

(** ** The credit gate *)



(** C9 as stated fails when the stored token of an ownerless shop does not
    decrypt: the customer's photo is never downloaded, the run has ended
    after the shop lookup. *)
Theorem ownerless_undecryptable_is_not_processed :
  ~ ownerless_image_is_processed Cases.ownerless_undecryptable Scenario.image_event
      (Scenario.start 5).
Proof.
  intros H.
  specialize (H "customer-7" "1001" Scenario.ownerless_shop
                "https://scontent.example/photo.jpg"
                eq_refl ltac:(discriminate) eq_refl ltac:(discriminate)
                eq_refl eq_refl).
  assert (Himage : image_event_with Scenario.image_event
                     "https://scontent.example/photo.jpg").
  { now exists [Scenario.photo]. }
  specialize (H Himage). vm_compute in H.
  destruct H as [H|[]]. discriminate H.
Qed.




(** ** Replies *)

Lemma send_facebook_message_run w user text token st :
  graph_post w (trace st) user (Text text) token <> Unreachable ->
  send_facebook_message w user text token st =
    (Ok tt, record (Send user (Text text) token
                      (graph_post w (trace st) user (Text text) token)) st).
Proof.
  intros Hup. unfold send_facebook_message, post, try_except.
  now destruct (graph_post w (trace st) user (Text text) token).
Qed.

Lemma send_facebook_image_run w user url token st :
  graph_post w (trace st) user (ImageAttachment url) token <> Unreachable ->
  send_facebook_image w user url token st =
    (Ok tt, record (Send user (ImageAttachment url) token
                      (graph_post w (trace st) user (ImageAttachment url) token)) st).
Proof.
  intros Hup. unfold send_facebook_image, post, try_except.
  now destruct (graph_post w (trace st) user (ImageAttachment url) token).
Qed.

Lemma sent_record_send user message token result st :
  sent (trace (record (Send user message token result) st)) =
    (sent (trace st) ++ [(user, message)])%list.
Proof. cbn [record trace]. now rewrite sent_app. Qed.

(** C1. Once the verification score [v] of the top candidate is known, and
    as long as the Graph API answers, the replies are, in this order:
    - [v < 65]: the shop's [msg_not_found] (or its default), and nothing else,
      so no image;
    - [65 <= v < 85]: the caveat sentence, then the found-message formatted
      with [v] as the confidence;
    - [85 <= v]: the found-message formatted with [v], without the caveat;
    and in the last two cases the candidate's image follows exactly when the
    shop's [send_image] is truthy. *)
Theorem reply_follows_score_tier w user (shop : dict) token (top : dict) url v st :
  reachable w user token ->
  let not_found :=
    Text (get_default shop "msg_not_found"
            (PStr "Sorry, we could not find a match for that item.")) in
  let found := Text (PStr (reply_text w shop top v)) in
  let image :=
    if truthy (get_default shop "send_image" (PBool false))
    then [(user, ImageAttachment url)] else [] in
  exists st' replies,
    reply_to_score w user shop token top url v st = (Ok tt, st') /\
    users st' = users st /\
    sent (trace st') = (sent (trace st) ++ replies)%list /\
    (v < 65 -> replies = [(user, not_found)]) /\
    (65 <= v < 85 -> replies = ((user, Text (PStr caveat)) :: (user, found) :: image)) /\
    (85 <= v -> replies = ((user, found) :: image)).
Proof.
  intros Hup not_found found image. subst not_found found image.
  unfold reply_to_score.
  destruct (v <? 65) eqn:Hlow.
  - apply Z.ltb_lt in Hlow. rewrite send_facebook_message_run by apply Hup.
    eexists _, _. split; [reflexivity|]. split; [reflexivity|].
    split; [apply sent_record_send|]. repeat split; intros; (reflexivity || lia).
  - apply Z.ltb_ge in Hlow.
    assert (H65 : (65 <=? v) = true) by now apply Z.leb_le.
    rewrite H65. cbn [andb]. unfold bind.
    destruct (v <? 85) eqn:Hmid.
    + apply Z.ltb_lt in Hmid.
      rewrite send_facebook_message_run by apply Hup.
      rewrite send_facebook_message_run by apply Hup.
      destruct (truthy (get_default shop "send_image" (PBool false))).
      * rewrite send_facebook_image_run by apply Hup.
        eexists _, _. split; [reflexivity|]. split; [reflexivity|].
        split; [rewrite !sent_record_send, <- !app_assoc; reflexivity|].
        repeat split; intros; (reflexivity || lia).
      * eexists _, _. split; [reflexivity|]. split; [reflexivity|].
        split; [rewrite !sent_record_send, <- !app_assoc; reflexivity|].
        repeat split; intros; (reflexivity || lia).
    + apply Z.ltb_ge in Hmid. cbn [ret].
      rewrite send_facebook_message_run by apply Hup.
      destruct (truthy (get_default shop "send_image" (PBool false))).
      * rewrite send_facebook_image_run by apply Hup.
        eexists _, _. split; [reflexivity|]. split; [reflexivity|].
        split; [rewrite !sent_record_send, <- !app_assoc; reflexivity|].
        repeat split; intros; (reflexivity || lia).
      * eexists _, _. split; [reflexivity|]. split; [reflexivity|].
        split; [rewrite !sent_record_send; reflexivity|].
        repeat split; intros; (reflexivity || lia).
Qed.

Lemma reply_follows_score_tier_witness :
  (exists st',
     reply_to_score (Scenario.answering "65") "customer-7" Scenario.shop "page-token"
       Scenario.product (PStr "https://cdn.example/diver.jpg") 65 (Scenario.start 5)
       = (Ok tt, st') /\
     sent (trace st') =
       [("customer-7", Text (PStr caveat));
        ("customer-7", Text (PStr "Found Diver 200 for 149.5. Confidence: 65%"));
        ("customer-7", ImageAttachment (PStr "https://cdn.example/diver.jpg"))]) /\
  (exists st',
     reply_to_score (Scenario.answering "85") "customer-7" Scenario.shop "page-token"
       Scenario.product (PStr "https://cdn.example/diver.jpg") 85 (Scenario.start 5)
       = (Ok tt, st') /\
     sent (trace st') =
       [("customer-7", Text (PStr "Found Diver 200 for 149.5. Confidence: 85%"));
        ("customer-7", ImageAttachment (PStr "https://cdn.example/diver.jpg"))]).
Proof.
  split.
  - destruct (reply_follows_score_tier (Scenario.answering "65") "customer-7"
                Scenario.shop "page-token" Scenario.product
                (PStr "https://cdn.example/diver.jpg") 65 (Scenario.start 5))
      as (st' & replies & Hrun & _ & Hsent & _ & Hsoft & _).
    + intros h message. discriminate.
    + exists st'. split; [exact Hrun|]. rewrite Hsent, Hsoft by lia. reflexivity.
  - destruct (reply_follows_score_tier (Scenario.answering "85") "customer-7"
                Scenario.shop "page-token" Scenario.product
                (PStr "https://cdn.example/diver.jpg") 85 (Scenario.start 5))
      as (st' & replies & Hrun & _ & Hsent & _ & _ & Hsure).
    + intros h message. discriminate.
    + exists st'. split; [exact Hrun|]. rewrite Hsent, Hsure by lia. reflexivity.
Defined.

(** ** The search stage *)

Lemma compared_app h1 h2 : compared (h1 ++ h2)%list = (compared h1 ++ compared h2)%list.
Proof.
  induction h1 as [|[] h1 IH]; simpl; rewrite ?IH; reflexivity.
Qed.

Lemma compared_none new :
  forallb (fun e => negb (is_compare e)) new = true -> compared new = [].
Proof.
  induction new as [|[] new IH]; simpl; intros H;
    [reflexivity | try (now apply IH); discriminate H ..].
Qed.

Lemma state_eta st : {| users := users st; trace := trace st |} = st.
Proof. now destruct st. Qed.

Lemma process_image_run w image_bytes st :
  exists r new,
    process_image w image_bytes st =
      (Ok r, {| users := users st; trace := (trace st ++ new)%list |}) /\
    forallb is_extraction new = true.
Proof.
  destruct (process_image_total w image_bytes st) as (r & st' & Hrun & _).
  destruct (appends_process_image w image_bytes st) as (Hu & new & Ht & Hnew).
  rewrite Hrun in Hu, Ht. cbn [snd] in Hu, Ht.
  exists r, new. split; [|exact Hnew]. now rewrite Hrun, <- Hu, <- Ht, state_eta.
Qed.




(** C6 as stated fails when the credit store refuses the write: the owner
    has 5 credits, retrieval is issued and finds nothing, the not-found
    reply goes out, and the 5 credits are still there. *)
Theorem refused_write_leaves_the_credit :
  ~ empty_retrieval_is_charged Cases.read_only_no_candidates Scenario.image_event
      (Scenario.start 5).
Proof.
  intros H.
  specialize (H "1001" Scenario.shop 5 eq_refl eq_refl eq_refl eq_refl
                ltac:(reflexivity)).
  assert (Hissued :
    retrievals (trace (snd (process_incoming_message Cases.read_only_no_candidates
                              Scenario.image_event (Scenario.start 5))))
      <> retrievals (trace (Scenario.start 5))).
  { vm_compute. discriminate. }
  specialize (H Hissued). vm_compute in H. discriminate H.
Qed.

(** ** The orchestrator boundary *)

Lemma appends_state {A} P (m : M A) st :
  appends P m ->
  exists new,
    snd (m st) = {| users := users st; trace := (trace st ++ new)%list |} /\
    forallb P new = true.
Proof.
  intros Hm. destruct (Hm st) as (Hu & new & Ht & Hnew).
  exists new. split; [|exact Hnew]. now rewrite <- Hu, <- Ht, state_eta.
Qed.

Lemma verification_run w image_bytes url st :
  exists v new,
    verification w image_bytes url st =
      (Ok v, {| users := users st; trace := (trace st ++ new)%list |}) /\
    forallb (fun e => is_download e || is_compare e) new = true.
Proof.
  destruct (appends_state _ _ st (appends_verification w image_bytes url))
    as (new & Hst & Hnew).
  assert (Hok : exists v, fst (verification w image_bytes url st) = Ok v).
  { unfold verification, try_except.
    destruct (bind (http_get_value w url) _ st) as [[v|e] st1]; simpl; eauto. }
  destruct Hok as [v Hv]. exists v, new. split; [|exact Hnew].
  destruct (verification w image_bytes url st) as [r st']. simpl in *. congruence.
Qed.

(** When the Graph API answers, the score reply goes through and is at least
    one message. *)
Lemma reply_to_score_replies w user shop token top url v st :
  reachable w user token ->
  exists st' first more,
    reply_to_score w user shop token top url v st = (Ok tt, st') /\
    sent (trace st') = (sent (trace st) ++ first :: more)%list.
Proof.
  intros Hup.
  destruct (appends_state _ _ st (appends_reply_to_score w user shop token top url v))
    as (new & Hst & Hnew).
  unfold reply_to_score in *.
  destruct (v <? 65).
  - rewrite send_facebook_message_run by apply Hup.
    eexists _, _, []. split; [reflexivity|]. apply sent_record_send.
  - unfold bind.
    destruct ((65 <=? v) && (v <? 85)); cbn [ret].
    + rewrite send_facebook_message_run by apply Hup.
      rewrite send_facebook_message_run by apply Hup.
      destruct (truthy (get_default shop "send_image" (PBool false))).
      * rewrite send_facebook_image_run by apply Hup.
        eexists _, _, _. split; [reflexivity|].
        rewrite !sent_record_send, <- !app_assoc. reflexivity.
      * eexists _, _, _. split; [reflexivity|].
        rewrite !sent_record_send, <- !app_assoc. reflexivity.
    + rewrite send_facebook_message_run by apply Hup.
      destruct (truthy (get_default shop "send_image" (PBool false))).
      * rewrite send_facebook_image_run by apply Hup.
        eexists _, _, _. split; [reflexivity|].
        rewrite !sent_record_send, <- !app_assoc. reflexivity.
      * eexists _, _, []. split; [reflexivity|]. apply sent_record_send.
Qed.

(** When the Graph API answers, the search either ends normally having sent
    at least one message, or raises having sent none. *)
Lemma search_and_reply_replies w user image_url page_id shop token st :
  reachable w user token ->
  replied_or_raised st (search_and_reply w user image_url page_id shop token st).
Proof.
  intros Hup. unfold search_and_reply, http_get. unfold bind at 1, request.
  cbv beta.
  destruct (client_get w (trace st) image_url) as [resp|e];
    [|cbn [replied_or_raised record trace]; now rewrite sent_app, app_nil_r].
  destruct (negb (status_code resp =? 200)).
  { rewrite send_facebook_message_run by apply Hup.
    cbn [replied_or_raised]. eexists _, [].
    rewrite sent_record_send. cbn [record trace]. now rewrite sent_app, app_nil_r. }
  unfold bind at 1.
  destruct (process_image_run w (content resp) (record (HttpGet image_url) st))
    as (r & new & -> & Hnew).
  assert (Hs : sent new = []).
  { apply sent_none. revert Hnew. apply forallb_impl. now intros []. }
  unfold bind at 1, lift.
  destruct (int_of_str page_id) as [page|e];
    [|cbn [replied_or_raised record trace]; now rewrite !sent_app, Hs, !app_nil_r].
  unfold bind at 1, request. cbv beta. cbn [trace].
  set (params := {| query_siglip := _ |}).
  destruct (match_products w _ params) as [[|top rest]|e].
  - rewrite send_facebook_message_run by apply Hup.
    cbn [replied_or_raised]. eexists _, [].
    rewrite sent_record_send. cbn [record trace].
    now rewrite !sent_app, Hs, !app_nil_r.
  - unfold bind at 1, item.
    destruct (top !! "image_url") as [url|]; cbn [ret raise];
      [|cbn [replied_or_raised record trace]; now rewrite !sent_app, Hs, !app_nil_r].
    unfold bind at 1.
    match goal with
    | |- context [verification w ?b url ?s] =>
        destruct (verification_run w b url s) as (v & new' & -> & Hnew')
    end.
    assert (Hs' : sent new' = []).
    { apply sent_none. revert Hnew'. apply forallb_impl. now intros []. }
    match goal with
    | |- context [reply_to_score w user shop token top url v ?s] =>
        destruct (reply_to_score_replies w user shop token top url v s Hup)
          as (st' & first & more & -> & Hsent)
    end.
    cbn [replied_or_raised]. exists first, more.
    rewrite Hsent. cbn [record trace].
    now rewrite !sent_app, Hs, Hs', !app_nil_r.
  - cbn [replied_or_raised record trace]. now rewrite !sent_app, Hs, !app_nil_r.
Qed.

(** With the query image downloaded and a candidate retrieved, the search
    comes down to [reply_to_score] at the score the verification produced,
    nothing having been sent so far. *)
Lemma search_and_reply_reaches_score
    w user image_url page_id shop token st resp page top rest url :
  client_get w (trace st) image_url = Ok resp -> status_code resp = 200 ->
  int_of_str page_id = Ok page ->
  (forall h params, match_products w h params = Ok (top :: rest)) ->
  top !! "image_url" = Some url ->
  exists v st1,
    search_and_reply w user image_url page_id shop token st =
      reply_to_score w user shop token top url v st1 /\
    users st1 = users st /\
    sent (trace st1) = sent (trace st).
Proof.
  intros Hget Hstatus Hpage Hmatch Hurl.
  unfold search_and_reply, http_get. unfold bind at 1, request.
  rewrite Hget, Hstatus. cbn [Z.eqb Pos.eqb negb].
  unfold bind at 1.
  destruct (process_image_run w (content resp) (record (HttpGet image_url) st))
    as (r & new & -> & Hnew).
  assert (Hs : sent new = []).
  { apply sent_none. revert Hnew. apply forallb_impl. now intros []. }
  unfold bind at 1, lift. rewrite Hpage.
  unfold bind at 1, request. rewrite Hmatch.
  unfold bind at 1, item. rewrite Hurl. cbn [ret].
  unfold bind at 1.
  match goal with
  | |- context [verification w ?b url ?s] =>
      destruct (verification_run w b url s) as (v & new' & -> & Hnew')
  end.
  assert (Hs' : sent new' = []).
  { apply sent_none. revert Hnew'. apply forallb_impl. now intros []. }
  eexists v, _. split; [reflexivity|]. split; [reflexivity|].
  cbn [record trace users]. now rewrite !sent_app, Hs, Hs', !app_nil_r.
Qed.

(** X4. When the Graph API answers, [handle_image_search] returns normally
    and the user gets at least one message; when the search raised, exactly
    one: the generic error reply. *)
Lemma handle_image_search_replies w user image_url page_id shop token st :
  reachable w user token ->
  exists st' first more,
    handle_image_search w user image_url page_id shop token st = (Ok tt, st') /\
    sent (trace st') = (sent (trace st) ++ first :: more)%list /\
    (forall e st1,
       search_and_reply w user image_url page_id shop token st = (Raise e, st1) ->
       first = (user, Text (PStr error_reply)) /\ more = []).
Proof.
  intros Hup. unfold handle_image_search, try_except.
  pose proof (search_and_reply_replies w user image_url page_id shop token st Hup)
    as Hrun.
  destruct (search_and_reply w user image_url page_id shop token st)
    as [[[]|e] st1]; cbn [replied_or_raised] in Hrun.
  - destruct Hrun as (first & more & Hsent).
    exists st1, first, more. split; [reflexivity|]. split; [exact Hsent|].
    intros e st2 [=].
  - rewrite send_facebook_message_run by apply Hup.
    eexists _, _, []. split; [reflexivity|]. rewrite sent_record_send, Hrun.
    split; [reflexivity|]. intros _ _ _. split; reflexivity.
Qed.

(** C8. The send helpers catch [httpx.HTTPStatusError] only.  In a world
    where the Graph API takes the text messages and the image send gets no
    answer, the found-message is delivered, the image send raises, the outer
    handler of [handle_image_search] catches that, and the user is sent the
    generic error reply as a second message. *)
Theorem image_delivery_failure_escalates :
  let run := process_incoming_message Scenario.image_post_times_out
               Scenario.image_event (Scenario.start 5) in
  fst run = Ok tt /\
  sent (trace (snd run)) =
    [("customer-7", Text (PStr "Found Diver 200 for 149.5. Confidence: 90%"));
     ("customer-7", ImageAttachment (PStr "https://cdn.example/diver.jpg"));
     ("customer-7", Text (PStr error_reply))] /\
  delivered (trace (snd run)) =
    [("customer-7", Text (PStr "Found Diver 200 for 149.5. Confidence: 90%"));
     ("customer-7", Text (PStr error_reply))].
Proof. vm_compute. repeat split. Qed.

(** ** End-to-end runs *)

(** Balance 5, one candidate, verification answers 90: the found-message
    with confidence 90, then the image; the balance becomes 4. *)
Example confident_match_run :
  let run := process_incoming_message (Scenario.answering "90")
               Scenario.image_event (Scenario.start 5) in
  fst run = Ok tt /\
  sent (trace (snd run)) =
    [("customer-7", Text (PStr "Found Diver 200 for 149.5. Confidence: 90%"));
     ("customer-7", ImageAttachment (PStr "https://cdn.example/diver.jpg"))] /\
  users (snd run) = {[ "owner-1" := 4 ]}.
Proof. vm_compute. repeat split. Qed.

(** Verification answers 70: the caveat comes first. *)
Example soft_match_run :
  sent (trace (snd (process_incoming_message (Scenario.answering "70")
                      Scenario.image_event (Scenario.start 5)))) =
    [("customer-7", Text (PStr caveat));
     ("customer-7", Text (PStr "Found Diver 200 for 149.5. Confidence: 70%"));
     ("customer-7", ImageAttachment (PStr "https://cdn.example/diver.jpg"))].
Proof. vm_compute. reflexivity. Qed.

(** Verification answers 64: rejected, one message, no image. *)
Example rejected_run :
  sent (trace (snd (process_incoming_message (Scenario.answering "64")
                      Scenario.image_event (Scenario.start 5)))) =
    [("customer-7", Text (PStr "Sorry, we could not find a match for that item."))].
Proof. vm_compute. reflexivity. Qed.

(** Balance 0: two lookups and nothing else. *)
Example exhausted_run :
  process_incoming_message (Scenario.answering "90") Scenario.image_event
    (Scenario.start 0) =
    (Ok tt, {| users := {[ "owner-1" := 0 ]};
               trace := [SelectShop "1001"; SelectCredits "owner-1"] |}).
Proof. vm_compute. reflexivity. Qed.

(** * Further properties of the pipeline *)

(** ** Lookups and sends *)

(** X1. [get_shop_config] never raises and issues exactly one shop lookup: it
    hands back the first row the lookup returned, and nothing when the lookup
    returned no row or raised. *)
Theorem get_shop_config_never_raises w page_id st :
  exists found,
    get_shop_config w page_id st = (Ok found, record (SelectShop page_id) st) /\
    (found = None <->
       shops_select w (trace st) page_id = Ok [] \/
       exists e, shops_select w (trace st) page_id = Raise e) /\
    (forall row,
       found = Some row <->
       exists rest, shops_select w (trace st) page_id = Ok (row :: rest)).
Proof.
  rewrite get_shop_config_run. eexists. split; [reflexivity|].
  unfold shop_of.
  destruct (shops_select w (trace st) page_id) as [[|row rest]|e]; split.
  - split; [auto|reflexivity].
  - intros row. split; [discriminate|]. intros [rest [=]].
  - split; [discriminate|]. intros [[=]|[e [=]]].
  - intros row'. split.
    + intros [= <-]. now exists rest.
    + now intros [rest' [= -> _]].
  - split; [eauto|reflexivity].
  - intros row. split; [discriminate|]. intros [rest [=]].
Qed.

(** X2. Both send helpers issue exactly one Graph API request.  A request the
    API refuses (4xx, 5xx) is swallowed: the helper returns normally, as it
    does when the request is accepted.  A request that gets no response is
    not: the transport error leaves the helper. *)
Theorem send_helpers_swallow_refusals_only w user text url token st :
  send_facebook_message w user text token st =
    (match graph_post w (trace st) user (Text text) token with
     | Unreachable => Raise TransportError
     | _ => Ok tt
     end,
     record (Send user (Text text) token
               (graph_post w (trace st) user (Text text) token)) st) /\
  send_facebook_image w user url token st =
    (match graph_post w (trace st) user (ImageAttachment url) token with
     | Unreachable => Raise TransportError
     | _ => Ok tt
     end,
     record (Send user (ImageAttachment url) token
               (graph_post w (trace st) user (ImageAttachment url) token)) st).
Proof.
  unfold send_facebook_message, send_facebook_image, post, try_except. split.
  - now destruct (graph_post w (trace st) user (Text text) token).
  - now destruct (graph_post w (trace st) user (ImageAttachment url) token).
Qed.

(** ** The search stage, off the happy path *)

(** X3. When the customer's image downloads with a status other than 200,
    [handle_image_search] tells the customer "Failed to download image." and
    stops: no description, embedding, retrieval or comparison is requested. *)
Theorem failed_download_is_reported w user image_url page_id shop token st resp :
  client_get w (trace st) image_url = Ok resp ->
  status_code resp <> 200 ->
  graph_post w (trace st ++ [HttpGet image_url])%list user
    (Text (PStr "Failed to download image.")) token <> Unreachable ->
  handle_image_search w user image_url page_id shop token st =
    (Ok tt,
     {| users := users st;
        trace :=
          (trace st ++
           [HttpGet image_url;
            Send user (Text (PStr "Failed to download image.")) token
              (graph_post w (trace st ++ [HttpGet image_url])%list user
                 (Text (PStr "Failed to download image.")) token)])%list |}).
Proof.
  intros Hget Hstatus Hup.
  unfold handle_image_search, try_except, search_and_reply, http_get.
  unfold bind at 1, request. rewrite Hget.
  apply Z.eqb_neq in Hstatus. rewrite Hstatus. cbn [negb].
  rewrite send_facebook_message_run by exact Hup.
  unfold record. cbn [users trace]. now rewrite <- app_assoc.
Qed.

Lemma failed_download_witness :
  handle_image_search Cases.downloads_404 "customer-7" Cases.query_url "1001"
    Scenario.shop "page-token" (Scenario.start 5) =
    (Ok tt,
     {| users := users (Scenario.start 5);
        trace :=
          [HttpGet Cases.query_url;
           Send "customer-7" (Text (PStr "Failed to download image.")) "page-token"
             Accepted] |}).
Proof.
  apply (failed_download_is_reported Cases.downloads_404 "customer-7" Cases.query_url
           "1001" Scenario.shop "page-token" (Scenario.start 5) Cases.gone_response);
    [reflexivity | discriminate | discriminate].
Defined.

Lemma handle_image_search_replies_witness :
  exists st' first more,
    handle_image_search Cases.retrieval_down "customer-7" Cases.query_url "1001"
      Scenario.shop "page-token" (Scenario.start 5) = (Ok tt, st') /\
    sent (trace st') = (sent (trace (Scenario.start 5)) ++ first :: more)%list /\
    first = ("customer-7", Text (PStr error_reply)) /\ more = [].
Proof.
  destruct (handle_image_search_replies Cases.retrieval_down "customer-7"
              Cases.query_url "1001" Scenario.shop "page-token" (Scenario.start 5))
    as (st' & first & more & Hrun & Hsent & Hraised).
  - intros h message. discriminate.
  - exists st', first, more. split; [exact Hrun|]. split; [exact Hsent|].
    eapply Hraised. vm_compute. reflexivity.
Defined.

Lemma retrievals_app h1 h2 :
  retrievals (h1 ++ h2)%list = (retrievals h1 ++ retrievals h2)%list.
Proof.
  induction h1 as [|[] h1 IH]; simpl; rewrite ?IH; reflexivity.
Qed.

Lemma retrievals_none new :
  forallb (fun e => match e with RpcMatch _ => false | _ => true end) new = true ->
  retrievals new = [].
Proof.
  induction new as [|[] new IH]; simpl; intros H;
    [reflexivity | try (now apply IH); discriminate H ..].
Qed.

(** The search raises in each of the [breaks] cases, having sent nothing. *)
Lemma search_and_reply_breaks w user image_url page_id shop token st :
  breaks w image_url page_id ->
  exists e st1,
    search_and_reply w user image_url page_id shop token st = (Raise e, st1) /\
    users st1 = users st /\
    sent (trace st1) = sent (trace st) /\
    compared (trace st1) = compared (trace st).
Proof.
  intros Hbreak. unfold search_and_reply, http_get. unfold bind at 1, request.
  cbv beta.
  assert (Hext : forall new,
            forallb is_extraction new = true ->
            sent new = [] /\ compared new = []).
  { intros new Hnew. split.
    - apply sent_none. revert Hnew. apply forallb_impl. now intros [].
    - apply compared_none. revert Hnew. apply forallb_impl. now intros []. }
  destruct Hbreak as [e Hget|resp e Hget Hstatus Hpage|resp page e Hget Hstatus Hpage Hrpc
                     |resp page top rest Hget Hstatus Hpage Hrpc Hurl];
    rewrite Hget.
  - eexists _, _. split; [reflexivity|]. cbn [record trace users].
    rewrite sent_app, compared_app. cbn [sent compared].
    rewrite !app_nil_r. repeat split.
  - rewrite Hstatus. cbn [Z.eqb Pos.eqb negb]. unfold bind at 1.
    destruct (process_image_run w (content resp) (record (HttpGet image_url) st))
      as (r & new & -> & Hnew).
    destruct (Hext new Hnew) as (Hs & Hc).
    unfold bind at 1, lift. rewrite Hpage.
    eexists _, _. split; [reflexivity|]. cbn [record trace users].
    rewrite !sent_app, !compared_app, Hs, Hc.
    cbn [sent compared]. rewrite !app_nil_r. repeat split.
  - rewrite Hstatus. cbn [Z.eqb Pos.eqb negb]. unfold bind at 1.
    destruct (process_image_run w (content resp) (record (HttpGet image_url) st))
      as (r & new & -> & Hnew).
    destruct (Hext new Hnew) as (Hs & Hc).
    unfold bind at 1, lift. rewrite Hpage.
    unfold bind at 1, request. rewrite Hrpc.
    eexists _, _. split; [reflexivity|]. cbn [record trace users].
    rewrite !sent_app, !compared_app, Hs, Hc.
    cbn [sent compared]. rewrite !app_nil_r. repeat split.
  - rewrite Hstatus. cbn [Z.eqb Pos.eqb negb]. unfold bind at 1.
    destruct (process_image_run w (content resp) (record (HttpGet image_url) st))
      as (r & new & -> & Hnew).
    destruct (Hext new Hnew) as (Hs & Hc).
    unfold bind at 1, lift. rewrite Hpage.
    unfold bind at 1, request. rewrite Hrpc.
    unfold bind at 1, item. rewrite Hurl.
    eexists _, _. split; [reflexivity|]. cbn [record trace users].
    rewrite !sent_app, !compared_app, Hs, Hc.
    cbn [sent compared]. rewrite !app_nil_r. repeat split.
Qed.

(** X5. If the customer's image cannot be downloaded at all, or the page id
    is not an integer literal, or retrieval raises, or the top candidate has
    no [image_url], then (the Graph API answering) the customer gets the
    generic error reply and nothing else, and no comparison is requested. *)
Theorem broken_search_gets_error_reply w user image_url page_id shop token st :
  breaks w image_url page_id ->
  reachable w user token ->
  exists st',
    handle_image_search w user image_url page_id shop token st = (Ok tt, st') /\
    users st' = users st /\
    sent (trace st') = (sent (trace st) ++ [(user, Text (PStr error_reply))])%list /\
    compared (trace st') = compared (trace st).
Proof.
  intros Hbreak Hup. unfold handle_image_search, try_except.
  destruct (search_and_reply_breaks w user image_url page_id shop token st Hbreak)
    as (e & st1 & -> & Hu & Hs & Hc).
  rewrite send_facebook_message_run by apply Hup.
  eexists. split; [reflexivity|]. rewrite sent_record_send, Hs.
  cbn [record trace users]. rewrite compared_app, Hc. cbn [compared].
  now rewrite app_nil_r.
Qed.

Lemma broken_search_witness :
  exists st',
    handle_image_search Cases.nominal "customer-7" Cases.query_url "page-one"
      Scenario.shop "page-token" (Scenario.start 5) = (Ok tt, st') /\
    users st' = users (Scenario.start 5) /\
    sent (trace st') = [("customer-7", Text (PStr error_reply))] /\
    compared (trace st') = [].
Proof.
  apply (broken_search_gets_error_reply Cases.nominal "customer-7" Cases.query_url
           "page-one" Scenario.shop "page-token" (Scenario.start 5)).
  - apply (page_id_not_integer _ _ _ Cases.ok_response ValueError);
      intros; reflexivity.
  - intros h message. discriminate.
Defined.

(** A candidate whose image cannot be had scores 0, without a comparison. *)
Lemma verification_defaults_to_zero w image_bytes url st :
  candidate_unavailable w url ->
  exists st',
    verification w image_bytes url st = (Ok 0, st') /\
    users st' = users st /\
    sent (trace st') = sent (trace st) /\
    compared (trace st') = compared (trace st).
Proof.
  intros Hgone. unfold verification, try_except, http_get_value, http_get.
  destruct url as [| | | |u]; try (eexists; repeat split; reflexivity).
  unfold bind, request. cbv beta.
  assert (Hrec : sent (trace (record (HttpGet u) st)) = sent (trace st) /\
                 compared (trace (record (HttpGet u) st)) = compared (trace st)).
  { cbn [record trace]. rewrite sent_app, compared_app. cbn [sent compared].
    now rewrite !app_nil_r. }
  destruct (Hgone (trace st)) as [[e ->]|(r & -> & Hstatus)].
  - eexists. split; [reflexivity|]. split; [reflexivity|]. exact Hrec.
  - apply Z.eqb_neq in Hstatus. rewrite Hstatus.
    eexists. split; [reflexivity|]. split; [reflexivity|]. exact Hrec.
Qed.

(** X6. When the top candidate's catalog image cannot be downloaded (the
    download raises, or answers with a status other than 200, or the stored
    URL is no string), the verification score stays 0: no comparison is
    requested and the customer gets the not-found message, as for a rejected
    match. *)
Theorem unverifiable_candidate_is_rejected
    w user image_url page_id shop token st resp page top rest url :
  client_get w (trace st) image_url = Ok resp -> status_code resp = 200 ->
  int_of_str page_id = Ok page ->
  (forall h params, match_products w h params = Ok (top :: rest)) ->
  top !! "image_url" = Some url ->
  candidate_unavailable w url ->
  reachable w user token ->
  exists st',
    handle_image_search w user image_url page_id shop token st = (Ok tt, st') /\
    users st' = users st /\
    sent (trace st') =
      (sent (trace st) ++
       [(user, Text (get_default shop "msg_not_found"
                       (PStr "Sorry, we could not find a match for that item.")))])%list /\
    compared (trace st') = compared (trace st).
Proof.
  intros Hget Hstatus Hpage Hmatch Hurl Hgone Hup.
  unfold handle_image_search, try_except, search_and_reply, http_get.
  unfold bind at 1, request. rewrite Hget, Hstatus. cbn [Z.eqb Pos.eqb negb].
  unfold bind at 1.
  destruct (process_image_run w (content resp) (record (HttpGet image_url) st))
    as (r & new & -> & Hnew).
  assert (Hs : sent new = []).
  { apply sent_none. revert Hnew. apply forallb_impl. now intros []. }
  assert (Hc : compared new = []).
  { apply compared_none. revert Hnew. apply forallb_impl. now intros []. }
  unfold bind at 1, lift. rewrite Hpage.
  unfold bind at 1, request. rewrite Hmatch.
  unfold bind at 1, item. rewrite Hurl. cbn [ret].
  unfold bind at 1.
  match goal with
  | |- context [verification w ?b url ?s] =>
      destruct (verification_defaults_to_zero w b url s Hgone)
        as (st1 & -> & Hu1 & Hs1 & Hc1)
  end.
  unfold reply_to_score. cbn [Z.ltb Z.compare].
  rewrite send_facebook_message_run by apply Hup.
  eexists. split; [reflexivity|]. rewrite sent_record_send, Hs1.
  cbn [record trace users] in *. rewrite Hu1.
  rewrite compared_app, Hc1. cbn [compared].
  rewrite !sent_app, !compared_app, Hs, Hc. cbn [sent compared].
  now rewrite !app_nil_r.
Qed.

Lemma unverifiable_candidate_witness :
  exists st',
    handle_image_search Cases.candidate_gone "customer-7" Cases.query_url "1001"
      Scenario.shop "page-token" (Scenario.start 5) = (Ok tt, st') /\
    users st' = users (Scenario.start 5) /\
    sent (trace st') =
      [("customer-7", Text (PStr "Sorry, we could not find a match for that item."))] /\
    compared (trace st') = [].
Proof.
  apply (unverifiable_candidate_is_rejected Cases.candidate_gone "customer-7"
           Cases.query_url "1001" Scenario.shop "page-token" (Scenario.start 5)
           Cases.ok_response 1001 Scenario.product [] (PStr Cases.candidate_url));
    try reflexivity.
  - intros h. right. exists Cases.gone_response. split; [reflexivity|discriminate].
  - intros h message. discriminate.
Defined.

(** ** The AI engine, on success *)

(** X7. When the image opens and both remote calls answer, [process_image]
    issues the description request and then the embedding request for that
    description, and returns the embedding it got in both embedding fields,
    unchanged and whatever its length, together with the description. *)
Theorem process_image_passes_embedding_through w image_bytes st text embedding :
  image_open w image_bytes = true ->
  generate_description w (trace st) image_bytes = Ok text ->
  embed_content w (trace st ++ [Describe image_bytes])%list text = Ok embedding ->
  process_image w image_bytes st =
    (Ok {| siglip_embedding := embedding;
           dino_embedding := embedding;
           description := Some text |},
     {| users := users st;
        trace := (trace st ++ [Describe image_bytes; Embed text])%list |}).
Proof.
  intros Hopen Htext Hemb. unfold process_image, Image_open. run.
  rewrite Hopen. run. rewrite Htext. run. rewrite Hemb.
  unfold record. cbn [users trace]. now rewrite <- app_assoc.
Qed.

Lemma process_image_passes_embedding_through_witness :
  fst (process_image Cases.short_embedding Scenario.picture (Scenario.start 5)) =
    Ok {| siglip_embedding := [zero; zero; zero];
          dino_embedding := [zero; zero; zero];
          description := Some "a steel diver watch" |}.
Proof.
  rewrite (process_image_passes_embedding_through Cases.short_embedding
             Scenario.picture (Scenario.start 5) "a steel diver watch"
             [zero; zero; zero] eq_refl eq_refl eq_refl).
  reflexivity.
Defined.

Lemma strip_after_sign text :
  re_search_digits (strip (45 :: text)) = re_search_digits (strip text).
Proof.
  rewrite !re_search_strip. reflexivity.
Qed.

(** X8. The score [verify_visual_match] returns is never negative, and a
    minus sign in front of the answer changes nothing: the answer scores
    what it scores without the sign, so the text "-5" scores like "5". *)
Theorem verify_visual_match_score_is_not_negative w image1 image2 st :
  (exists score,
     fst (verify_visual_match w image1 image2 st) = Ok score /\ 0 <= score) /\
  (forall text,
     image_open w image1 = true -> image_open w image2 = true ->
     generate_comparison w (trace st) image1 image2 = Ok (45 :: text) ->
     fst (verify_visual_match w image1 image2 st) = Ok (score_of text)).
Proof.
  split.
  - destruct (verify_visual_match_total w image1 image2 st) as (s & st' & -> & Hs & _).
    now exists s.
  - intros text H1 H2 Ht.
    rewrite (verify_visual_match_on_text _ _ _ _ _ H1 H2 Ht).
    unfold score_of. now rewrite strip_after_sign.
Qed.

Lemma verify_visual_match_sign_witness :
  fst (verify_visual_match (Scenario.answering "-5") Scenario.picture
         Scenario.picture (Scenario.start 5)) = Ok 5.
Proof.
  apply (proj2 (verify_visual_match_score_is_not_negative
                  (Scenario.answering "-5") Scenario.picture Scenario.picture
                  (Scenario.start 5)) (code_points "5") eq_refl eq_refl eq_refl).
Defined.

(** ** [process_incoming_message], off the happy path *)

(** X9. An event without a sender id or without a page id (absent or empty)
    is dropped before anything is looked up; an event for a page with no
    shop row (or whose shop lookup fails) is dropped right after the shop
    lookup.  Either way the run returns normally and nothing is sent. *)
Theorem unattributable_events_are_dropped w event st :
  (sender_id event = None \/ sender_id event = Some "" \/
   recipient_id event = None \/ recipient_id event = Some "" ->
   process_incoming_message w event st = (Ok tt, st)) /\
  (forall sender recipient,
     sender_id event = Some sender -> sender <> "" ->
     recipient_id event = Some recipient -> recipient <> "" ->
     shop_of w (trace st) recipient = None ->
     process_incoming_message w event st =
       (Ok tt, record (SelectShop recipient) st)).
Proof.
  unfold process_incoming_message. split.
  - intros H.
    destruct (sender_id event) as [sender|], (recipient_id event) as [recipient|];
      try reflexivity.
    destruct H as [H|[[= ->]|[H|[= ->]]]]; try discriminate H; [reflexivity|].
    now rewrite orb_true_r.
  - intros sender recipient -> Hs -> Hr Hshop.
    apply String.eqb_neq in Hs, Hr. rewrite Hs, Hr. cbn [orb].
    unfold bind. now rewrite get_shop_config_run, Hshop.
Qed.

Lemma unattributable_events_witness :
  process_incoming_message Cases.nominal
    {| sender_id := Some "customer-7"; recipient_id := None;
       attachments := Some [Scenario.photo] |} (Scenario.start 5)
    = (Ok tt, Scenario.start 5) /\
  process_incoming_message Cases.no_shop Scenario.image_event (Scenario.start 5)
    = (Ok tt, record (SelectShop "1001") (Scenario.start 5)).
Proof.
  split.
  - apply (proj1 (unattributable_events_are_dropped Cases.nominal _ (Scenario.start 5))).
    right; right; left. reflexivity.
  - apply (proj2 (unattributable_events_are_dropped Cases.no_shop Scenario.image_event
                    (Scenario.start 5)) "customer-7" "1001");
      [reflexivity | discriminate | reflexivity | discriminate | reflexivity].
Defined.

(** X10. A failed credit lookup is treated like a denial: when the read of
    the owner's balance raises, the run ends silently after the two lookups,
    whatever the balance is. *)
Theorem failed_credit_lookup_is_a_denial w event st sender recipient shop e :
  sender_id event = Some sender -> sender <> "" ->
  recipient_id event = Some recipient -> recipient <> "" ->
  shop_of w (trace st) recipient = Some shop ->
  truthy (Py.get shop "owner_id") = true ->
  users_select_fault w (trace st ++ [SelectShop recipient])%list
    (str (Py.get shop "owner_id")) = Some e ->
  process_incoming_message w event st =
    (Ok tt,
     {| users := users st;
        trace := (trace st ++ [SelectShop recipient;
                               SelectCredits (str (Py.get shop "owner_id"))])%list |}).
Proof.
  intros Hs Hsne Hr Hrne Hshop Ho Hfault.
  rewrite (process_incoming_message_run _ _ _ _ _ _ Hs Hsne Hr Hrne Hshop).
  rewrite (check_credits_run _ _ _ Ho). cbn [record trace users]. rewrite Hfault.
  unfold record. cbn [users trace]. now rewrite <- app_assoc.
Qed.

Lemma failed_credit_lookup_witness :
  process_incoming_message Cases.store_down Scenario.image_event (Scenario.start 5) =
    (Ok tt,
     {| users := users (Scenario.start 5);
        trace := [SelectShop "1001"; SelectCredits "owner-1"] |}).
Proof.
  apply (failed_credit_lookup_is_a_denial Cases.store_down Scenario.image_event
           (Scenario.start 5) "customer-7" "1001" Scenario.shop ApiError);
    reflexivity || discriminate.
Defined.

(** X11. A failed credit write does not stop the search: when the update of
    the owner's balance raises, the image is handled all the same and the
    balance is left as it was. *)
Theorem failed_credit_write_is_not_fatal
    w event st sender recipient shop c token todo url e :
  sender_id event = Some sender -> sender <> "" ->
  recipient_id event = Some recipient -> recipient <> "" ->
  shop_of w (trace st) recipient = Some shop ->
  truthy (Py.get shop "owner_id") = true ->
  let owner := str (Py.get shop "owner_id") in
  users st !! owner = Some c -> 1 <= c ->
  users_select_fault w (trace st ++ [SelectShop recipient])%list owner = None ->
  token_of w shop = Some token ->
  attachments event = Some todo -> first_image todo = Ok (Some url) ->
  users_update_fault w
    (trace st ++ [SelectShop recipient; SelectCredits owner])%list owner (c - 1)
    = Some e ->
  process_incoming_message w event st =
    handle_image_search w sender url recipient shop token
      {| users := users st;
         trace := (trace st ++ [SelectShop recipient; SelectCredits owner;
                                UpdateCredits owner (c - 1)])%list |} /\
  users (snd (process_incoming_message w event st)) = users st.
Proof.
  intros Hs Hsne Hr Hrne Hshop Ho owner Hc Hpos Hsel Htok Htodo Hurl Hupd.
  assert (Hrun : process_incoming_message w event st =
            handle_image_search w sender url recipient shop token
              {| users := users st;
                 trace := (trace st ++ [SelectShop recipient; SelectCredits owner;
                                        UpdateCredits owner (c - 1)])%list |}).
  { rewrite (process_incoming_message_run _ _ _ _ _ _ Hs Hsne Hr Hrne Hshop).
    rewrite (check_credits_run _ _ _ Ho). fold owner. cbn [record trace users].
    rewrite Hsel, Hc.
    assert (Hle : (c <=? 0) = false) by (apply Z.leb_gt; lia).
    rewrite Hle, Htok, Htodo, each_attachment_run, Hurl.
    unfold bind. rewrite (deduct_credit_run _ _ _ _ Ho). fold owner.
    unfold after_deduction, record. cbn [trace users].
    rewrite <- !app_assoc. cbn [app]. now rewrite Hupd. }
  split; [exact Hrun|]. rewrite Hrun.
  now destruct (handle_image_search_keeps_credits w sender url recipient shop token
                  {| users := users st;
                     trace := (trace st ++ [SelectShop recipient; SelectCredits owner;
                                            UpdateCredits owner (c - 1)])%list |})
    as (Hu & _).
Qed.

Lemma failed_credit_write_witness :
  let run := process_incoming_message Cases.store_read_only Scenario.image_event
               (Scenario.start 5) in
  users (snd run) = users (Scenario.start 5).
Proof.
  apply (failed_credit_write_is_not_fatal Cases.store_read_only Scenario.image_event
           (Scenario.start 5) "customer-7" "1001" Scenario.shop 5 "page-token"
           [Scenario.photo] Cases.query_url ApiError);
    reflexivity || discriminate || lia.
Defined.

Lemma check_credits_quiet w owner_id st :
  users (snd (check_credits w owner_id st)) = users st /\
  sent (trace (snd (check_credits w owner_id st))) = sent (trace st) /\
  credit_writes (trace (snd (check_credits w owner_id st))) = credit_writes (trace st).
Proof.
  destruct (truthy owner_id) eqn:Ho.
  - rewrite (check_credits_run _ _ _ Ho). cbn [snd record users trace].
    rewrite sent_app, credit_writes_app. cbn [sent credit_writes].
    now rewrite !app_nil_r.
  - rewrite (check_credits_skip _ _ _ Ho). auto.
Qed.

(** X12. An attachment without a [type], met before any image, or an image
    attachment without a URL, makes [process_incoming_message] raise
    [KeyError] once the credit check has passed and the token is decrypted:
    the exception leaves the function, nothing has been sent and no credit
    has been written. *)
Theorem malformed_attachment_raises_before_any_charge
    w event st sender recipient shop c token todo e :
  sender_id event = Some sender -> sender <> "" ->
  recipient_id event = Some recipient -> recipient <> "" ->
  shop_of w (trace st) recipient = Some shop ->
  fst (check_credits w (Py.get shop "owner_id") (record (SelectShop recipient) st))
    = Ok (Some c) ->
  token_of w shop = Some token ->
  attachments event = Some todo -> first_image todo = Raise e ->
  exists st',
    process_incoming_message w event st = (Raise KeyError, st') /\
    users st' = users st /\
    sent (trace st') = sent (trace st) /\
    credit_writes (trace st') = credit_writes (trace st).
Proof.
  intros Hs Hsne Hr Hrne Hshop Hgate Htok Htodo Hraise.
  rewrite (process_incoming_message_run _ _ _ _ _ _ Hs Hsne Hr Hrne Hshop).
  pose proof (check_credits_quiet w (Py.get shop "owner_id")
                (record (SelectShop recipient) st)) as (Hu & Hsent & Hw).
  destruct (check_credits w (Py.get shop "owner_id") (record (SelectShop recipient) st))
    as [r st1]. cbn [fst snd] in *. subst r.
  rewrite Htok, Htodo, each_attachment_run.
  rewrite (first_image_raises_KeyError _ _ Hraise) in Hraise. rewrite Hraise.
  exists st1. split; [reflexivity|]. rewrite Hu, Hsent, Hw.
  cbn [record users trace]. rewrite sent_app, credit_writes_app.
  cbn [sent credit_writes]. now rewrite !app_nil_r.
Qed.

Lemma malformed_attachment_witness :
  exists st',
    process_incoming_message Cases.nominal
      {| sender_id := Some "customer-7"; recipient_id := Some "1001";
         attachments := Some [Cases.untyped; Scenario.photo] |}
      (Scenario.start 5) = (Raise KeyError, st') /\
    users st' = users (Scenario.start 5) /\
    sent (trace st') = sent (trace (Scenario.start 5)) /\
    credit_writes (trace st') = credit_writes (trace (Scenario.start 5)).
Proof.
  apply (malformed_attachment_raises_before_any_charge Cases.nominal _
           (Scenario.start 5) "customer-7" "1001" Scenario.shop 5 "page-token"
           [Cases.untyped; Scenario.photo] KeyError);
    reflexivity || discriminate.
Defined.

Lemma first_image_stops_at_image pre image rest1 rest2 :
  att_type image = Some "image" ->
  first_image (pre ++ image :: rest1) = first_image (pre ++ image :: rest2).
Proof.
  intros Himage. induction pre as [|a pre IH]; simpl.
  - rewrite Himage. reflexivity.
  - destruct (att_type a) as [ty|]; [|reflexivity].
    now destruct (String.eqb ty "image").
Qed.

Lemma process_incoming_message_first_image w event1 event2 st todo1 todo2 :
  sender_id event1 = sender_id event2 ->
  recipient_id event1 = recipient_id event2 ->
  attachments event1 = Some todo1 -> attachments event2 = Some todo2 ->
  first_image todo1 = first_image todo2 ->
  process_incoming_message w event1 st = process_incoming_message w event2 st.
Proof.
  intros Hs Hr H1 H2 Hfirst. unfold process_incoming_message.
  rewrite Hs, Hr, H1, H2.
  destruct (sender_id event2) as [sender|]; [|reflexivity].
  destruct (recipient_id event2) as [recipient|]; [|reflexivity].
  destruct (String.eqb sender "" || String.eqb recipient ""); [reflexivity|].
  unfold bind.
  destruct (get_shop_config w recipient st) as [[[shop|]|] st0]; try reflexivity.
  destruct (check_credits w (Py.get shop "owner_id") st0) as [[[c|]|] st1];
    try reflexivity.
  destruct (page_token w shop st1) as [[[token|]|] st2]; try reflexivity.
  now rewrite !each_attachment_run, Hfirst.
Qed.

(** X13. Only the first image attachment counts: two events from the same
    sender to the same page whose attachment lists agree up to and including
    their first image attachment are processed identically, whatever
    follows that image. *)
Theorem attachments_after_first_image_are_ignored
    w sender recipient st pre image rest1 rest2 :
  att_type image = Some "image" ->
  process_incoming_message w
    {| sender_id := sender; recipient_id := recipient;
       attachments := Some (pre ++ image :: rest1)%list |} st =
  process_incoming_message w
    {| sender_id := sender; recipient_id := recipient;
       attachments := Some (pre ++ image :: rest2)%list |} st.
Proof.
  intros Himage.
  apply (process_incoming_message_first_image w _ _ st
           (pre ++ image :: rest1)%list (pre ++ image :: rest2)%list);
    try reflexivity.
  now apply first_image_stops_at_image.
Qed.

Lemma attachments_after_first_image_witness :
  process_incoming_message Cases.nominal
    {| sender_id := Some "customer-7"; recipient_id := Some "1001";
       attachments := Some [Cases.sticker; Scenario.photo; Cases.second_photo] |}
    (Scenario.start 5) =
  process_incoming_message Cases.nominal
    {| sender_id := Some "customer-7"; recipient_id := Some "1001";
       attachments := Some [Cases.sticker; Scenario.photo] |}
    (Scenario.start 5).
Proof.
  apply (attachments_after_first_image_are_ignored Cases.nominal (Some "customer-7")
           (Some "1001") (Scenario.start 5) [Cases.sticker] Scenario.photo
           [Cases.second_photo] []).
  reflexivity.
Defined.

(** ** Whom the pipeline writes to *)

Lemma appends_send_message_addressed w user text token :
  appends (addressed user token) (send_facebook_message w user text token).
Proof.
  unfold send_facebook_message, except_HTTPStatusError.
  apply appends_try_except.
  - apply appends_post; cbn [addressed]; now rewrite !String.eqb_refl.
  - intros e. destruct e; (apply appends_ret || apply appends_raise).
Qed.

Lemma appends_send_image_addressed w user url token :
  appends (addressed user token) (send_facebook_image w user url token).
Proof.
  unfold send_facebook_image, except_HTTPStatusError.
  apply appends_try_except.
  - apply appends_post; cbn [addressed]; now rewrite !String.eqb_refl.
  - intros e. destruct e; (apply appends_ret || apply appends_raise).
Qed.

#[local] Hint Resolve appends_send_message_addressed appends_send_image_addressed
  : footprint.

Lemma appends_handle_image_search_addressed w user image_url page_id shop token :
  appends (addressed user token)
    (handle_image_search w user image_url page_id shop token).
Proof.
  assert (Hquiet : forall (A : Type) (P : Event -> bool) (m : M A),
            (forall e, P e = true -> is_send e = false) ->
            appends P m -> appends (addressed user token) m).
  { intros A P m HP. apply appends_weaken. intros e He. specialize (HP e He).
    destruct e; try reflexivity. discriminate HP. }
  unfold handle_image_search.
  apply appends_try_except; [|intros e; footprint].
  unfold search_and_reply, http_get.
  apply appends_bind; [footprint|]. intros resp.
  destruct (negb (status_code resp =? 200)); [footprint|].
  apply appends_bind.
  { apply (Hquiet _ is_extraction); [now intros []|apply appends_process_image]. }
  intros ai. apply appends_bind; [footprint|]. intros page.
  apply appends_bind; [footprint|]. intros [|top rest]; [footprint|].
  apply appends_bind; [footprint|]. intros url.
  apply appends_bind.
  { apply (Hquiet _ (fun e => is_download e || is_compare e));
      [now intros []|apply appends_verification]. }
  intros v. unfold reply_to_score. footprint.
Qed.

Lemma addressed_targets user token new :
  forallb (addressed user token) new = true ->
  forall r t, In (r, t) (send_targets new) -> r = user /\ t = token.
Proof.
  induction new as [|e new IH]; simpl; [tauto|].
  intros [He Hnew]%andb_prop r t.
  destruct e; try (now apply IH).
  cbn [addressed] in He. apply andb_prop in He as [Hr Ht].
  apply String.eqb_eq in Hr, Ht. subst.
  intros [[= <- <-]|Hin]; [auto|now apply IH].
Qed.

Lemma send_targets_app h1 h2 :
  send_targets (h1 ++ h2)%list = (send_targets h1 ++ send_targets h2)%list.
Proof.
  induction h1 as [|[] h1 IH]; simpl; rewrite ?IH; reflexivity.
Qed.

Lemma each_attachment_targets w sender recipient shop owner c token todo st :
  exists new,
    trace (snd (each_attachment w sender recipient shop owner c token todo st))
      = (trace st ++ new)%list /\
    forall r t, In (r, t) (send_targets new) -> r = sender /\ t = token.
Proof.
  rewrite each_attachment_run.
  destruct (first_image todo) as [[url|]|e];
    try (exists []; cbn [snd]; rewrite app_nil_r; split; [reflexivity|intros ? ? []]).
  unfold bind.
  assert (Hded : exists st1 pre,
            deduct_credit w owner c st = (Ok tt, st1) /\
            trace st1 = (trace st ++ pre)%list /\ send_targets pre = []).
  { destruct (truthy owner) eqn:Ho.
    - rewrite (deduct_credit_run _ _ _ _ Ho).
      eexists _, [UpdateCredits (str owner) (c - 1)]. repeat split.
    - rewrite (deduct_credit_skip _ _ _ _ Ho).
      exists st, []. rewrite app_nil_r. repeat split. }
  destruct Hded as (st1 & pre & -> & Hpre & Hnone).
  destruct (appends_handle_image_search_addressed w sender url recipient shop token st1)
    as (_ & new & Ht & Hnew).
  exists (pre ++ new)%list. rewrite Ht, Hpre, app_assoc. split; [reflexivity|].
  intros r t. rewrite send_targets_app, Hnone. cbn [app].
  now apply addressed_targets.
Qed.

(** X14. Whatever the event and whatever the collaborators answer,
    [process_incoming_message] sends to nobody but the event's sender, and
    only under the decrypted page token of the shop the event was sent to. *)
Theorem replies_go_to_the_sender_only w event st :
  exists new,
    trace (snd (process_incoming_message w event st)) = (trace st ++ new)%list /\
    forall r t,
      In (r, t) (send_targets new) ->
      sender_id event = Some r /\
      exists recipient shop,
        recipient_id event = Some recipient /\
        shop_of w (trace st) recipient = Some shop /\
        token_of w shop = Some t.
Proof.
  assert (Hnone : forall (res : outcome unit) st1 pre,
            trace st1 = (trace st ++ pre)%list -> send_targets pre = [] ->
            exists new,
              trace (snd (res, st1)) = (trace st ++ new)%list /\
              forall r t,
                In (r, t) (send_targets new) ->
                sender_id event = Some r /\
                exists recipient shop,
                  recipient_id event = Some recipient /\
                  shop_of w (trace st) recipient = Some shop /\
                  token_of w shop = Some t).
  { intros res st1 pre Ht Hpre. exists pre. split; [exact Ht|].
    rewrite Hpre. intros r t []. }
  unfold process_incoming_message.
  destruct (sender_id event) as [sender|] eqn:Hs;
    [|destruct (recipient_id event); apply (Hnone _ _ []); now rewrite ?app_nil_r].
  destruct (recipient_id event) as [recipient|] eqn:Hr;
    [|apply (Hnone _ _ []); now rewrite ?app_nil_r].
  destruct (String.eqb sender "" || String.eqb recipient "");
    [apply (Hnone _ _ []); now rewrite ?app_nil_r|].
  unfold bind at 1. rewrite get_shop_config_run.
  destruct (shop_of w (trace st) recipient) as [shop|] eqn:Hshop;
    [|now apply (Hnone _ _ [SelectShop recipient])].
  unfold bind at 1.
  assert (Hgate : exists pre,
            trace (snd (check_credits w (Py.get shop "owner_id")
                          (record (SelectShop recipient) st)))
              = (trace st ++ pre)%list /\ send_targets pre = []).
  { destruct (truthy (Py.get shop "owner_id")) eqn:Ho.
    - rewrite (check_credits_run _ _ _ Ho).
      exists [SelectShop recipient; SelectCredits (str (Py.get shop "owner_id"))].
      cbn [snd record trace]. now rewrite <- app_assoc.
    - rewrite (check_credits_skip _ _ _ Ho). now exists [SelectShop recipient]. }
  destruct (check_credits w (Py.get shop "owner_id") (record (SelectShop recipient) st))
    as [[[c|]|e] st1]; cbn [snd] in Hgate; destruct Hgate as (pre & Hpre & Hquiet);
    try now apply (Hnone _ _ pre).
  unfold bind at 1. rewrite page_token_run.
  destruct (token_of w shop) as [token|] eqn:Htok; [|now apply (Hnone _ _ pre)].
  destruct (attachments event) as [todo|]; [|now apply (Hnone _ _ pre)].
  destruct (each_attachment_targets w sender recipient shop (Py.get shop "owner_id")
              c token todo st1) as (new & Ht & Hnew).
  exists (pre ++ new)%list. rewrite Ht, Hpre, app_assoc. split; [reflexivity|].
  intros r t. rewrite send_targets_app, Hquiet. cbn [app]. intros Hin.
  destruct (Hnew r t Hin) as [-> ->]. split; [reflexivity|].
  now exists recipient, shop.
Qed.

(** ** Templates that do not format *)

Lemma markup_fault_after_template ps rest :
  forallb well_formed ps = true ->
  snd (markup MText (template_of ps +:+ rest)) = snd (markup MText rest).
Proof.
  intros Hps. rewrite (markup_template ps rest Hps).
  now destruct (markup MText rest).
Qed.

Lemma stray_brace_faults tail : stray_brace tail -> snd (markup MText tail) <> None.
Proof.
  intros [->|(more & -> & Hmore)]; [discriminate|].
  cbn [markup step]. change (Ascii.eqb "}" "{") with false.
  change (Ascii.eqb "}" "}") with true. cbv iota.
  destruct more as [|c r]; [discriminate|].
  cbn [markup step]. apply Ascii.eqb_neq in Hmore. rewrite Hmore. discriminate.
Qed.

Lemma format_raises_on_fault lookup_fault rich tmpl kw :
  snd (markup MText tmpl) <> None ->
  exists e, format lookup_fault rich tmpl kw = Raise e.
Proof.
  unfold format. cbn [build_string].
  destruct (markup MText tmpl) as [cs [e|]]; [|now intros []].
  intros _. destruct (render _ _ _ kw cs); eauto.
Qed.

(** X15. A found-message template that is not a string (a null column, a
    number), and a template that, after well-formed text and placeholders,
    has a lone closing brace or ends in an opening brace, do not format:
    the reply is the minimal "Found <name>." in each case. *)
Theorem unformattable_template_falls_back w (shop_config top_match : dict) v :
  (forall stored,
     shop_config !! "msg_found" = Some stored ->
     (forall tmpl, stored <> PStr tmpl) ->
     reply_text w shop_config top_match v = minimal_reply top_match) /\
  (forall ps tail,
     shop_config !! "msg_found" = Some (PStr (template_of ps +:+ tail)) ->
     forallb well_formed ps = true -> stray_brace tail ->
     reply_text w shop_config top_match v = minimal_reply top_match).
Proof.
  split.
  - intros stored Hstored Hnot. unfold reply_text, get_default. rewrite Hstored.
    cbn [default]. destruct stored; try reflexivity. now destruct (Hnot s).
  - intros ps tail Hstored Hps Htail. unfold reply_text.
    replace (get_default shop_config "msg_found" (PStr default_msg_found))
      with (PStr (template_of ps +:+ tail))
      by (unfold get_default; now rewrite Hstored).
    unfold format_found.
    destruct (format_raises_on_fault (format_lookup_fault w) (format_rich w)
                (template_of ps +:+ tail)
                (found_kwargs (get_default top_match "name" (PStr "Unknown"))
                   (get_default top_match "price" (PStr "N/A")) v)) as [e ->];
      [|reflexivity].
    rewrite (markup_fault_after_template _ _ Hps). now apply stray_brace_faults.
Qed.

Lemma unformattable_template_witness :
  reply_text Cases.nominal shop_with_null_template Scenario.product 90
    = "Found Diver 200." /\
  reply_text Cases.nominal shop_with_stray_brace Scenario.product 90
    = "Found Diver 200.".
Proof.
  split.
  - apply (proj1 (unformattable_template_falls_back Cases.nominal
                    shop_with_null_template Scenario.product 90) PNone);
      [reflexivity | discriminate].
  - apply (proj2 (unformattable_template_falls_back Cases.nominal
                    shop_with_stray_brace Scenario.product 90)
             [Name; Plain " at "; Price; Plain " "] "{");
      [reflexivity | reflexivity | now left].
Defined.

(** * The rest of the application *)

(** ** Token encryption *)

(** X16. What [encrypt_token] stores, [decrypt_token] gives back: provided
    the cipher's decryption inverts its encryption and a ciphertext is never
    empty, every access token survives the round trip, the empty one
    included (it is stored as the empty string, without the cipher), and a
    shop row holding the stored value yields the access token as its page
    token.  A missing token ([None]) is stored as the empty string too. *)
Theorem token_round_trip w fernet_encrypt :
  (forall t, fernet_encrypt t <> "") ->
  (forall t, fernet_decrypt w (fernet_encrypt t) = Some t) ->
  (forall token : string,
     exists stored,
       encrypt_token fernet_encrypt (PStr token) = Ok stored /\
       decrypt_token w (PStr stored) = Ok token /\
       forall shop : dict,
         shop !! "encrypted_access_token" = Some (PStr stored) ->
         token_of w shop = Some token) /\
  encrypt_token fernet_encrypt PNone = Ok "" /\
  decrypt_token w PNone = Ok "".
Proof.
  intros Hne Hinv. split; [|split; reflexivity].
  intros token. unfold encrypt_token, decrypt_token, token_of. cbn [truthy].
  destruct (String.eqb token "") eqn:Hempty; cbn [negb].
  - apply String.eqb_eq in Hempty. subst token. exists "".
    split; [reflexivity|]. split; [reflexivity|].
    intros shop ->. reflexivity.
  - exists (fernet_encrypt token). split; [reflexivity|].
    specialize (Hne token). apply String.eqb_neq in Hne. cbn [truthy].
    rewrite Hne. cbn [negb]. rewrite Hinv. split; [reflexivity|].
    intros shop ->. unfold decrypt_token. cbn [truthy]. rewrite Hne. cbn [negb].
    now rewrite Hinv.
Qed.

Lemma token_round_trip_witness :
  exists stored,
    encrypt_token Cases2.toy_encrypt (PStr "EAAG-page-token") = Ok stored /\
    decrypt_token Cases2.toy_cipher (PStr stored) = Ok "EAAG-page-token".
Proof.
  destruct (proj1 (token_round_trip Cases2.toy_cipher Cases2.toy_encrypt
                     ltac:(discriminate) ltac:(reflexivity)) "EAAG-page-token")
    as (stored & Henc & Hdec & _).
  now exists stored.
Defined.

(** ** Webhook verification *)

(** X17. [verify_webhook] answers the challenge, with status 200, exactly when
    the mode is "subscribe" and the token sent is the configured verify
    token and is not empty.  The only exception it raises is a 403, and only
    when mode and token are both present and non-empty; with a parameter
    absent or empty it does not raise: the 400 exception object is its
    return value. *)
Theorem verify_webhook_answers_matching_token_only verify_token params :
  (forall body status,
     verify_webhook verify_token params = Returns (PlainTextResponse body status) <->
     hub_mode params = Some "subscribe" /\
     hub_verify_token params = Some verify_token /\
     verify_token <> "" /\
     body = hub_challenge params /\ status = 200) /\
  (forall status detail,
     verify_webhook verify_token params = RaisesHTTP status detail ->
     status = 403 /\
     nonempty (hub_mode params) = true /\ nonempty (hub_verify_token params) = true) /\
  (nonempty (hub_mode params) = false \/ nonempty (hub_verify_token params) = false ->
   verify_webhook verify_token params =
     Returns (ExceptionObject 400 "Missing parameters")).
Proof.
  assert (Hnonempty : forall s, nonempty (Some s) = true <-> s <> "").
  { intros s. cbn [nonempty]. rewrite negb_true_iff. apply String.eqb_neq. }
  unfold verify_webhook. split; [|split].
  - intros body status. split.
    + destruct (nonempty (hub_mode params) && nonempty (hub_verify_token params))
        eqn:Hpresent; [|discriminate].
      apply andb_prop in Hpresent as [_ Htoken].
      case_bool_decide as Hmode; [|discriminate].
      case_bool_decide as Hmatch; [|discriminate].
      cbn [andb]. intros [= <- <-]. rewrite Hmatch in Htoken.
      apply Hnonempty in Htoken. auto.
    + intros (Hmode & Hmatch & Hne & -> & ->). rewrite Hmode, Hmatch.
      apply Hnonempty in Hne. rewrite Hne. cbn [nonempty String.eqb Ascii.eqb negb andb].
      rewrite !bool_decide_eq_true_2 by reflexivity. reflexivity.
  - intros status detail.
    destruct (nonempty (hub_mode params) && nonempty (hub_verify_token params))
      eqn:Hpresent; [|discriminate].
    apply andb_prop in Hpresent as [Hmode Htoken].
    destruct (bool_decide _ && bool_decide _); [discriminate|].
    intros [= <- _]. auto.
  - intros [->| ->]; rewrite ?andb_false_r; reflexivity.
Qed.

Lemma verify_webhook_witness :
  verify_webhook "s3cret"
    {| hub_mode := Some "subscribe"; hub_verify_token := None;
       hub_challenge := Some "1158201444" |}
    = Returns (ExceptionObject 400 "Missing parameters") /\
  verify_webhook "s3cret"
    {| hub_mode := Some "subscribe"; hub_verify_token := Some "s3cret";
       hub_challenge := Some "1158201444" |}
    = Returns (PlainTextResponse (Some "1158201444") 200).
Proof.
  split.
  - apply (proj2 (proj2 (verify_webhook_answers_matching_token_only "s3cret" _))).
    right. reflexivity.
  - apply (proj1 (verify_webhook_answers_matching_token_only "s3cret" _)).
    repeat split. discriminate.
Defined.

(** ** Webhook delivery *)

(** X18. [webhook_handler] always answers "EVENT_RECEIVED" with status 200:
    for a body that is no JSON, for a body that is not a page notification
    (the 404 it raises for that is caught by its own handler), for malformed
    entries.  A body that is not a page notification schedules nothing. *)
Theorem webhook_is_always_acknowledged request_json :
  fst (webhook_handler request_json) = ("EVENT_RECEIVED", 200) /\
  ((forall body, request_json = Ok body ->
                 json_get body "object" JNull <> Ok (JString "page")) ->
   snd (webhook_handler request_json) = []).
Proof.
  unfold webhook_handler, receive.
  destruct request_json as [body|e]; [|split; reflexivity].
  destruct (json_get body "object" JNull) as [object|e] eqn:Hobject;
    [|split; reflexivity].
  destruct (is_string object "page") eqn:Hpage; [|split; reflexivity].
  split.
  - destruct (json_get body "entry" (JArray [])) as [entry|e]; [|reflexivity].
    destruct (json_iter entry) as [entries|e]; [|reflexivity].
    now destruct (each_entry entries []) as [[[]|r] tasks].
  - intros Hnot. destruct (Hnot body eq_refl).
    destruct object; try discriminate Hpage. cbn [is_string] in Hpage.
    apply String.eqb_eq in Hpage. now subst.
Qed.

Lemma webhook_is_always_acknowledged_witness :
  webhook_handler (Ok (JObject [("object", JString "user")]))
    = (("EVENT_RECEIVED", 200), []).
Proof.
  pose proof (webhook_is_always_acknowledged
                (Ok (JObject [("object", JString "user")]))) as [Hresp Htasks].
  rewrite (surjective_pairing (webhook_handler _)), Hresp, Htasks; [reflexivity|].
  intros body [= <-]. discriminate.
Defined.

Lemma each_entry_batches good batches rest tasks :
  Forall2 (fun entry events =>
             json_get entry "messaging" (JArray []) = Ok (JArray events))
          good batches ->
  each_entry (good ++ rest) tasks = each_entry rest (tasks ++ concat batches).
Proof.
  intros Hgood. revert tasks.
  induction Hgood as [|entry events good batches Hentry _ IH]; intros tasks.
  - cbn [concat app]. now rewrite app_nil_r.
  - cbn [app each_entry concat]. rewrite Hentry. cbn [json_iter].
    now rewrite IH, app_assoc.
Qed.

(** X19. A page notification schedules one task per messaging event, in the
    order of the entries and of the events within each entry.  An entry that
    is not an object ends the scheduling; the events of the entries before
    it stay scheduled. *)
Theorem page_events_are_scheduled_in_order body good batches rest :
  json_get body "object" JNull = Ok (JString "page") ->
  json_get body "entry" (JArray []) = Ok (JArray (good ++ rest)) ->
  Forall2 (fun entry events =>
             json_get entry "messaging" (JArray []) = Ok (JArray events))
          good batches ->
  rest = [] \/
  (exists bad rest' e,
     rest = bad :: rest' /\ json_get bad "messaging" (JArray []) = Raise e) ->
  webhook_handler (Ok body) = (("EVENT_RECEIVED", 200), concat batches).
Proof.
  intros Hobject Hentry Hgood Hrest. unfold webhook_handler, receive.
  rewrite Hobject. cbn [is_string String.eqb Ascii.eqb]. cbv iota.
  rewrite Hentry. cbn [json_iter].
  rewrite (each_entry_batches _ _ _ _ Hgood). cbn [app].
  destruct Hrest as [->|(bad & rest' & e & -> & Hbad)].
  - reflexivity.
  - cbn [each_entry]. now rewrite Hbad.
Qed.

Lemma page_events_witness :
  webhook_handler (Ok Hooks.notification) =
    (("EVENT_RECEIVED", 200),
     [Hooks.text_from "a"; Hooks.text_from "b"; Hooks.text_from "c"]).
Proof.
  apply (page_events_are_scheduled_in_order Hooks.notification
           [JObject [("id", JString "1001");
                     ("messaging", JArray [Hooks.text_from "a"; Hooks.text_from "b"])];
            JObject [("id", JString "1001");
                     ("messaging", JArray [Hooks.text_from "c"])]]
           [[Hooks.text_from "a"; Hooks.text_from "b"]; [Hooks.text_from "c"]] []);
    [reflexivity | reflexivity | | now left].
  repeat constructor.
Defined.

(** ** Row lookups *)

(** X20. [get_user] and [get_shop_details] never answer 404.  They return the
    first row when the lookup returns one; when it returns none, the 404
    they raise is caught by their own handler and becomes a 500, as does any
    failure of the lookup. *)
Theorem lookups_turn_not_found_into_500 describe looked_up :
  (forall row rest,
     looked_up = Ok (row :: rest) ->
     get_user describe looked_up = Returns row /\
     get_shop_details describe looked_up = Returns row) /\
  (looked_up = Ok [] ->
   get_user describe looked_up =
     RaisesHTTP 500 (describe (HTTPException 404 "User not found")) /\
   get_shop_details describe looked_up =
     RaisesHTTP 500 (describe (HTTPException 404 "Shop not found"))) /\
  (forall e,
     looked_up = Raise e ->
     get_user describe looked_up = RaisesHTTP 500 (describe (Error e)) /\
     get_shop_details describe looked_up = RaisesHTTP 500 (describe (Error e))) /\
  (forall status detail,
     get_user describe looked_up = RaisesHTTP status detail \/
     get_shop_details describe looked_up = RaisesHTTP status detail ->
     status = 500).
Proof.
  unfold get_user, get_shop_details, first_row_or_404.
  split; [|split; [|split]].
  - intros row rest ->. split; reflexivity.
  - intros ->. split; reflexivity.
  - intros e ->. split; reflexivity.
  - intros status detail.
    destruct looked_up as [[|row rest]|e]; cbn; intros [H|H]; congruence.
Qed.

Lemma lookups_witness :
  get_user (fun _ => "404: User not found") (Ok []) =
    RaisesHTTP 500 "404: User not found".
Proof.
  apply (proj1 (proj1 (proj2 (lookups_turn_not_found_into_500
                                (fun _ => "404: User not found") (Ok []))) eq_refl)).
Defined.

(** ** Shop and product management *)

(** X21. Onboarding stores the access token encrypted, and the pipeline gets
    it back: the first request of [onboard_shop] is the upsert of a row that
    holds the page id, the encrypted token and, when a non-empty owner id was
    given, that owner id, and nothing else (the shop's name is not stored);
    provided decryption inverts encryption and a ciphertext is never empty,
    the page token derived from that row is the access token given. *)
Theorem onboarding_stores_a_recoverable_token w b fernet_encrypt shop calls :
  (forall t, fernet_encrypt t <> "") ->
  (forall t, fernet_decrypt w (fernet_encrypt t) = Some t) ->
  exists row more,
    snd (Admin.onboard_shop b fernet_encrypt shop calls)
      = (calls ++ Admin.UpsertShop row :: more)%list /\
    row !! "page_id" = Some (PInt (Admin.page_id shop)) /\
    token_of w row = Some (Admin.access_token shop) /\
    row !! "owner_id" =
      (if nonempty (Admin.owner_id shop)
       then PStr <$> Admin.owner_id shop else None) /\
    forall k, is_Some (row !! k) ->
              k = "page_id" \/ k = "encrypted_access_token" \/ k = "owner_id".
Proof.
  intros Hne Hinv.
  assert (Henc : exists stored,
            encrypt_token fernet_encrypt (PStr (Admin.access_token shop)) = Ok stored /\
            decrypt_token w (PStr stored) = Ok (Admin.access_token shop)).
  { unfold encrypt_token, decrypt_token. cbn [truthy].
    destruct (String.eqb (Admin.access_token shop) "") eqn:Hempty; cbn [negb].
    - apply String.eqb_eq in Hempty. rewrite Hempty. now exists "".
    - exists (fernet_encrypt (Admin.access_token shop)). split; [reflexivity|].
      specialize (Hne (Admin.access_token shop)). apply String.eqb_neq in Hne.
      cbn [truthy]. rewrite Hne. cbn [negb]. now rewrite Hinv. }
  destruct Henc as (stored & Henc & Hdec).
  unfold Admin.onboard_shop. rewrite Henc.
  exists (Admin.onboard_row shop stored).
  assert (Hrow :
    Admin.onboard_row shop stored !! "page_id" = Some (PInt (Admin.page_id shop)) /\
    token_of w (Admin.onboard_row shop stored) = Some (Admin.access_token shop) /\
    Admin.onboard_row shop stored !! "owner_id" =
      (if nonempty (Admin.owner_id shop)
       then PStr <$> Admin.owner_id shop else None) /\
    forall k, is_Some (Admin.onboard_row shop stored !! k) ->
              k = "page_id" \/ k = "encrypted_access_token" \/ k = "owner_id").
  { assert (Hkeys : forall (m : dict) k,
              is_Some (m !! k) ->
              (k <> "page_id" -> k <> "encrypted_access_token" -> k <> "owner_id" ->
               m !! k = None) ->
              k = "page_id" \/ k = "encrypted_access_token" \/ k = "owner_id").
    { intros m k [v Hk] Hother.
      destruct (decide (k = "page_id")); [auto|].
      destruct (decide (k = "encrypted_access_token")); [auto|].
      destruct (decide (k = "owner_id")); [auto|].
      rewrite Hother in Hk by assumption. discriminate. }
    unfold Admin.onboard_row, token_of.
    destruct (Admin.owner_id shop) as [o|]; cbn [nonempty];
      [destruct (negb (String.eqb o ""))|]; cbn [default fmap option_fmap option_map].
    - split; [by simplify_map_eq|]. split; [simplify_map_eq; now rewrite Hdec|].
      split; [by simplify_map_eq|].
      intros k Hk. apply (Hkeys _ _ Hk). intros. by simplify_map_eq.
    - split; [by simplify_map_eq|]. split; [simplify_map_eq; now rewrite Hdec|].
      split; [by simplify_map_eq|].
      intros k Hk. apply (Hkeys _ _ Hk). intros. by simplify_map_eq.
    - split; [by simplify_map_eq|]. split; [simplify_map_eq; now rewrite Hdec|].
      split; [by simplify_map_eq|].
      intros k Hk. apply (Hkeys _ _ Hk). intros. by simplify_map_eq. }
  destruct (Admin.upsert b calls (Admin.onboard_row shop stored)) as [data|e].
  - destruct (Admin.subscribe b _ (Admin.page_id shop) (Admin.access_token shop));
      eexists; (split; [cbn [snd]; rewrite <- app_assoc; reflexivity|exact Hrow]).
  - exists []. split; [reflexivity|exact Hrow].
Qed.

Lemma onboarding_witness :
  exists row more,
    snd (Admin.onboard_shop Admin.answering_backend Cases2.toy_encrypt
           Admin.new_shop []) = Admin.UpsertShop row :: more /\
    token_of Cases2.toy_cipher row = Some "EAAG-page-token" /\
    row !! "owner_id" = Some (PStr "owner-1").
Proof.
  destruct (onboarding_stores_a_recoverable_token Cases2.toy_cipher
              Admin.answering_backend Cases2.toy_encrypt Admin.new_shop []
              ltac:(discriminate) ltac:(reflexivity))
    as (row & more & Hcalls & _ & Htoken & Howner & _).
  exists row, more. auto.
Defined.

(** X22. A refused subscription does not fail onboarding, an unreachable one
    does, and neither undoes the upsert.  [onboard_shop] upserts first; if
    that raises it answers 400 and never subscribes; otherwise it subscribes
    the page with the plain access token and returns the upserted data
    whatever status the subscription is answered with, but answers 400 if the
    subscription request raises, the row having been written. *)
Theorem onboarding_outcomes b fernet_encrypt shop calls :
  exists stored,
    encrypt_token fernet_encrypt (PStr (Admin.access_token shop)) = Ok stored /\
    let row := Admin.onboard_row shop stored in
    let calls1 := (calls ++ [Admin.UpsertShop row])%list in
    let calls2 :=
      (calls1 ++ [Admin.Subscribe (Admin.page_id shop) (Admin.access_token shop)])%list in
    (forall e,
       Admin.upsert b calls row = Raise e ->
       Admin.onboard_shop b fernet_encrypt shop calls =
         (Raised (HTTPException 400 (Admin.describe b (Error e))), calls1)) /\
    (forall data status,
       Admin.upsert b calls row = Ok data ->
       Admin.subscribe b calls1 (Admin.page_id shop) (Admin.access_token shop)
         = Ok status ->
       Admin.onboard_shop b fernet_encrypt shop calls = (Done data, calls2)) /\
    (forall data e,
       Admin.upsert b calls row = Ok data ->
       Admin.subscribe b calls1 (Admin.page_id shop) (Admin.access_token shop)
         = Raise e ->
       Admin.onboard_shop b fernet_encrypt shop calls =
         (Raised (HTTPException 400 (Admin.describe b (Error e))), calls2)).
Proof.
  assert (Henc : exists stored,
            encrypt_token fernet_encrypt (PStr (Admin.access_token shop)) = Ok stored).
  { unfold encrypt_token.
    destruct (negb (truthy (PStr (Admin.access_token shop)))); eauto. }
  destruct Henc as [stored Henc]. exists stored. split; [exact Henc|].
  cbn zeta. unfold Admin.onboard_shop. rewrite Henc.
  split; [|split].
  - now intros e ->.
  - now intros data status -> ->.
  - now intros data e -> ->.
Qed.

Lemma onboarding_outcomes_witness :
  (exists data calls,
     Admin.onboard_shop Admin.subscription_refused Cases2.toy_encrypt
       Admin.new_shop [] = (Done data, calls)) /\
  (exists detail row,
     Admin.onboard_shop Admin.subscription_unreachable Cases2.toy_encrypt
       Admin.new_shop [] =
       (Raised (HTTPException 400 detail),
        [Admin.UpsertShop row; Admin.Subscribe 1001 "EAAG-page-token"])).
Proof.
  split.
  - destruct (onboarding_outcomes Admin.subscription_refused Cases2.toy_encrypt
                Admin.new_shop []) as (stored & _ & _ & Hrefused & _).
    eexists _, _. exact (Hrefused _ 400 eq_refl eq_refl).
  - destruct (onboarding_outcomes Admin.subscription_unreachable Cases2.toy_encrypt
                Admin.new_shop []) as (stored & _ & _ & _ & Hdown).
    eexists _, _. exact (Hdown _ TransportError eq_refl eq_refl).
Defined.

(** X23. [delete_shop] always issues the deletion of the shop row, exactly
    once and as its last request, whether or not the shop was found, its
    token decrypted or the page unsubscribed.  Before it, it unsubscribes at
    most once, and only under the decrypted page token of the shop it found.
    It returns normally exactly when the deletion does not raise, and raises
    nothing but a 500. *)
Theorem delete_shop_always_deletes w b id st calls :
  exists before,
    snd (Admin.delete_shop w b id st calls)
      = (calls ++ before ++ [Admin.DeleteShopRow id])%list /\
    (before = [] \/
     exists shop token,
       before = [Admin.Unsubscribe id token] /\
       shop_of w (trace st) (str_of_Z id) = Some shop /\
       token_of w shop = Some token) /\
    fst (fst (Admin.delete_shop w b id st calls)) =
      match Admin.delete_row b (calls ++ before)%list id with
      | Ok _ => Done tt
      | Raise e => Raised (HTTPException 500 (Admin.describe b (Error e)))
      end /\
    snd (fst (Admin.delete_shop w b id st calls)) = record (SelectShop (str_of_Z id)) st.
Proof.
  unfold Admin.delete_shop. rewrite get_shop_config_run.
  destruct (shop_of w (trace st) (str_of_Z id)) as [shop|] eqn:Hshop.
  - unfold Admin.try_unsubscribe.
    destruct (token_of w shop) as [token|] eqn:Htoken;
      pose proof Htoken as Hkeep; unfold token_of in Htoken.
    + destruct (shop !! "encrypted_access_token") as [enc|]; [|discriminate].
      destruct (decrypt_token w enc) as [plain|]; [|discriminate].
      injection Htoken as ->.
      exists [Admin.Unsubscribe id token]. cbn [fst snd].
      rewrite <- app_assoc. repeat split. right. now exists shop, token.
    + exists []. cbn [fst snd app].
      destruct (shop !! "encrypted_access_token") as [enc|];
        [destruct (decrypt_token w enc); [discriminate|]|];
        rewrite app_nil_r; repeat split; now left.
  - exists []. cbn [fst snd app]. rewrite app_nil_r. repeat split. now left.
Qed.

Lemma inserted_app calls1 calls2 :
  Admin.inserted (calls1 ++ calls2)%list
    = (Admin.inserted calls1 ++ Admin.inserted calls2)%list.
Proof.
  induction calls1 as [|[] calls1 IH]; simpl; rewrite ?IH; reflexivity.
Qed.

(** X24. When the upload of the product image fails (the upload itself, or
    asking for its public URL), [add_product] answers 500 "Failed to upload
    image" and stops there: the image is not described or embedded and no
    product row is inserted. *)
Theorem failed_upload_stops_add_product
    w b id product_name product_price image_bytes uuid st calls :
  let filename := str_of_Z id +:+ "/" +:+ uuid +:+ ".jpg" in
  (exists e, Admin.upload b calls filename image_bytes = Raise e) \/
  (Admin.upload b calls filename image_bytes = Ok tt /\
   exists e,
     Admin.get_public_url b (calls ++ [Admin.Upload filename image_bytes])%list filename
       = Raise e) ->
  exists calls',
    Admin.add_product w b id product_name product_price image_bytes uuid st calls =
      (Raised (HTTPException 500 "Failed to upload image"), st, calls') /\
    Admin.inserted calls' = Admin.inserted calls.
Proof.
  intros filename Hfail. unfold Admin.add_product. fold filename.
  destruct Hfail as [[e ->]|[-> [e ->]]].
  - eexists. split; [reflexivity|]. rewrite inserted_app. cbn [Admin.inserted].
    now rewrite app_nil_r.
  - eexists. split; [reflexivity|]. rewrite !inserted_app. cbn [Admin.inserted].
    now rewrite !app_nil_r.
Qed.

Lemma failed_upload_witness :
  exists calls',
    Admin.add_product Cases.nominal Admin.storage_down 1001 "Diver 200"
      (PFloat "149.5") Scenario.picture "0b1f" (Scenario.start 5) [] =
      (Raised (HTTPException 500 "Failed to upload image"), Scenario.start 5, calls') /\
    Admin.inserted calls' = Admin.inserted [].
Proof.
  apply (failed_upload_stops_add_product Cases.nominal Admin.storage_down 1001
           "Diver 200" (PFloat "149.5") Scenario.picture "0b1f" (Scenario.start 5) []).
  left. now exists ApiError.
Defined.

Lemma process_image_degrades w image_bytes st :
  extraction_fails w (trace st) image_bytes ->
  fst (process_image w image_bytes st) = Ok degraded.
Proof.
  intros Hfail. unfold process_image, Image_open. run.
  destruct Hfail as [Hopen|[[e He]|(d & e & Hd & He)]].
  - now rewrite Hopen.
  - destruct (image_open w image_bytes); run; [|reflexivity]. now rewrite He.
  - destruct (image_open w image_bytes); run; [|reflexivity].
    rewrite Hd. run. now rewrite He.
Qed.

(** X25. A product whose image cannot be described or embedded is stored all
    the same: once the upload has gone through, a failed extraction gives
    [add_product] no error, and the row it inserts carries the uploaded
    image's URL and two embeddings of 768 zeros each.  Whether the caller
    sees success or a 500 depends on the insertion alone. *)
Theorem undescribable_product_is_stored_with_zero_vectors
    w b id product_name product_price image_bytes uuid st calls url :
  let filename := str_of_Z id +:+ "/" +:+ uuid +:+ ".jpg" in
  let calls2 :=
    (calls ++ [Admin.Upload filename image_bytes; Admin.GetPublicUrl filename])%list in
  Admin.upload b calls filename image_bytes = Ok tt ->
  Admin.get_public_url b (calls ++ [Admin.Upload filename image_bytes])%list filename
    = Ok url ->
  extraction_fails w (trace st) image_bytes ->
  let row :=
    {| Admin.shop_id := id; Admin.name := product_name; Admin.price := product_price;
       Admin.image_url := url;
       Admin.siglip := repeat zero 768; Admin.dino := repeat zero 768 |} in
  fst (fst (Admin.add_product w b id product_name product_price image_bytes uuid
              st calls)) =
    match Admin.insert_product b calls2 row with
    | Ok data => Done data
    | Raise e => Raised (HTTPException 500 (Admin.describe b (Error e)))
    end /\
  snd (Admin.add_product w b id product_name product_price image_bytes uuid st calls)
    = (calls2 ++ [Admin.InsertProduct row])%list.
Proof.
  intros filename calls2 Hupload Hurl Hfail row.
  unfold Admin.add_product. fold filename. rewrite Hupload, Hurl.
  pose proof (process_image_degrades w image_bytes st Hfail) as Hdegraded.
  destruct (process_image w image_bytes st) as [[ai|e] st']; cbn [fst] in Hdegraded;
    [|discriminate].
  injection Hdegraded as ->. cbn [fst snd siglip_embedding dino_embedding degraded].
  subst calls2 row. rewrite <- !app_assoc. cbn [app]. split; reflexivity.
Qed.

Lemma undescribable_product_witness :
  Admin.inserted
    (snd (Admin.add_product Scenario.describe_down Admin.answering_backend 1001
            "Diver 200" (PFloat "149.5") Scenario.picture "0b1f"
            (Scenario.start 5) [])) =
    [{| Admin.shop_id := 1001; Admin.name := "Diver 200";
        Admin.price := PFloat "149.5";
        Admin.image_url := "https://cdn.example/1001/0b1f.jpg";
        Admin.siglip := repeat zero 768; Admin.dino := repeat zero 768 |}].
Proof.
  rewrite (proj2 (undescribable_product_is_stored_with_zero_vectors
                    Scenario.describe_down Admin.answering_backend 1001 "Diver 200"
                    (PFloat "149.5") Scenario.picture "0b1f" (Scenario.start 5) []
                    "https://cdn.example/1001/0b1f.jpg" eq_refl eq_refl
                    ltac:(right; left; now exists ApiError))).
  reflexivity.
Defined.

(** ** What one event can cost *)

Section Spending.

Context {A B : Type}.

Lemma spends_bind c1 r1 w1 c2 r2 w2 c r wr (m : M A) (k : A -> M B) :
  spends c1 r1 w1 m -> (forall a, spends c2 r2 w2 (k a)) ->
  (c1 + c2 <= c)%nat -> (r1 + r2 <= r)%nat -> (w1 + w2 <= wr)%nat ->
  spends c r wr (bind m k).
Proof.
  intros Hm Hk Hc Hr Hw st. unfold bind. specialize (Hm st).
  destruct (m st) as [[a|e] st1]; cbn [snd] in *.
  - destruct Hm as (new & Ht & Hc1 & Hr1 & Hw1).
    destruct (Hk a st1) as (new' & Ht' & Hc2 & Hr2 & Hw2).
    exists (new ++ new')%list. rewrite Ht', Ht, app_assoc.
    rewrite compared_app, retrievals_app, credit_writes_app, !length_app.
    repeat split; lia.
  - destruct Hm as (new & Ht & Hc1 & Hr1 & Hw1).
    exists new. repeat split; [exact Ht|lia..].
Qed.

Lemma spends_try_except c1 r1 w1 c2 r2 w2 c r wr (m : M A) (h : exn -> M A) :
  spends c1 r1 w1 m -> (forall e, spends c2 r2 w2 (h e)) ->
  (c1 + c2 <= c)%nat -> (r1 + r2 <= r)%nat -> (w1 + w2 <= wr)%nat ->
  spends c r wr (try_except m h).
Proof.
  intros Hm Hh Hc Hr Hw st. unfold try_except. specialize (Hm st).
  destruct (m st) as [[a|e] st1]; cbn [snd] in *.
  - destruct Hm as (new & Ht & Hc1 & Hr1 & Hw1).
    exists new. repeat split; [exact Ht|lia..].
  - destruct Hm as (new & Ht & Hc1 & Hr1 & Hw1).
    destruct (Hh e st1) as (new' & Ht' & Hc2 & Hr2 & Hw2).
    exists (new ++ new')%list. rewrite Ht', Ht, app_assoc.
    rewrite compared_app, retrievals_app, credit_writes_app, !length_app.
    repeat split; lia.
Qed.

(** A computation that only adds free events spends nothing, so it stays
    within any bounds. *)
Lemma spends_nothing c r wr P (m : M A) :
  (forall e, P e = true -> is_free e = true) -> appends P m -> spends c r wr m.
Proof.
  intros HP Hm st. destruct (Hm st) as (_ & new & Ht & Hnew).
  exists new. split; [exact Ht|].
  assert (Hfree : forallb is_free new = true) by (revert Hnew; now apply forallb_impl).
  assert (Hc : compared new = []).
  { apply compared_none. revert Hfree. apply forallb_impl. now intros []. }
  assert (Hr : retrievals new = []).
  { apply retrievals_none. revert Hfree. apply forallb_impl. now intros []. }
  assert (Hw : credit_writes new = []).
  { apply credit_writes_none. revert Hfree. apply forallb_impl. now intros []. }
  rewrite Hc, Hr, Hw. cbn [length]. repeat split; lia.
Qed.

End Spending.

Lemma spends_ret {A} c r wr (a : A) : spends c r wr (ret a).
Proof. apply (spends_nothing _ _ _ is_free); [auto|apply appends_ret]. Qed.

Lemma spends_verify_visual_match w image1 image2 :
  spends 1 0 0 (verify_visual_match w image1 image2).
Proof.
  unfold verify_visual_match.
  apply (spends_try_except 1 0 0 0 0 0); try lia; [|intros e; apply spends_ret].
  apply (spends_bind 0 0 0 1 0 0); try lia.
  { apply (spends_nothing _ _ _ is_free); [auto|]. unfold Image_open. footprint. }
  intros img1. apply (spends_bind 0 0 0 1 0 0); try lia.
  { apply (spends_nothing _ _ _ is_free); [auto|]. unfold Image_open. footprint. }
  intros img2. apply (spends_bind 1 0 0 0 0 0); try lia.
  - intros st. exists [Compare img1 img2]. cbn. repeat split; lia.
  - intros text. destruct (re_search_digits (strip text)) as [group|]; [|apply spends_ret].
    apply (spends_nothing _ _ _ is_free); [auto|footprint].
Qed.

Lemma spends_verification w image_bytes url :
  spends 1 0 0 (verification w image_bytes url).
Proof.
  unfold verification.
  apply (spends_try_except 1 0 0 0 0 0); try lia; [|intros e; apply spends_ret].
  apply (spends_bind 0 0 0 1 0 0); try lia.
  { apply (spends_nothing _ _ _ is_free); [auto|].
    unfold http_get_value, http_get. destruct url; footprint. }
  intros resp. destruct (status_code resp =? 200);
    [apply spends_verify_visual_match|].
  apply (spends_nothing _ _ _ is_free); [auto|apply appends_ret].
Qed.

Lemma spends_handle_image_search w user image_url page_id shop token :
  spends 1 1 0 (handle_image_search w user image_url page_id shop token).
Proof.
  assert (Hsend : forall text, spends 0 0 0 (send_facebook_message w user text token)).
  { intros text. apply (spends_nothing _ _ _ is_send);
      [now intros []|apply appends_send_facebook_message]. }
  unfold handle_image_search.
  apply (spends_try_except 1 1 0 0 0 0); try lia; [|intros e; apply Hsend].
  unfold search_and_reply.
  apply (spends_bind 0 0 0 1 1 0); try lia.
  { apply (spends_nothing _ _ _ is_free); [auto|]. unfold http_get. footprint. }
  intros resp. destruct (negb (status_code resp =? 200)).
  { apply (spends_nothing _ _ _ is_send);
      [now intros []|apply appends_send_facebook_message]. }
  apply (spends_bind 0 0 0 1 1 0); try lia.
  { apply (spends_nothing _ _ _ is_extraction);
      [now intros []|apply appends_process_image]. }
  intros ai. apply (spends_bind 0 0 0 1 1 0); try lia.
  { apply (spends_nothing _ _ _ is_free); [auto|apply appends_lift]. }
  intros page. apply (spends_bind 0 1 0 1 0 0); try lia.
  { intros st. eexists [RpcMatch _]. cbn. repeat split; lia. }
  intros [|top rest].
  { apply (spends_nothing _ _ _ is_send);
      [now intros []|apply appends_send_facebook_message]. }
  apply (spends_bind 0 0 0 1 0 0); try lia.
  { apply (spends_nothing _ _ _ is_free); [auto|apply appends_item]. }
  intros url. apply (spends_bind 1 0 0 0 0 0); try lia.
  { apply spends_verification. }
  intros v. apply (spends_nothing _ _ _ is_send);
    [now intros []|apply appends_reply_to_score].
Qed.

Lemma spends_each_attachment w sender recipient shop owner c token todo :
  spends 1 1 1 (each_attachment w sender recipient shop owner c token todo).
Proof.
  induction todo as [|a rest IH]; cbn [each_attachment].
  - intros st. exists []. cbn. rewrite app_nil_r. repeat split; lia.
  - apply (spends_bind 0 0 0 1 1 1); try lia.
    { apply (spends_nothing _ _ _ is_free); [auto|apply appends_item]. }
    intros ty. destruct (String.eqb ty "image"); [|exact IH].
    apply (spends_bind 0 0 0 1 1 1); try lia.
    { apply (spends_nothing _ _ _ is_free); [auto|apply appends_item]. }
    intros url. apply (spends_bind 0 0 1 1 1 0); try lia.
    + intros st. destruct (truthy owner) eqn:Ho.
      * rewrite (deduct_credit_run _ _ _ _ Ho).
        exists [UpdateCredits (str owner) (c - 1)]. cbn. repeat split; lia.
      * rewrite (deduct_credit_skip _ _ _ _ Ho).
        exists []. cbn. rewrite app_nil_r. repeat split; lia.
    + intros _. apply spends_handle_image_search.
Qed.

(** X26. Whatever the event and whatever the collaborators answer, one run of
    [process_incoming_message] issues at most one credit write, at most one
    retrieval request and at most one comparison request. *)
Theorem one_event_costs_at_most_one_of_each w event st :
  exists new,
    trace (snd (process_incoming_message w event st)) = (trace st ++ new)%list /\
    (length (credit_writes new) <= 1)%nat /\
    (length (retrievals new) <= 1)%nat /\
    (length (compared new) <= 1)%nat.
Proof.
  assert (Hspends : spends 1 1 1 (process_incoming_message w event)).
  { assert (Hstop : spends 1 1 1 (@ret unit tt)) by apply spends_ret.
    unfold process_incoming_message.
    destruct (sender_id event) as [sender|];
      [|destruct (recipient_id event); exact Hstop].
    destruct (recipient_id event) as [recipient|]; [|exact Hstop].
    destruct (String.eqb sender "" || String.eqb recipient ""); [exact Hstop|].
    apply (spends_bind 0 0 0 1 1 1); try lia.
    { apply (spends_nothing _ _ _ is_lookup); [now intros []|].
      unfold get_shop_config. footprint. }
    intros [shop|]; [|exact Hstop].
    apply (spends_bind 0 0 0 1 1 1); try lia.
    { apply (spends_nothing _ _ _ is_lookup); [now intros []|].
      unfold check_credits. destruct (truthy (Py.get shop "owner_id")); [|footprint].
      apply appends_try_except; [|intros e; footprint].
      apply appends_bind.
      - intros st'. split; [reflexivity|]. unfold select_credits. cbn [snd record trace].
        now exists [SelectCredits (str (Py.get shop "owner_id"))].
      - intros [credits|]; [destruct (credits <=? 0)|]; footprint. }
    intros [credits|]; [|exact Hstop].
    apply (spends_bind 0 0 0 1 1 1); try lia.
    { apply (spends_nothing _ _ _ is_free); [auto|]. unfold page_token. footprint. }
    intros [token|]; [|exact Hstop].
    destruct (attachments event) as [todo|]; [|exact Hstop].
    apply spends_each_attachment. }
  destruct (Hspends st) as (new & Ht & Hc & Hr & Hw).
  exists new. auto.
Qed.
